(** * brainfish-oas-sync: the OAS upload action (index.js)

    A shallow embedding of the action's pipeline

      readOASFile -> processOASFile (convertYamlToJson) -> uploadToBrainfish

    and of the parts of the JavaScript platform it calls: strings as
    sequences of UTF-16 code units, the UTF-8 codec behind
    [fs.readFileSync(_, 'utf8')] and [Buffer.from(_, 'utf8')], POSIX
    [path.extname] / [path.basename], [encodeURIComponent],
    [JSON.stringify(_, null, 2)] and [JSON.parse].

    What the platform leaves to the implementation or to the outside
    world is a parameter: the engine's numbers and case mapping
    ([Engine]), and the file system, the js-yaml loader, the URL parser
    and the network ([World]). *)

From Stdlib Require Import String Ascii NArith ZArith Lia Bool Arith List.
From Stdlib Require DecimalFacts DecimalN.
Import ListNotations.

Set Implicit Arguments.

(* ================================================================= *)
(** ** JavaScript strings *)

(** A JavaScript string is a sequence of 16-bit code units. *)
Definition codeunit := N.
Definition JsString := list codeunit.

(** A buffer is a sequence of octets. *)
Definition Bytes := list N.

(** The code units of an ASCII literal. *)
Definition str (s : string) : JsString :=
  List.map N_of_ascii (list_ascii_of_string s).

(** [a === b] on strings. *)
Fixpoint JsString_eqb (a b : JsString) : bool :=
  match a, b with
  | [], [] => true
  | x :: a', y :: b' => (x =? y)%N && JsString_eqb a' b'
  | _, _ => false
  end.

(** Truthiness of a string: only the empty string is falsy. *)
Definition truthy (s : JsString) : bool :=
  match s with [] => false | _ :: _ => true end.

(** [s.startsWith(p)], returning what follows the prefix. *)
Fixpoint strip_prefix (p s : JsString) : option JsString :=
  match p with
  | [] => Some s
  | x :: p' =>
      match s with
      | [] => None
      | y :: s' => if (x =? y)%N then strip_prefix p' s' else None
      end
  end.

(** [s.endsWith(p)], returning what precedes the suffix. *)
Definition strip_suffix (p s : JsString) : option JsString :=
  match strip_prefix (rev p) (rev s) with
  | Some r => Some (rev r)
  | None => None
  end.

(** [parts.join(sep)]. *)
Fixpoint join (sep : JsString) (parts : list JsString) : JsString :=
  match parts with
  | [] => []
  | [p] => p
  | p :: ps => p ++ sep ++ join sep ps
  end.

(** Decimal digits of a non-negative integer, as template literals print
    file sizes, ports and status codes. *)
Fixpoint uint_digits (u : Decimal.uint) : JsString :=
  match u with
  | Decimal.Nil => []
  | Decimal.D0 u' => 48%N :: uint_digits u'
  | Decimal.D1 u' => 49%N :: uint_digits u'
  | Decimal.D2 u' => 50%N :: uint_digits u'
  | Decimal.D3 u' => 51%N :: uint_digits u'
  | Decimal.D4 u' => 52%N :: uint_digits u'
  | Decimal.D5 u' => 53%N :: uint_digits u'
  | Decimal.D6 u' => 54%N :: uint_digits u'
  | Decimal.D7 u' => 55%N :: uint_digits u'
  | Decimal.D8 u' => 56%N :: uint_digits u'
  | Decimal.D9 u' => 57%N :: uint_digits u'
  end.

Definition N_toString (n : N) : JsString := uint_digits (N.to_uint n).

Definition Z_toString (z : Z) : JsString :=
  match z with
  | Zneg p => 45%N :: N_toString (Npos p)
  | _ => N_toString (Z.to_N z)
  end.

(** Hexadecimal digits. *)
Definition hex_lower (d : N) : codeunit :=
  (if d <? 10 then 48 + d else 87 + d)%N.

Definition hex_upper (d : N) : codeunit :=
  (if d <? 10 then 48 + d else 55 + d)%N.

Definition hex_value (c : codeunit) : option N :=
  (if (48 <=? c) && (c <=? 57) then Some (c - 48)
   else if (97 <=? c) && (c <=? 102) then Some (c - 87)
   else if (65 <=? c) && (c <=? 70) then Some (c - 55)
   else None)%N.

(** Surrogate code units. *)
Definition is_high_surrogate (c : codeunit) : bool :=
  ((55296 <=? c) && (c <=? 56319))%N.

Definition is_low_surrogate (c : codeunit) : bool :=
  ((56320 <=? c) && (c <=? 57343))%N.

(** The code point of a surrogate pair. *)
Definition pair_code_point (hi lo : codeunit) : N :=
  (65536 + (hi - 55296) * 1024 + (lo - 56320))%N.

(* ================================================================= *)
(** ** UTF-8 *)

Module Utf8.
Local Open Scope N_scope.

(** The octets of one code point. *)
Definition of_code_point (cp : N) : Bytes :=
  if cp <? 128 then [cp]
  else if cp <? 2048 then [192 + cp / 64; 128 + cp mod 64]
  else if cp <? 65536 then
    [224 + cp / 4096; 128 + (cp / 64) mod 64; 128 + cp mod 64]
  else
    [240 + cp / 262144; 128 + (cp / 4096) mod 64;
     128 + (cp / 64) mod 64; 128 + cp mod 64].

(** U+FFFD, and its three octets. *)
Definition replacement : codeunit := 65533.
Definition replacement_bytes : Bytes := [239; 191; 189].

(** [Buffer.from(s, 'utf8')]: surrogate pairs become one four-octet
    sequence, a lone surrogate becomes U+FFFD. *)
Fixpoint encode (s : JsString) : Bytes :=
  match s with
  | [] => []
  | c :: rest =>
      if is_high_surrogate c then
        match rest with
        | d :: rest' =>
            if is_low_surrogate d
            then of_code_point (pair_code_point c d) ++ encode rest'
            else replacement_bytes ++ encode rest
        | [] => replacement_bytes
        end
      else if is_low_surrogate c then replacement_bytes ++ encode rest
      else of_code_point c ++ encode rest
  end.

Definition is_cont (b : N) : bool := (128 <=? b) && (b <=? 191).

(** The range allowed for the second octet after lead octet [b0]
    (Unicode table 3-7). *)
Definition second_ok (b0 b1 : N) : bool :=
  if b0 =? 224 then (160 <=? b1) && (b1 <=? 191)
  else if b0 =? 237 then (128 <=? b1) && (b1 <=? 159)
  else if b0 =? 240 then (144 <=? b1) && (b1 <=? 191)
  else if b0 =? 244 then (128 <=? b1) && (b1 <=? 143)
  else is_cont b1.

Definition to_code_units (cp : N) : JsString :=
  if cp <? 65536 then [cp]
  else [55296 + (cp - 65536) / 1024; 56320 + (cp - 65536) mod 1024].

(** [buffer.toString('utf8')], as [fs.readFileSync(path, 'utf8')] decodes
    a file: every maximal ill-formed subsequence is replaced by U+FFFD
    and decoding resumes at the offending octet. A leading byte order
    mark is kept. *)
Fixpoint decode (bs : Bytes) : JsString :=
  match bs with
  | [] => []
  | b0 :: r0 =>
      if b0 <? 128 then b0 :: decode r0
      else if (194 <=? b0) && (b0 <=? 223) then
        match r0 with
        | b1 :: r1 =>
            if is_cont b1
            then ((b0 - 192) * 64 + (b1 - 128)) :: decode r1
            else replacement :: decode r0
        | [] => [replacement]
        end
      else if (224 <=? b0) && (b0 <=? 239) then
        match r0 with
        | b1 :: r1 =>
            if second_ok b0 b1 then
              match r1 with
              | b2 :: r2 =>
                  if is_cont b2
                  then ((b0 - 224) * 4096 + (b1 - 128) * 64 + (b2 - 128))
                         :: decode r2
                  else replacement :: decode r1
              | [] => [replacement]
              end
            else replacement :: decode r0
        | [] => [replacement]
        end
      else if (240 <=? b0) && (b0 <=? 244) then
        match r0 with
        | b1 :: r1 =>
            if second_ok b0 b1 then
              match r1 with
              | b2 :: r2 =>
                  if is_cont b2 then
                    match r2 with
                    | b3 :: r3 =>
                        if is_cont b3
                        then to_code_units
                               ((b0 - 240) * 262144 + (b1 - 128) * 4096
                                + (b2 - 128) * 64 + (b3 - 128))
                             ++ decode r3
                        else replacement :: decode r2
                    | [] => [replacement]
                    end
                  else replacement :: decode r1
              | [] => [replacement]
              end
            else replacement :: decode r0
        | [] => [replacement]
        end
      else replacement :: decode r0
  end.

(** Well-formed UTF-8: the octet sequences of Unicode table 3-7. *)
Fixpoint well_formed (bs : Bytes) : bool :=
  match bs with
  | [] => true
  | b0 :: r0 =>
      if b0 <? 128 then well_formed r0
      else if (194 <=? b0) && (b0 <=? 223) then
        match r0 with
        | b1 :: r1 => is_cont b1 && well_formed r1
        | [] => false
        end
      else if (224 <=? b0) && (b0 <=? 239) then
        match r0 with
        | b1 :: b2 :: r2 => second_ok b0 b1 && is_cont b2 && well_formed r2
        | _ => false
        end
      else if (240 <=? b0) && (b0 <=? 244) then
        match r0 with
        | b1 :: b2 :: b3 :: r3 =>
            second_ok b0 b1 && is_cont b2 && is_cont b3 && well_formed r3
        | _ => false
        end
      else false
  end.

End Utf8.

(* ================================================================= *)
(** ** Global functions and the path module *)

(** [encodeURIComponent(s)]: unreserved characters stay, every other code
    point becomes the percent-escapes of its UTF-8 octets; a lone
    surrogate raises URIError ([None]). *)
Definition uri_unreserved (c : codeunit) : bool :=
  ((48 <=? c) && (c <=? 57) || (65 <=? c) && (c <=? 90)
   || (97 <=? c) && (c <=? 122)
   || (c =? 45) || (c =? 95) || (c =? 46) || (c =? 33) || (c =? 126)
   || (c =? 42) || (c =? 39) || (c =? 40) || (c =? 41))%N.

Definition percent_escape (b : N) : JsString :=
  [37%N; hex_upper (b / 16); hex_upper (b mod 16)].

Fixpoint encodeURIComponent (s : JsString) : option JsString :=
  match s with
  | [] => Some []
  | c :: rest =>
      if uri_unreserved c then option_map (cons c) (encodeURIComponent rest)
      else if is_low_surrogate c then None
      else if is_high_surrogate c then
        match rest with
        | d :: rest' =>
            if is_low_surrogate d
            then option_map
                   (app (flat_map percent_escape
                           (Utf8.of_code_point (pair_code_point c d))))
                   (encodeURIComponent rest')
            else None
        | [] => None
        end
      else option_map (app (flat_map percent_escape (Utf8.of_code_point c)))
                      (encodeURIComponent rest)
  end.

(** The POSIX flavour of [path], as on a Linux runner. *)
Module Path.
Local Open Scope Z_scope.

(** [s.slice(start, end)] for [0 <= start <= end]. *)
Definition slice (s : JsString) (start end_ : Z) : JsString :=
  firstn (Z.to_nat (end_ - start)) (skipn (Z.to_nat start) s).

(** The loop of [posix.basename(path)], from the last character down:
    trailing slashes are skipped, the first other character marks the
    end, the next slash stops the scan. The result is [(start, end)]. *)
Fixpoint basename_loop (chars : JsString) (i end_ : Z) (matchedSlash : bool)
  : Z * Z :=
  match chars with
  | [] => (0, end_)
  | c :: rest =>
      if (c =? 47)%N then
        if negb matchedSlash then (i + 1, end_)
        else basename_loop rest (i - 1) end_ matchedSlash
      else if end_ =? -1 then basename_loop rest (i - 1) (i + 1) false
      else basename_loop rest (i - 1) end_ matchedSlash
  end.

Definition basename (path : JsString) : JsString :=
  let '(start, end_) :=
    basename_loop (rev path) (Z.of_nat (length path) - 1) (-1) true in
  if end_ =? -1 then [] else slice path start end_.

(** The loop of [posix.extname(path)]; the result is
    [(startDot, startPart, end, preDotState)]. *)
Fixpoint extname_loop (chars : JsString) (i startDot end_ : Z)
    (matchedSlash : bool) (preDotState : Z) : Z * Z * Z * Z :=
  match chars with
  | [] => (startDot, 0, end_, preDotState)
  | code :: rest =>
      if (code =? 47)%N then
        if negb matchedSlash then (startDot, i + 1, end_, preDotState)
        else extname_loop rest (i - 1) startDot end_ matchedSlash preDotState
      else
        let matchedSlash' := if end_ =? -1 then false else matchedSlash in
        let end' := if end_ =? -1 then i + 1 else end_ in
        if (code =? 46)%N then
          if startDot =? -1
          then extname_loop rest (i - 1) i end' matchedSlash' preDotState
          else if negb (preDotState =? 1)
          then extname_loop rest (i - 1) startDot end' matchedSlash' 1
          else extname_loop rest (i - 1) startDot end' matchedSlash' preDotState
        else if negb (startDot =? -1)
        then extname_loop rest (i - 1) startDot end' matchedSlash' (-1)
        else extname_loop rest (i - 1) startDot end' matchedSlash' preDotState
  end.

Definition extname (path : JsString) : JsString :=
  let '(startDot, startPart, end_, preDotState) :=
    extname_loop (rev path) (Z.of_nat (length path) - 1) (-1) (-1) true 0 in
  if (startDot =? -1) || (end_ =? -1) || (preDotState =? 0)
     || ((preDotState =? 1) && (startDot =? end_ - 1)
         && (startDot =? startPart + 1))
  then []
  else slice path startDot end_.

End Path.

(** [fileName.replace(/\.(yaml|yml)$/, '.json')]: the pattern has no [i]
    flag and is anchored at the end of the input. *)
Definition replace_yaml_extension (fileName : JsString) : JsString :=
  match strip_suffix (str ".yaml") fileName with
  | Some stem => stem ++ str ".json"
  | None =>
      match strip_suffix (str ".yml") fileName with
      | Some stem => stem ++ str ".json"
      | None => fileName
      end
  end.

(* ================================================================= *)
(** ** The engine *)

(** What ECMAScript leaves to the implementation, or what is too large to
    spell out here: IEEE 754 numbers with their decimal conversions
    ([Number::toString] and [StringToNumber]), the Unicode case mapping
    behind [String.prototype.toLowerCase], and the wording of the
    SyntaxError that [JSON.parse] throws. *)
Class Engine : Type := {
  number : Type;
  isFinite : number -> bool;
  (** SameValueZero: NaN equals NaN, and +0 equals -0. *)
  sameValueZero : number -> number -> bool;
  Number_toString : number -> JsString;
  StringToNumber : JsString -> number;
  toLowerCase : JsString -> JsString;
  SyntaxError_message : JsString -> JsString
}.

(** Outcome of a call that may throw. *)
Inductive result (X A : Type) : Type :=
| Ok (a : A)
| Err (e : X).
Arguments Ok {X A} a.
Arguments Err {X A} e.

(* ================================================================= *)
(** ** Values and JSON *)

Section Json.
Context {E : Engine}.
Local Open Scope N_scope.

#[local] Unset Elimination Schemes.
(** The values [yaml.load] and [JSON.parse] build. An object lists its
    own properties in enumeration order; a JavaScript object holds each
    key once. Dates and binary data, which js-yaml can build as well,
    and shared or cyclic nodes are not represented. *)
Inductive JsValue : Type :=
| VUndefined
| VNull
| VBool (b : bool)
| VNumber (n : number)
| VString (s : JsString)
| VArray (items : list JsValue)
| VObject (props : list (JsString * JsValue)).
#[local] Set Elimination Schemes.

(** *** JSON.stringify(value, null, 2) *)

Definition unicode_escape (c : codeunit) : JsString :=
  [92; 117; hex_lower (c / 4096 mod 16); hex_lower (c / 256 mod 16);
   hex_lower (c / 16 mod 16); hex_lower (c mod 16)].

Definition quote_char (c : codeunit) : JsString :=
  if c =? 8 then [92; 98]
  else if c =? 9 then [92; 116]
  else if c =? 10 then [92; 110]
  else if c =? 12 then [92; 102]
  else if c =? 13 then [92; 114]
  else if c =? 34 then [92; 34]
  else if c =? 92 then [92; 92]
  else if c <? 32 then unicode_escape c
  else [c].

(** QuoteJSONString walks the code points of the string: a surrogate pair
    is copied, a lone surrogate is written as a [\u] escape. *)
Fixpoint quote_chars (s : JsString) : JsString :=
  match s with
  | [] => []
  | c :: rest =>
      if is_high_surrogate c then
        match rest with
        | d :: rest' =>
            if is_low_surrogate d then c :: d :: quote_chars rest'
            else unicode_escape c ++ quote_chars rest
        | [] => unicode_escape c
        end
      else if is_low_surrogate c then unicode_escape c ++ quote_chars rest
      else quote_char c ++ quote_chars rest
  end.

Definition QuoteJSONString (s : JsString) : JsString :=
  [34] ++ quote_chars s ++ [34].

(** The gap of [JSON.stringify(_, null, 2)]: two spaces. *)
Definition gap : JsString := [32; 32].

Definition wrap (open close stepback indent : JsString)
    (partial : list JsString) : JsString :=
  match partial with
  | [] => open ++ close
  | _ =>
      open ++ [10] ++ indent ++ join ([44; 10] ++ indent) partial
        ++ [10] ++ stepback ++ close
  end.

(** SerializeJSONProperty with SerializeJSONArray and SerializeJSONObject.
    [None] is [undefined]: the property is left out of an object and
    written as [null] in an array. *)
Fixpoint SerializeJSONProperty (indent : JsString) (v : JsValue)
  : option JsString :=
  match v with
  | VUndefined => None
  | VNull => Some (str "null")
  | VBool true => Some (str "true")
  | VBool false => Some (str "false")
  | VNumber n => if isFinite n then Some (Number_toString n)
                 else Some (str "null")
  | VString s => Some (QuoteJSONString s)
  | VArray items =>
      let stepback := indent in
      let indent := indent ++ gap in
      let partial :=
        List.map (fun x => match SerializeJSONProperty indent x with
                           | Some s => s
                           | None => str "null"
                           end) items in
      Some (wrap [91] [93] stepback indent partial)
  | VObject props =>
      let stepback := indent in
      let indent := indent ++ gap in
      let partial :=
        List.flat_map
          (fun p => match SerializeJSONProperty indent (snd p) with
                    | Some s => [QuoteJSONString (fst p) ++ [58; 32] ++ s]
                    | None => []
                    end) props in
      Some (wrap [123] [125] stepback indent partial)
  end.

Definition JSON_stringify (v : JsValue) : option JsString :=
  SerializeJSONProperty [] v.

(** *** JSON.parse *)

Definition is_ws (c : codeunit) : bool :=
  (c =? 32) || (c =? 9) || (c =? 10) || (c =? 13).

Fixpoint skip_ws (s : JsString) : JsString :=
  match s with
  | c :: r => if is_ws c then skip_ws r else s
  | [] => []
  end.

Definition is_digit (c : codeunit) : bool := (48 <=? c) && (c <=? 57).

Fixpoint span_digits (s : JsString) : JsString * JsString :=
  match s with
  | c :: r =>
      if is_digit c then let (ds, r') := span_digits r in (c :: ds, r')
      else ([], s)
  | [] => ([], [])
  end.

Definition lex_minus (s : JsString) : JsString * JsString :=
  match s with
  | c :: r => if c =? 45 then ([45], r) else ([], s)
  | [] => ([], s)
  end.

Definition lex_int (s : JsString) : option (JsString * JsString) :=
  match s with
  | c :: r =>
      if c =? 48 then Some ([48], r)
      else if is_digit c then Some (span_digits s)
      else None
  | [] => None
  end.

Definition lex_frac (s : JsString) : JsString * JsString :=
  match s with
  | c :: r =>
      if c =? 46 then
        match span_digits r with
        | ([], _) => ([], s)
        | (ds, r') => (c :: ds, r')
        end
      else ([], s)
  | [] => ([], s)
  end.

Definition lex_sign (s : JsString) : JsString * JsString :=
  match s with
  | c :: r => if (c =? 43) || (c =? 45) then ([c], r) else ([], s)
  | [] => ([], s)
  end.

Definition lex_exp (s : JsString) : JsString * JsString :=
  match s with
  | c :: r =>
      if (c =? 101) || (c =? 69) then
        let (sg, r1) := lex_sign r in
        match span_digits r1 with
        | ([], _) => ([], s)
        | (ds, r2) => (c :: sg ++ ds, r2)
        end
      else ([], s)
  | [] => ([], s)
  end.

(** The longest prefix that is a JSON number: an optional minus sign, an
    integer part without leading zeros, an optional fraction and an
    optional exponent. *)
Definition lex_number (s : JsString) : option (JsString * JsString) :=
  let (sg, s1) := lex_minus s in
  match lex_int s1 with
  | None => None
  | Some (ip, s2) =>
      let (fp, s3) := lex_frac s2 in
      let (ep, s4) := lex_exp s3 in
      Some (sg ++ ip ++ fp ++ ep, s4)
  end.

Definition hex4 (h1 h2 h3 h4 : codeunit) : option codeunit :=
  match hex_value h1, hex_value h2, hex_value h3, hex_value h4 with
  | Some a, Some b, Some c, Some d => Some (a * 4096 + b * 256 + c * 16 + d)
  | _, _, _, _ => None
  end.

Definition unescape (e : codeunit) : option codeunit :=
  if e =? 34 then Some 34
  else if e =? 92 then Some 92
  else if e =? 47 then Some 47
  else if e =? 98 then Some 8
  else if e =? 102 then Some 12
  else if e =? 110 then Some 10
  else if e =? 114 then Some 13
  else if e =? 116 then Some 9
  else None.

Definition consume (c : codeunit) (r : option (JsString * JsString))
  : option (JsString * JsString) :=
  match r with
  | Some (x, rest) => Some (c :: x, rest)
  | None => None
  end.

(** The characters of a string literal after its opening quote, up to
    and including the closing quote. *)
Fixpoint parse_string_chars (s : JsString) : option (JsString * JsString) :=
  match s with
  | [] => None
  | c :: rest =>
      if c =? 34 then Some ([], rest)
      else if c =? 92 then
        match rest with
        | e :: rest1 =>
            if e =? 117 then
              match rest1 with
              | h1 :: h2 :: h3 :: h4 :: rest2 =>
                  match hex4 h1 h2 h3 h4 with
                  | Some u => consume u (parse_string_chars rest2)
                  | None => None
                  end
              | _ => None
              end
            else
              match unescape e with
              | Some u => consume u (parse_string_chars rest1)
              | None => None
              end
        | [] => None
        end
      else if c <? 32 then None
      else consume c (parse_string_chars rest)
  end.

(** [CreateDataProperty]: a repeated key keeps its place and takes the
    later value. *)
Fixpoint obj_set (k : JsString) (v : JsValue)
    (props : list (JsString * JsValue)) : list (JsString * JsValue) :=
  match props with
  | [] => [(k, v)]
  | (k', v') :: rest =>
      if JsString_eqb k k' then (k', v) :: rest
      else (k', v') :: obj_set k v rest
  end.

Fixpoint obj_get (k : JsString) (props : list (JsString * JsValue))
  : option JsValue :=
  match props with
  | [] => None
  | (k', v') :: rest => if JsString_eqb k k' then Some v' else obj_get k rest
  end.

(** Recursive descent over the text; each call spends one unit of fuel,
    and a text never needs more fuel than it has characters. *)
Fixpoint parse_value (fuel : nat) (s : JsString)
  : option (JsValue * JsString) :=
  match fuel with
  | O => None
  | S f =>
      match skip_ws s with
      | [] => None
      | c :: r =>
          if c =? 123 then
            match skip_ws r with
            | [] => None
            | c' :: r' =>
                if c' =? 125 then Some (VObject [], r')
                else parse_members f r []
            end
          else if c =? 91 then
            match skip_ws r with
            | [] => None
            | c' :: r' =>
                if c' =? 93 then Some (VArray [], r')
                else parse_elements f r []
            end
          else if c =? 34 then
            match parse_string_chars r with
            | Some (x, r') => Some (VString x, r')
            | None => None
            end
          else if c =? 110 then
            match strip_prefix (str "null") (c :: r) with
            | Some r' => Some (VNull, r')
            | None => None
            end
          else if c =? 116 then
            match strip_prefix (str "true") (c :: r) with
            | Some r' => Some (VBool true, r')
            | None => None
            end
          else if c =? 102 then
            match strip_prefix (str "false") (c :: r) with
            | Some r' => Some (VBool false, r')
            | None => None
            end
          else
            match lex_number (c :: r) with
            | Some (tok, r') => Some (VNumber (StringToNumber tok), r')
            | None => None
            end
      end
  end
with parse_elements (fuel : nat) (s : JsString) (acc : list JsValue)
  : option (JsValue * JsString) :=
  match fuel with
  | O => None
  | S f =>
      match parse_value f s with
      | None => None
      | Some (v, r) =>
          match skip_ws r with
          | [] => None
          | c :: r' =>
              if c =? 44 then parse_elements f r' (acc ++ [v])
              else if c =? 93 then Some (VArray (acc ++ [v]), r')
              else None
          end
      end
  end
with parse_members (fuel : nat) (s : JsString)
    (acc : list (JsString * JsValue)) : option (JsValue * JsString) :=
  match fuel with
  | O => None
  | S f =>
      match skip_ws s with
      | [] => None
      | q :: r =>
          if q =? 34 then
            match parse_string_chars r with
            | None => None
            | Some (k, r1) =>
                match skip_ws r1 with
                | [] => None
                | c :: r2 =>
                    if c =? 58 then
                      match parse_value f r2 with
                      | None => None
                      | Some (v, r3) =>
                          match skip_ws r3 with
                          | [] => None
                          | c' :: r4 =>
                              if c' =? 44
                              then parse_members f r4 (obj_set k v acc)
                              else if c' =? 125
                              then Some (VObject (obj_set k v acc), r4)
                              else None
                          end
                      end
                    else None
                end
            end
          else None
      end
  end.

(** [JSON.parse(text)]: one value, surrounded by white space only. *)
Definition JSON_parse (text : JsString) : result JsString JsValue :=
  match parse_value (S (List.length text)) text with
  | Some (v, rest) =>
      match skip_ws rest with
      | [] => Ok v
      | _ :: _ => Err (SyntaxError_message text)
      end
  | None => Err (SyntaxError_message text)
  end.

(** *** Deep equality *)

(** Structural comparison: SameValueZero on numbers, element by element
    on arrays, and key by key on objects, whatever the order of keys. *)
Fixpoint deepEqual (a b : JsValue) : bool :=
  match a, b with
  | VUndefined, VUndefined => true
  | VNull, VNull => true
  | VBool x, VBool y => Bool.eqb x y
  | VNumber x, VNumber y => sameValueZero x y
  | VString x, VString y => JsString_eqb x y
  | VArray xs, VArray ys =>
      (fix all2 (xs ys : list JsValue) : bool :=
         match xs, ys with
         | [], [] => true
         | x :: xs', y :: ys' => deepEqual x y && all2 xs' ys'
         | _, _ => false
         end) xs ys
  | VObject ps, VObject qs =>
      Nat.eqb (List.length ps) (List.length qs)
      && (fix props (ps : list (JsString * JsValue)) : bool :=
            match ps with
            | [] => true
            | p :: ps' =>
                match obj_get (fst p) qs with
                | Some w => deepEqual (snd p) w
                | None => false
                end && props ps'
            end) ps
  | _, _ => false
  end.

(** Keys occur once in every object of the tree. *)
Fixpoint distinct (ks : list JsString) : bool :=
  match ks with
  | [] => true
  | k :: ks' => negb (existsb (JsString_eqb k) ks') && distinct ks'
  end.

Fixpoint well_formed_value (v : JsValue) : bool :=
  match v with
  | VArray items => forallb well_formed_value items
  | VObject props =>
      distinct (List.map fst props)
      && forallb (fun p => well_formed_value (snd p)) props
  | _ => true
  end.

(** The value trees JSON can write down: no [undefined] anywhere and no
    NaN or infinity. *)
Fixpoint json_serializable (v : JsValue) : bool :=
  match v with
  | VUndefined => false
  | VNumber n => isFinite n
  | VArray items => forallb json_serializable items
  | VObject props => forallb (fun p => json_serializable (snd p)) props
  | _ => true
  end.

(** What [JSON.parse] reads back from the text of a value: the same
    tree, with every number printed and read again. *)
Fixpoint reread (v : JsValue) : JsValue :=
  match v with
  | VNumber n => VNumber (StringToNumber (Number_toString n))
  | VArray items => VArray (List.map reread items)
  | VObject props =>
      VObject (List.map (fun p => (fst p, reread (snd p))) props)
  | _ => v
  end.

(** A character that can follow a number: none that would extend it. *)
Definition ends_number (rest : JsString) : bool :=
  match rest with
  | [] => true
  | c :: _ =>
      negb (is_digit c || (c =? 46) || (c =? 101) || (c =? 69)
            || (c =? 43) || (c =? 45))
  end.

(** [text] reads back as [v]: it starts with a character of its own
    (no white space, no closing bracket), and with fuel for its length
    [parse_value] reads [reread v] from it and stops where it ends. *)
Definition reads_back (v : JsValue) (text : JsString) : Prop :=
  (exists c l, text = c :: l /\ is_ws c = false /\ c <> 93)
  /\ forall (fuel : nat) (rest : JsString),
       (List.length text <= fuel)%nat ->
       ends_number rest = true ->
       parse_value fuel (text ++ rest) = Some (reread v, rest).

(** A member of an object and its text: the quoted key, a colon, a
    space and the text of the value. *)
Definition member_text (p : JsString * JsValue) (m : JsString) : Prop :=
  exists t, m = QuoteJSONString (fst p) ++ [58; 32] ++ t
            /\ reads_back (snd p) t.

End Json.

(** The laws ECMAScript gives for the decimal conversions: a finite
    number prints as a JSON number, and reading the digits back gives
    the same number (with -0 printed as [0]). *)
Class EngineLaws (E : Engine) : Prop := {
  Number_toString_json :
    forall n : number, isFinite n = true ->
      lex_number (Number_toString n) = Some (Number_toString n, []);
  Number_toString_roundtrip :
    forall n : number, isFinite n = true ->
      sameValueZero (StringToNumber (Number_toString n)) n = true
}.

(* ================================================================= *)
(** ** The world of one run *)

Section Program.
Context {E : Engine}.

Inductive FsEntry : Type :=
| RegularFile (bytes : Bytes)
| Directory (size : N).

(** [yaml.load(text)] returns a value, [undefined] for a text without a
    document (an empty text; a text of comments only is one document,
    [null]), or throws a YAMLException. *)
Inductive YamlOutcome : Type :=
| Loaded (v : JsValue)
| YAMLException (message : JsString).

(** The fields of [new URL(baseUrl)] that the action reads. *)
Record URL : Type := {
  url_protocol : JsString;
  url_hostname : JsString;
  url_port : JsString
}.

(** One [form.append(field, buffer, { filename, contentType })]. *)
Record FormPart : Type := {
  field : JsString;
  value : Bytes;
  filename : JsString;
  contentType : JsString
}.

(** [url.port || (url.protocol === 'https:' ? 443 : 80)] is a string or a
    number. *)
Inductive Port : Type :=
| PortString (s : JsString)
| PortNumber (n : N).

Record RequestOptions : Type := {
  method : JsString;
  hostname : JsString;
  port : Port;
  path : JsString;
  headers : list (JsString * JsString)
}.

(** A request handed to [https.request], with the form piped into it. *)
Record Request : Type := {
  options : RequestOptions;
  body : list FormPart
}.

(** What comes back: a response whose body arrives in chunks and ends,
    an ['error'] event on the request, or neither: a connection that
    hangs, or a response cut short after its headers, for which the
    response never emits ['end'] and the request no ['error']. *)
Inductive NetworkOutcome : Type :=
| Response (statusCode : Z) (chunks : list Bytes)
| NetworkError (message : JsString)
| Unsettled.

Record World : Type := {
  (** [core.getInput(name)]; an input that is not set reads as [''] *)
  getInput : JsString -> JsString;
  (** the file system, by path *)
  fs : JsString -> option FsEntry;
  (** js-yaml *)
  yaml_load : JsString -> YamlOutcome;
  (** [new URL(input)]; [None] when it throws *)
  URL_parse : JsString -> option URL;
  (** the boundary form-data generates *)
  boundary : JsString;
  (** the server and the network between *)
  https_request : Request -> NetworkOutcome
}.

(* ================================================================= *)
(** ** Errors, events and the effect monad *)

(** One constructor per place that throws. *)
Inductive Error : Type :=
| MissingInput (name : JsString)
| FileNotFound (filePath : JsString)
| SystemError (message : JsString)
| InvalidYaml (parserMessage : JsString)
| InvalidJson (parserMessage : JsString)
| UnsupportedFormat (extension : JsString)
| TypeError (message : JsString)
| URIError (message : JsString)
| UploadStatus (statusCode : Z) (responseData : JsString)
| RequestFailed (errorMessage : JsString).

(** [error.message]. *)
Definition message (e : Error) : JsString :=
  match e with
  | MissingInput name => name ++ str " is required"
  | FileNotFound filePath => str "OAS file not found at path: " ++ filePath
  | SystemError m => m
  | InvalidYaml m => str "Failed to parse YAML content: " ++ m
  | InvalidJson m => str "Invalid JSON format: " ++ m
  | UnsupportedFormat extension =>
      str "Unsupported file format: " ++ extension
        ++ str ". Supported formats: .yaml, .yml, .json"
  | TypeError m => m
  | URIError m => m
  | UploadStatus statusCode responseData =>
      str "Upload failed with status " ++ Z_toString statusCode ++ str ": "
        ++ responseData
  | RequestFailed m => str "Request failed: " ++ m
  end.

(** The error taxonomy of the design. *)
Inductive ErrorKind : Type :=
| KFileNotFound
| KInvalidYaml
| KInvalidJson
| KUnsupportedFormat
| KUploadFailed
| KOther.

Definition kind (e : Error) : ErrorKind :=
  match e with
  | FileNotFound _ => KFileNotFound
  | InvalidYaml _ => KInvalidYaml
  | InvalidJson _ => KInvalidJson
  | UnsupportedFormat _ => KUnsupportedFormat
  | UploadStatus _ _ => KUploadFailed
  | RequestFailed _ => KUploadFailed
  | MissingInput _ | SystemError _ | TypeError _ | URIError _ => KOther
  end.

(** What a run does to the outside, in order. *)
Inductive Event : Type :=
| Info (msg : JsString)
| ErrorLog (msg : JsString)
| SetOutput (name value : JsString)
| SetFailed (msg : JsString)
| HttpsRequest (r : Request).

(** A computation: the events it emitted, and a value or the error it
    threw. *)
Definition Eff (A : Type) : Type := (list Event * result Error A)%type.

Definition ret {A : Type} (a : A) : Eff A := ([], Ok a).

Definition throw {A : Type} (e : Error) : Eff A := ([], Err e).

Definition emit (ev : Event) : Eff unit := ([ev], Ok tt).

Definition bind {A B : Type} (m : Eff A) (k : A -> Eff B) : Eff B :=
  match m with
  | (t, Ok a) => let (t', r) := k a in (t ++ t', r)
  | (t, Err e) => (t, Err e)
  end.

Definition core_info (msg : JsString) : Eff unit := emit (Info msg).
Definition core_error (msg : JsString) : Eff unit := emit (ErrorLog msg).
Definition core_setOutput (name value : JsString) : Eff unit :=
  emit (SetOutput name value).
Definition core_setFailed (msg : JsString) : Eff unit := emit (SetFailed msg).

(** How a promise ends: it settles, resolved with a value or rejected
    with an error, or it stays pending, and then nothing that waits for
    it ever runs. *)
Inductive Settlement (A : Type) : Type :=
| Settled (r : result Error A)
| Pending.
Arguments Settled {A} r.
Arguments Pending {A}.

(** An asynchronous computation: the events it emitted, and how it
    ended. *)
Definition Async (A : Type) : Type := (list Event * Settlement A)%type.

(** Synchronous code run inside asynchronous code: what it throws
    rejects. *)
Definition sync {A : Type} (m : Eff A) : Async A := (fst m, Settled (snd m)).

Definition resolve {A : Type} (a : A) : Async A := ([], Settled (Ok a)).

Definition reject {A : Type} (e : Error) : Async A := ([], Settled (Err e)).

(** [const x = await m; k]. *)
Definition await {A B : Type} (m : Async A) (k : A -> Async B) : Async B :=
  match m with
  | (t, Settled (Ok a)) => let (t', s) := k a in (t ++ t', s)
  | (t, Settled (Err e)) => (t, Settled (Err e))
  | (t, Pending) => (t, Pending)
  end.

End Program.

Arguments Settled {A} r.
Arguments Pending {A}.

Declare Scope eff_scope.
Delimit Scope eff_scope with eff.
Notation "x <- m ;; k" := (bind m (fun x => k))
  (at level 61, m at next level, right associativity) : eff_scope.
Notation "m ;; k" := (bind m (fun _ => k))
  (at level 61, right associativity) : eff_scope.

Declare Scope async_scope.
Delimit Scope async_scope with async.
Notation "x <- m ;; k" := (await m (fun x => k))
  (at level 61, m at next level, right associativity) : async_scope.
Notation "m ;; k" := (await m (fun _ => k))
  (at level 61, right associativity) : async_scope.

(* ================================================================= *)
(** ** index.js *)

Section Action.
Context {E : Engine}.
Variable w : World.
Local Open Scope eff_scope.

(** *** The fs calls of readOASFile *)

Definition fs_existsSync (filePath : JsString) : bool :=
  match fs w filePath with Some _ => true | None => false end.

(** [fs.statSync(filePath).size], once the path is known to exist. *)
Definition fs_statSync_size (entry : FsEntry) : N :=
  match entry with
  | RegularFile bytes => N.of_nat (List.length bytes)
  | Directory size => size
  end.

(** [fs.readFileSync(filePath, 'utf8')]. *)
Definition fs_readFileSync (entry : FsEntry) : Eff JsString :=
  match entry with
  | RegularFile bytes => ret (Utf8.decode bytes)
  | Directory _ =>
      throw (SystemError
               (str "EISDIR: illegal operation on a directory, read"))
  end.

Record FileData : Type := {
  content : JsString;
  extension : JsString;
  fileName : JsString;
  size : N
}.

(** readOASFile (index.js, lines 13-33). *)
Definition readOASFile (filePath : JsString) : Eff FileData :=
  core_info (str "Reading OAS file from: " ++ filePath) ;;
  match fs w filePath with
  | None => throw (FileNotFound filePath)
  | Some entry =>
      let fileStats_size := fs_statSync_size entry in
      let fileExtension := toLowerCase (Path.extname filePath) in
      let fileName := Path.basename filePath in
      fileContent <- fs_readFileSync entry ;;
      core_info (str "File found: " ++ fileName ++ str " ("
                 ++ N_toString fileStats_size ++ str " bytes, "
                 ++ fileExtension ++ str ")") ;;
      ret {| content := fileContent;
             extension := fileExtension;
             fileName := fileName;
             size := fileStats_size |}
  end.

(** convertYamlToJson (lines 40-47). The result is a string, or
    [undefined] ([None]) when [JSON.stringify] returns [undefined]. The
    loaded values are trees: a graph with a cycle through an anchor, on
    which [JSON.stringify] throws, is no [JsValue]. *)
Definition convertYamlToJson (yamlContent : JsString)
  : result Error (option JsString) :=
  match yaml_load w yamlContent with
  | Loaded parsedYaml => Ok (JSON_stringify parsedYaml)
  | YAMLException error_message => Err (InvalidYaml error_message)
  end.

(** The object [{ ...fileData, processedContent, processedFileName }]. *)
Record ProcessedFile : Type := {
  fileData : FileData;
  processedContent : option JsString;
  processedFileName : JsString
}.

(** processOASFile (lines 54-83). *)
Definition processOASFile (fileData : FileData) : Eff ProcessedFile :=
  let content := content fileData in
  let extension := extension fileData in
  let fileName := fileName fileData in
  if JsString_eqb extension (str ".yaml") || JsString_eqb extension (str ".yml")
  then
    core_info (str "Converting YAML to JSON format") ;;
    match convertYamlToJson content with
    | Err e => throw e
    | Ok processedContent =>
        ret {| fileData := fileData;
               processedContent := processedContent;
               processedFileName := replace_yaml_extension fileName |}
    end
  else if JsString_eqb extension (str ".json") then
    core_info (str "File is already in JSON format") ;;
    match JSON_parse content with
    | Ok _ =>
        ret {| fileData := fileData;
               processedContent := Some content;
               processedFileName := fileName |}
    | Err error_message => throw (InvalidJson error_message)
    end
  else throw (UnsupportedFormat extension).

(** *** The pieces of uploadToBrainfish *)

(** [Buffer.from(processedContent, 'utf8')]; a TypeError when the content
    is [undefined]. *)
Definition Buffer_from (processedContent : option JsString) : Eff Bytes :=
  match processedContent with
  | Some s => ret (Utf8.encode s)
  | None =>
      throw (TypeError
               (str "The first argument must be of type string or an "
                ++ str "instance of Buffer, ArrayBuffer, or Array or an "
                ++ str "Array-like Object. Received undefined"))
  end.

(** The form after [form.append('file', fileBuffer, {...})]
    (lines 100-109). *)
Definition uploadForm (fileBuffer : Bytes) (processedFileName : JsString)
  : list FormPart :=
  [ {| field := str "file";
       value := fileBuffer;
       filename := processedFileName;
       contentType := str "application/json" |} ].

(** [form.getHeaders()]. *)
Definition form_getHeaders : list (JsString * JsString) :=
  [ (str "content-type",
     str "multipart/form-data; boundary=" ++ boundary w) ].

Definition new_URL (baseUrl : JsString) : Eff URL :=
  match URL_parse w baseUrl with
  | Some url => ret url
  | None => throw (TypeError (str "Invalid URL"))
  end.

Definition global_encodeURIComponent (s : JsString) : Eff JsString :=
  match encodeURIComponent s with
  | Some r => ret r
  | None => throw (URIError (str "URI malformed"))
  end.

(** [{ ...formHeaders, 'Authorization': value }]. *)
Fixpoint set_header (name value : JsString) (hs : list (JsString * JsString))
  : list (JsString * JsString) :=
  match hs with
  | [] => [(name, value)]
  | (n, v) :: rest =>
      if JsString_eqb name n then (n, value) :: rest
      else (n, v) :: set_header name value rest
  end.

(** The request options (lines 115-129). *)
Definition requestOptions (url : URL) (encodedCatalogId apiToken : JsString)
  : RequestOptions :=
  {| method := str "POST";
     hostname := url_hostname url;
     port := if truthy (url_port url) then PortString (url_port url)
             else if JsString_eqb (url_protocol url) (str "https:")
             then PortNumber 443
             else PortNumber 80;
     path := str "/api/catalogs.upload?catalogId=" ++ encodedCatalogId;
     headers := set_header (str "Authorization") (str "Bearer " ++ apiToken)
                  form_getHeaders |}.

(** [checkInvalidHeaderChar(value)] of Node's http module: true when the
    value holds a character other than a tab, U+0020 to U+007E and
    U+0080 to U+00FF. *)
Definition checkInvalidHeaderChar (value : JsString) : bool :=
  existsb (fun c => negb ((c =? 9) || (32 <=? c) && (c <=? 126)
                          || (128 <=? c) && (c <=? 255))%N) value.

(** The path test of Node's http client: true when the path holds a
    character outside U+0021 to U+00FF. *)
Definition unescaped_path (path : JsString) : bool :=
  existsb (fun c => negb ((33 <=? c) && (c <=? 255))%N) path.

(** The first header, in the order of the keys, whose value [setHeader]
    turns down. *)
Fixpoint invalid_header (hs : list (JsString * JsString))
  : option JsString :=
  match hs with
  | [] => None
  | (name, value) :: rest =>
      if checkInvalidHeaderChar value then Some name else invalid_header rest
  end.

(** [https.request(options, callback)] (line 133) builds the request
    before anything is sent, and throws a TypeError for a path with
    unescaped characters and for a header value that is no header
    value. The method and the header names of the action are fixed
    tokens, and the Host header is made of the host and port of a
    parsed URL. *)
Definition new_ClientRequest (options : RequestOptions) : Eff unit :=
  if unescaped_path (path options)
  then throw (TypeError (str "Request path contains unescaped characters"))
  else
    match invalid_header (headers options) with
    | Some name =>
        throw (TypeError (str "Invalid character in header content ["
                          ++ [34%N] ++ name ++ [34%N; 93%N]))
    | None => ret tt
    end.

(** What the promise resolves with. *)
Record UploadResult : Type := {
  success : bool;
  statusCode : Z;
  data : JsString;
  result_fileName : JsString
}.

(** [responseData += chunk] for every chunk: each buffer is decoded on
    its own. *)
Definition collect (chunks : list Bytes) : JsString :=
  fold_left (fun responseData chunk => responseData ++ Utf8.decode chunk)
            chunks [].

(** The ['end'] and ['error'] handlers (lines 140-160): the only places
    that settle the promise once the request is made. Without an
    ['end'] and without an ['error'] the promise stays pending. *)
Definition handleOutcome (processedFileName : JsString)
    (outcome : NetworkOutcome) : Async UploadResult :=
  (match outcome with
   | Response statusCode chunks =>
       let responseData := collect chunks in
       sync (core_info (str "Response status: " ++ Z_toString statusCode)) ;;
       sync (core_info (str "Response data: " ++ responseData)) ;;
       if (200 <=? statusCode)%Z && (statusCode <? 300)%Z
       then resolve {| success := true;
                       statusCode := statusCode;
                       data := responseData;
                       result_fileName := processedFileName |}
       else reject (UploadStatus statusCode responseData)
   | NetworkError error_message =>
       sync (core_error (str "Request error: " ++ error_message)) ;;
       reject (RequestFailed error_message)
   | Unsettled => ([], Pending)
   end)%async.

(** uploadToBrainfish (lines 93-165). An exception inside the promise
    executor rejects the promise. *)
Definition uploadToBrainfish (fileData : ProcessedFile)
    (apiToken catalogId baseUrl : JsString) : Async UploadResult :=
  (let processedContent := processedContent fileData in
   let processedFileName := processedFileName fileData in
   sync (core_info (str "Uploading " ++ processedFileName
                    ++ str " to Brainfish catalog: " ++ catalogId)) ;;
   fileBuffer <- sync (Buffer_from processedContent) ;;
   let form := uploadForm fileBuffer processedFileName in
   url <- sync (new_URL baseUrl) ;;
   encodedCatalogId <- sync (global_encodeURIComponent catalogId) ;;
   let requestOptions := requestOptions url encodedCatalogId apiToken in
   sync (core_info (str "Making request to: " ++ baseUrl
                    ++ path requestOptions)) ;;
   let request := {| options := requestOptions; body := form |} in
   sync (new_ClientRequest requestOptions) ;;
   sync (emit (HttpsRequest request)) ;;
   handleOutcome processedFileName (https_request w request))%async.

Definition default_baseUrl : JsString := str "https://app.brainfi.sh".

(** U+2705 and U+274C, the marks in the messages of main. *)
Definition check_mark : JsString := [9989%N].
Definition cross_mark : JsString := [10060%N].

Definition require_input (name value : JsString) : Eff unit :=
  if truthy value then ret tt else throw (MissingInput name).

(** Step 4 of main: set the outputs (lines 204-207). *)
Definition main_report (catalogId : JsString) (uploadResult : UploadResult)
  : Eff unit :=
  core_setOutput (str "status")
    (check_mark ++ str " OAS file successfully synced to Brainfish!") ;;
  core_setOutput (str "uploaded_file") (result_fileName uploadResult) ;;
  core_info (check_mark ++ str " Success! Uploaded "
             ++ result_fileName uploadResult
             ++ str " to Brainfish catalog " ++ catalogId).

(** Steps 1 to 4 of main: read, process, upload, report
    (lines 194-207). *)
Definition main_steps (apiToken catalogId oasFilePath baseUrl : JsString)
  : Async unit :=
  (fileData <- sync (readOASFile oasFilePath) ;;
   processedFileData <- sync (processOASFile fileData) ;;
   uploadResult <- uploadToBrainfish processedFileData apiToken catalogId
                     baseUrl ;;
   sync (main_report catalogId uploadResult))%async.

(** [core.getInput('base_url') || 'https://app.brainfi.sh']. *)
Definition input_baseUrl : JsString :=
  if truthy (getInput w (str "base_url")) then getInput w (str "base_url")
  else default_baseUrl.

(** The [try] block of main (lines 172-207). *)
Definition main_try : Async unit :=
  (let apiToken := getInput w (str "brainfish_api_token") in
   let catalogId := getInput w (str "catalog_id") in
   let oasFilePath := getInput w (str "oas_file_path") in
   let baseUrl := input_baseUrl in
   sync (require_input (str "brainfish_api_token") apiToken) ;;
   sync (require_input (str "catalog_id") catalogId) ;;
   sync (require_input (str "oas_file_path") oasFilePath) ;;
   sync (core_info (str "Starting Brainfish OAS sync process")) ;;
   sync (core_info (str "Base URL: " ++ baseUrl)) ;;
   sync (core_info (str "Catalog ID: " ++ catalogId)) ;;
   sync (core_info (str "OAS file path: " ++ oasFilePath)) ;;
   main_steps apiToken catalogId oasFilePath baseUrl)%async.

(** main (lines 170-213): the events of one run. A run whose upload
    stays pending never leaves the [try] block: it reaches neither the
    outputs nor the [catch]. *)
Definition main : list Event :=
  match main_try with
  | (t, Settled (Ok _)) => t
  | (t, Settled (Err error)) =>
      t ++ [ErrorLog (cross_mark ++ str " Error: " ++ message error);
            SetFailed (message error)]
  | (t, Pending) => t
  end.

(** *** Observations on a run *)

(** The three required inputs are set. *)
Definition inputs_given : bool :=
  truthy (getInput w (str "brainfish_api_token"))
  && truthy (getInput w (str "catalog_id"))
  && truthy (getInput w (str "oas_file_path")).

(** The run of steps 1 to 4 on the inputs of the step. *)
Definition main_run : Async unit :=
  main_steps (getInput w (str "brainfish_api_token"))
             (getInput w (str "catalog_id"))
             (getInput w (str "oas_file_path"))
             input_baseUrl.

Definition requests (t : list Event) : list Request :=
  flat_map (fun ev => match ev with HttpsRequest r => [r] | _ => [] end) t.

Definition outputs (t : list Event) : list (JsString * JsString) :=
  flat_map (fun ev => match ev with SetOutput n v => [(n, v)] | _ => [] end) t.

Definition failures (t : list Event) : list JsString :=
  flat_map (fun ev => match ev with SetFailed m => [m] | _ => [] end) t.

Definition error_logs (t : list Event) : list JsString :=
  flat_map (fun ev => match ev with ErrorLog m => [m] | _ => [] end) t.

End Action.

(* ================================================================= *)
(** ** An engine for documents with integer numbers *)

(** The numbers of [IntegerEngine]: the integers, -0, NaN and the two
    infinities. Enough to run the action on documents whose numbers are
    integers; a literal with a fraction or an exponent is read up to its
    integer part. *)
Inductive IntegerNumber : Type :=
| NaN
| Infinity (negative : bool)
| NegativeZero
| Int (z : Z).

Definition digit_of (c : codeunit) (u : Decimal.uint) : Decimal.uint :=
  (if c =? 48 then Decimal.D0 u
   else if c =? 49 then Decimal.D1 u
   else if c =? 50 then Decimal.D2 u
   else if c =? 51 then Decimal.D3 u
   else if c =? 52 then Decimal.D4 u
   else if c =? 53 then Decimal.D5 u
   else if c =? 54 then Decimal.D6 u
   else if c =? 55 then Decimal.D7 u
   else if c =? 56 then Decimal.D8 u
   else Decimal.D9 u)%N.

Fixpoint digits_uint (s : JsString) : Decimal.uint :=
  match s with
  | c :: r =>
      if ((48 <=? c) && (c <=? 57))%N then digit_of c (digits_uint r)
      else Decimal.Nil
  | [] => Decimal.Nil
  end.

Definition integer_toString (n : IntegerNumber) : JsString :=
  match n with
  | NaN => str "NaN"
  | Infinity false => str "Infinity"
  | Infinity true => str "-Infinity"
  | NegativeZero => str "0"
  | Int z => Z_toString z
  end.

Definition integer_ofString (tok : JsString) : IntegerNumber :=
  match tok with
  | c :: ds =>
      if (c =? 45)%N then
        match N.of_uint (digits_uint ds) with
        | N0 => NegativeZero
        | Npos p => Int (Zneg p)
        end
      else Int (Z.of_N (N.of_uint (digits_uint tok)))
  | [] => NaN
  end.

Definition integer_isFinite (n : IntegerNumber) : bool :=
  match n with
  | NaN | Infinity _ => false
  | NegativeZero | Int _ => true
  end.

Definition integer_sameValueZero (a b : IntegerNumber) : bool :=
  match a, b with
  | NaN, NaN => true
  | Infinity x, Infinity y => Bool.eqb x y
  | NegativeZero, NegativeZero => true
  | NegativeZero, Int z | Int z, NegativeZero => (z =? 0)%Z
  | Int x, Int y => (x =? y)%Z
  | _, _ => false
  end.

(** Lower case of the letters A to Z; other code units stay. *)
Definition ascii_toLowerCase (s : JsString) : JsString :=
  List.map (fun c => if ((65 <=? c) && (c <=? 90))%N then (c + 32)%N else c) s.

#[export] Instance IntegerEngine : Engine := {|
  number := IntegerNumber;
  isFinite := integer_isFinite;
  sameValueZero := integer_sameValueZero;
  Number_toString := integer_toString;
  StringToNumber := integer_ofString;
  toLowerCase := ascii_toLowerCase;
  SyntaxError_message := fun _ => str "Unexpected token in JSON"
|}.

(* ================================================================= *)
(** ** A repository to run the action on *)

Module Example.

(** The documents of the repository, with what js-yaml loads them to. *)
Definition yaml_openapi : JsString :=
  str "openapi: 3.0.0" ++ [10%N] ++ str "x-rate-limit: 60" ++ [10%N].

Definition value_openapi : JsValue :=
  VObject [ (str "openapi", VString (str "3.0.0"));
            (str "x-rate-limit", VNumber (Int 60)) ].

Definition yaml_nan : JsString := str "x-ratio: .nan" ++ [10%N].

Definition value_nan : JsValue := VObject [ (str "x-ratio", VNumber NaN) ].

Definition yaml_comment : JsString := str "# nothing yet" ++ [10%N].

Definition yaml_broken : JsString := str "paths: [".

(** The reason js-yaml gives for [yaml_broken]; the position and the
    snippet that follow it in the message are left out. *)
Definition yaml_broken_message : JsString :=
  str "unexpected end of the stream within a flow collection".

Definition json_openapi : JsString :=
  [123; 34]%N ++ str "openapi" ++ [34; 58; 32; 34]%N ++ str "3.0.0"
    ++ [34; 125; 10]%N.

Definition json_broken : JsString :=
  [123; 34]%N ++ str "openapi" ++ [34; 58; 32; 34]%N ++ str "3.0.0"
    ++ [34; 44; 125]%N.

(** js-yaml on these documents: an empty text has no document and loads
    to [undefined], a text of comments only is one document, [null]. Any
    other text is outside the example. *)
Definition js_yaml (text : JsString) : YamlOutcome :=
  if JsString_eqb text yaml_openapi then Loaded value_openapi
  else if JsString_eqb text yaml_nan then Loaded value_nan
  else if JsString_eqb text [] then Loaded VUndefined
  else if JsString_eqb text yaml_comment then Loaded VNull
  else YAMLException yaml_broken_message.

(** The files; their names are ASCII, so is their content. *)
Definition files : list (JsString * FsEntry) :=
  [ (str "docs/openapi.yaml", RegularFile yaml_openapi);
    (str "docs/API.YAML", RegularFile yaml_openapi);
    (str "docs/ratio.yml", RegularFile yaml_nan);
    (str "docs/empty.yaml", RegularFile []);
    (str "docs/comment.yaml", RegularFile yaml_comment);
    (str "docs/broken.yaml", RegularFile yaml_broken);
    (str "docs/openapi.json", RegularFile json_openapi);
    (str "docs/broken.json", RegularFile json_broken);
    (str "docs/notes.txt", RegularFile (str "see openapi.yaml"));
    (str "docs", Directory 4096) ].

Fixpoint lookup {A : Type} (k : JsString) (l : list (JsString * A))
  : option A :=
  match l with
  | [] => None
  | (k', a) :: rest => if JsString_eqb k k' then Some a else lookup k rest
  end.

Definition urls : list (JsString * URL) :=
  [ (str "https://app.brainfi.sh",
     {| url_protocol := str "https:";
        url_hostname := str "app.brainfi.sh";
        url_port := [] |});
    (str "https://app.dev.brainfish.app",
     {| url_protocol := str "https:";
        url_hostname := str "app.dev.brainfish.app";
        url_port := [] |});
    (str "http://localhost:8080",
     {| url_protocol := str "http:";
        url_hostname := str "localhost";
        url_port := str "8080" |}) ].

(** One run: the inputs of the step, and what the server will answer. *)
Definition world (apiToken catalogId oasFilePath baseUrl : JsString)
    (answer : NetworkOutcome) : World :=
  {| getInput := fun name =>
       if JsString_eqb name (str "brainfish_api_token") then apiToken
       else if JsString_eqb name (str "catalog_id") then catalogId
       else if JsString_eqb name (str "oas_file_path") then oasFilePath
       else if JsString_eqb name (str "base_url") then baseUrl
       else [];
     fs := fun p => lookup p files;
     yaml_load := js_yaml;
     URL_parse := fun input => lookup input urls;
     boundary := str "--------------------------735323031399963166993862";
     https_request := fun _ => answer |}.

Definition created : NetworkOutcome :=
  Response 201 [ [123; 34]%N ++ str "ok" ++ [34; 58]%N ++ str "true}" ].

Definition server_error : NetworkOutcome :=
  Response 500 [ str "server "; str "error" ].

Definition run (oasFilePath : JsString) (answer : NetworkOutcome) : World :=
  world (str "bf_token") (str "8a2abadd-1140") oasFilePath [] answer.

(** The file data readOASFile returns for a file of the repository. *)
Definition file_data (oasFilePath : JsString) : FileData :=
  match snd (readOASFile (run oasFilePath created) oasFilePath) with
  | Ok fileData => fileData
  | Err _ => {| content := []; extension := []; fileName := []; size := 0 |}
  end.

(** What processOASFile returns for it. *)
Definition processed (oasFilePath : JsString) : ProcessedFile :=
  match snd (processOASFile (run oasFilePath created)
                            (file_data oasFilePath)) with
  | Ok processedFileData => processedFileData
  | Err _ => {| fileData := file_data oasFilePath;
                processedContent := None;
                processedFileName := [] |}
  end.

End Example.

(* ================================================================= *)
(** ** More to say about a run *)

Section Observations.
Context {E : Engine}.
Local Open Scope N_scope.

(** What the runner shows of a run: the log, the outputs and the failure
    signal, that is every event but the request itself. *)
Definition visible (t : list Event) : list Event :=
  List.filter (fun ev => match ev with
                         | HttpsRequest _ => false
                         | _ => true
                         end) t.

(** Every element is a code unit: below 2^16. *)
Definition code_units (s : JsString) : bool :=
  forallb (fun c => c <? 65536) s.

(** Two computations a reader of the log cannot tell apart: the same
    visible events and the same result. *)
Definition same_view {R : Type} (m m' : list Event * R) : Prop :=
  visible (fst m) = visible (fst m') /\ snd m = snd m'.

(** No [/] in a name. *)
Definition no_slash (s : JsString) : bool :=
  forallb (fun c => negb (c =? 47)) s.

(** The characters [encodeURIComponent] writes: the unreserved ones and
    the percent sign of an escape. *)
Definition url_safe (c : codeunit) : bool := uri_unreserved c || (c =? 37).

(** The tree [JSON.stringify] writes for a value: NaN and the infinities
    become [null], [undefined] becomes [null] in an array and leaves an
    object together with its key; [undefined] itself has no text. *)
Fixpoint json_image (v : JsValue) : option JsValue :=
  match v with
  | VUndefined => None
  | VNumber n => if isFinite n then Some (VNumber n) else Some VNull
  | VArray items =>
      Some (VArray (List.map (fun x => match json_image x with
                                       | Some y => y
                                       | None => VNull
                                       end) items))
  | VObject props =>
      Some (VObject (List.flat_map
                       (fun p => match json_image (snd p) with
                                 | Some y => [(fst p, y)]
                                 | None => []
                                 end) props))
  | _ => Some v
  end.

(** Two worlds that differ in the API token and in nothing else a run
    can see: the other inputs, the files, js-yaml and [URL] agree, the
    token is set in both or in neither, [https.request] takes the
    token and the boundary of the form for header values in both or in
    neither, and the answer to a request does not depend on its
    headers. *)
Definition same_but_token (w w' : World) : Prop :=
  (forall name, name <> str "brainfish_api_token" ->
                getInput w name = getInput w' name)
  /\ truthy (getInput w (str "brainfish_api_token"))
     = truthy (getInput w' (str "brainfish_api_token"))
  /\ checkInvalidHeaderChar (getInput w (str "brainfish_api_token"))
     = checkInvalidHeaderChar (getInput w' (str "brainfish_api_token"))
  /\ checkInvalidHeaderChar (boundary w)
     = checkInvalidHeaderChar (boundary w')
  /\ (forall p, fs w p = fs w' p)
  /\ (forall text, yaml_load w text = yaml_load w' text)
  /\ (forall input, URL_parse w input = URL_parse w' input)
  /\ (forall r r',
        method (options r) = method (options r') ->
        hostname (options r) = hostname (options r') ->
        port (options r) = port (options r') ->
        path (options r) = path (options r') ->
        body r = body r' ->
        https_request w r = https_request w' r').

End Observations.


(** A world with one more file, or with another file at a path. *)
Definition with_file (w : World) (filePath : JsString) (entry : FsEntry)
  : World :=
  {| getInput := getInput w;
     fs := fun p => if JsString_eqb p filePath then Some entry else fs w p;
     yaml_load := yaml_load w;
     URL_parse := URL_parse w;
     boundary := boundary w;
     https_request := https_request w |}.
(* ================================================================= *)
(** * Properties *)

Arguments str _ : simpl never.
Unset Implicit Arguments.

(** ** Strings *)

Lemma JsString_eqb_eq (a b : JsString) : JsString_eqb a b = true <-> a = b.
Proof.
  revert b; induction a as [|x a IH]; intros [|y b]; simpl;
    try (split; [discriminate | discriminate]); try tauto.
  rewrite andb_true_iff, N.eqb_eq, IH. split.
  - intros [-> ->]; reflexivity.
  - intros H; inversion H; auto.
Qed.

Lemma JsString_eqb_refl (a : JsString) : JsString_eqb a a = true.
Proof. apply JsString_eqb_eq; reflexivity. Qed.

Lemma JsString_eqb_neq (a b : JsString) : JsString_eqb a b = false <-> a <> b.
Proof.
  rewrite <- JsString_eqb_eq. destruct (JsString_eqb a b); split; congruence.
Qed.

Lemma strip_prefix_app (p s : JsString) : strip_prefix p (p ++ s) = Some s.
Proof.
  induction p as [|x p IH]; simpl; [reflexivity|].
  rewrite N.eqb_refl; exact IH.
Qed.

Lemma strip_prefix_spec (p s r : JsString) :
  strip_prefix p s = Some r -> s = p ++ r.
Proof.
  revert s; induction p as [|x p IH]; intros s; simpl.
  - intros H; inversion H; reflexivity.
  - destruct s as [|y s]; [discriminate|].
    destruct (N.eqb_spec x y) as [->|]; [|discriminate].
    intros H; rewrite (IH _ H); reflexivity.
Qed.

Lemma strip_suffix_app (p s : JsString) : strip_suffix p (s ++ p) = Some s.
Proof.
  unfold strip_suffix. rewrite rev_app_distr, strip_prefix_app, rev_involutive.
  reflexivity.
Qed.

Lemma strip_suffix_spec (p s r : JsString) :
  strip_suffix p s = Some r -> s = r ++ p.
Proof.
  unfold strip_suffix.
  destruct (strip_prefix (rev p) (rev s)) as [x|] eqn:H; [|discriminate].
  intros Hr; inversion Hr; subst r.
  apply strip_prefix_spec in H.
  rewrite <- (rev_involutive s), H, rev_app_distr, rev_involutive.
  reflexivity.
Qed.

(** ** UTF-8 *)

Section Utf8Facts.
Local Open Scope N_scope.

Ltac n_arith := zify; Z.to_euclidean_division_equations; lia.

Ltac bounds :=
  repeat match goal with
  | H : _ && _ = true |- _ => apply andb_true_iff in H; destruct H
  | H : (_ <=? _) = true |- _ => apply N.leb_le in H
  | H : (_ <=? _) = false |- _ => apply N.leb_gt in H
  | H : (_ <? _) = true |- _ => apply N.ltb_lt in H
  | H : (_ <? _) = false |- _ => apply N.ltb_ge in H
  | H : (_ =? _) = true |- _ => apply N.eqb_eq in H
  | H : (_ =? _) = false |- _ => apply N.eqb_neq in H
  end.

Lemma second_ok_cont (b0 b1 : N) :
  Utf8.second_ok b0 b1 = true -> 128 <= b1 <= 191.
Proof.
  unfold Utf8.second_ok, Utf8.is_cont.
  destruct (b0 =? 224); [intros; bounds; lia|].
  destruct (b0 =? 237); [intros; bounds; lia|].
  destruct (b0 =? 240); [intros; bounds; lia|].
  destruct (b0 =? 244); intros; bounds; lia.
Qed.

Lemma second_ok_range (b0 b1 : N) :
  Utf8.second_ok b0 b1 = true ->
  (b0 = 224 -> 160 <= b1) /\ (b0 = 237 -> b1 <= 159)
  /\ (b0 = 240 -> 144 <= b1) /\ (b0 = 244 -> b1 <= 143).
Proof.
  unfold Utf8.second_ok, Utf8.is_cont.
  destruct (b0 =? 224) eqn:H1; [intros; bounds; lia|].
  destruct (b0 =? 237) eqn:H2; [intros; bounds; lia|].
  destruct (b0 =? 240) eqn:H3; [intros; bounds; lia|].
  destruct (b0 =? 244) eqn:H4; intros; bounds; lia.
Qed.

Lemma encode_scalar (c : codeunit) (s : JsString) :
  c < 55296 \/ 57343 < c ->
  Utf8.encode (c :: s) = Utf8.of_code_point c ++ Utf8.encode s.
Proof.
  intros H. cbn [Utf8.encode]. unfold is_high_surrogate, is_low_surrogate.
  destruct ((55296 <=? c) && (c <=? 56319)) eqn:Hh; [bounds; lia|].
  destruct ((56320 <=? c) && (c <=? 57343)) eqn:Hl; [bounds; lia|].
  reflexivity.
Qed.

Lemma encode_pair (hi lo : codeunit) (s : JsString) :
  55296 <= hi <= 56319 -> 56320 <= lo <= 57343 ->
  Utf8.encode (hi :: lo :: s)
  = Utf8.of_code_point (pair_code_point hi lo) ++ Utf8.encode s.
Proof.
  intros Hh Hl. cbn [Utf8.encode]. unfold is_high_surrogate, is_low_surrogate.
  replace ((55296 <=? hi) && (hi <=? 56319)) with true
    by (symmetry; apply andb_true_iff; split; apply N.leb_le; lia).
  replace ((56320 <=? lo) && (lo <=? 57343)) with true
    by (symmetry; apply andb_true_iff; split; apply N.leb_le; lia).
  reflexivity.
Qed.

Lemma of_code_point_1 (b0 : N) : b0 < 128 -> Utf8.of_code_point b0 = [b0].
Proof.
  intros H. unfold Utf8.of_code_point.
  destruct (N.ltb_spec b0 128); [reflexivity | lia].
Qed.

Lemma of_code_point_2 (b0 b1 : N) :
  194 <= b0 <= 223 -> 128 <= b1 <= 191 ->
  Utf8.of_code_point ((b0 - 192) * 64 + (b1 - 128)) = [b0; b1].
Proof.
  intros H0 H1. unfold Utf8.of_code_point.
  set (cp := (b0 - 192) * 64 + (b1 - 128)).
  destruct (N.ltb_spec cp 128); [subst cp; lia|].
  destruct (N.ltb_spec cp 2048); [|subst cp; lia].
  f_equal; [|f_equal]; subst cp; n_arith.
Qed.

Lemma of_code_point_3 (b0 b1 b2 : N) :
  224 <= b0 <= 239 -> 128 <= b1 <= 191 -> 128 <= b2 <= 191 ->
  (b0 = 224 -> 160 <= b1) ->
  Utf8.of_code_point ((b0 - 224) * 4096 + (b1 - 128) * 64 + (b2 - 128))
  = [b0; b1; b2].
Proof.
  intros H0 H1 H2 Hlow. unfold Utf8.of_code_point.
  set (cp := (b0 - 224) * 4096 + (b1 - 128) * 64 + (b2 - 128)).
  assert (2048 <= cp < 65536) by (subst cp; lia).
  destruct (N.ltb_spec cp 128); [lia|].
  destruct (N.ltb_spec cp 2048); [lia|].
  destruct (N.ltb_spec cp 65536); [|lia].
  f_equal; [|f_equal; [|f_equal]]; subst cp; n_arith.
Qed.

Lemma of_code_point_4 (b0 b1 b2 b3 : N) :
  240 <= b0 <= 244 -> 128 <= b1 <= 191 -> 128 <= b2 <= 191 ->
  128 <= b3 <= 191 -> (b0 = 240 -> 144 <= b1) ->
  Utf8.of_code_point
    ((b0 - 240) * 262144 + (b1 - 128) * 4096 + (b2 - 128) * 64 + (b3 - 128))
  = [b0; b1; b2; b3].
Proof.
  intros H0 H1 H2 H3 Hlow. unfold Utf8.of_code_point.
  set (cp := (b0 - 240) * 262144 + (b1 - 128) * 4096 + (b2 - 128) * 64
             + (b3 - 128)).
  assert (65536 <= cp) by (subst cp; lia).
  destruct (N.ltb_spec cp 128); [lia|].
  destruct (N.ltb_spec cp 2048); [lia|].
  destruct (N.ltb_spec cp 65536); [lia|].
  f_equal; [|f_equal; [|f_equal; [|f_equal]]]; subst cp; n_arith.
Qed.

Lemma to_code_units_pair (cp : N) :
  65536 <= cp < 1114112 ->
  exists hi lo,
    Utf8.to_code_units cp = [hi; lo]
    /\ 55296 <= hi <= 56319 /\ 56320 <= lo <= 57343
    /\ pair_code_point hi lo = cp.
Proof.
  intros H. unfold Utf8.to_code_units.
  destruct (N.ltb_spec cp 65536); [lia|].
  eexists _, _. split; [reflexivity|].
  unfold pair_code_point. repeat split; n_arith.
Qed.

(** Encoding what was decoded from well-formed UTF-8 gives the octets
    back. *)
Lemma utf8_roundtrip_bounded (n : nat) (bs : Bytes) :
  (List.length bs <= n)%nat ->
  Utf8.well_formed bs = true ->
  Utf8.encode (Utf8.decode bs) = bs.
Proof.
  revert bs. induction n as [|n IH]; intros bs Hlen Hwf.
  - destruct bs; [reflexivity | simpl in Hlen; lia].
  - destruct bs as [|b0 r0]; [reflexivity|].
    cbn [Utf8.decode Utf8.well_formed] in *.
    destruct (b0 <? 128) eqn:H1.
    { bounds. rewrite encode_scalar by lia.
      rewrite of_code_point_1 by lia.
      rewrite IH; [reflexivity | simpl in Hlen; lia | exact Hwf]. }
    destruct ((194 <=? b0) && (b0 <=? 223)) eqn:H2.
    { destruct r0 as [|b1 r1]; [discriminate|].
      apply andb_true_iff in Hwf; destruct Hwf as [Hc1 Hwf].
      rewrite Hc1. unfold Utf8.is_cont in Hc1. bounds.
      rewrite encode_scalar by lia.
      rewrite of_code_point_2 by lia.
      rewrite IH; [reflexivity | simpl in Hlen; lia | exact Hwf]. }
    destruct ((224 <=? b0) && (b0 <=? 239)) eqn:H3.
    { destruct r0 as [|b1 [|b2 r2]]; try discriminate.
      apply andb_true_iff in Hwf; destruct Hwf as [Hwf' Hwf].
      apply andb_true_iff in Hwf'; destruct Hwf' as [Hc1 Hc2].
      rewrite Hc1, Hc2.
      pose proof (second_ok_cont _ _ Hc1) as Hb1.
      pose proof (second_ok_range _ _ Hc1) as (Hr1 & Hr2 & _ & _).
      unfold Utf8.is_cont in Hc2. bounds.
      rewrite encode_scalar.
      - rewrite of_code_point_3 by (auto; lia).
        rewrite IH; [reflexivity | simpl in Hlen; lia | exact Hwf].
      - destruct (N.eq_dec b0 237) as [->|Hne];
          [specialize (Hr2 eq_refl); lia|].
        destruct (N.lt_ge_cases b0 237); [left; lia | right; lia]. }
    destruct ((240 <=? b0) && (b0 <=? 244)) eqn:H4; [|discriminate].
    destruct r0 as [|b1 [|b2 [|b3 r3]]]; try discriminate.
    apply andb_true_iff in Hwf; destruct Hwf as [Hwf' Hwf].
    apply andb_true_iff in Hwf'; destruct Hwf' as [Hwf' Hc3].
    apply andb_true_iff in Hwf'; destruct Hwf' as [Hc1 Hc2].
    rewrite Hc1, Hc2, Hc3.
    pose proof (second_ok_cont _ _ Hc1) as Hb1.
    pose proof (second_ok_range _ _ Hc1) as (_ & _ & Hr3 & Hr4).
    unfold Utf8.is_cont in Hc2, Hc3. bounds.
    set (cp := (b0 - 240) * 262144 + (b1 - 128) * 4096 + (b2 - 128) * 64
               + (b3 - 128)).
    assert (Hcp : 65536 <= cp < 1114112).
    { subst cp. split.
      - destruct (N.eq_dec b0 240) as [->|]; [specialize (Hr3 eq_refl)|]; lia.
      - destruct (N.eq_dec b0 244) as [->|]; [specialize (Hr4 eq_refl)|]; lia. }
    destruct (to_code_units_pair cp Hcp) as (hi & lo & -> & Hhi & Hlo & Hpair).
    cbn [app]. rewrite encode_pair by assumption. rewrite Hpair.
    subst cp. rewrite of_code_point_4 by (auto; lia).
    rewrite IH; [reflexivity | simpl in Hlen; lia | exact Hwf].
Qed.

Theorem utf8_roundtrip (bs : Bytes) :
  Utf8.well_formed bs = true -> Utf8.encode (Utf8.decode bs) = bs.
Proof. apply (utf8_roundtrip_bounded (List.length bs)). apply Nat.le_refl. Qed.

End Utf8Facts.

(** ** The path module *)

Section PathFacts.
Local Open Scope Z_scope.

Lemma firstn_add {A : Type} (n m : nat) (l : list A) :
  firstn (n + m) l = firstn n l ++ firstn m (skipn n l).
Proof.
  revert l. induction n as [|n IH]; intros l; [reflexivity|].
  destruct l as [|x l]; cbn [Nat.add firstn skipn app].
  - rewrite firstn_nil. reflexivity.
  - rewrite IH. reflexivity.
Qed.

Lemma skipn_add {A : Type} (n m : nat) (l : list A) :
  skipn (n + m) l = skipn m (skipn n l).
Proof.
  revert l. induction n as [|n IH]; intros l; [reflexivity|].
  destruct l as [|x l]; cbn [Nat.add skipn].
  - rewrite skipn_nil. reflexivity.
  - apply IH.
Qed.

Lemma slice_split (s : JsString) (a b c : Z) :
  0 <= a <= b -> b <= c ->
  Path.slice s a c = Path.slice s a b ++ Path.slice s b c.
Proof.
  intros Hab Hbc. unfold Path.slice.
  replace (Z.to_nat (c - a)) with (Z.to_nat (b - a) + Z.to_nat (c - b))%nat
    by lia.
  rewrite firstn_add. f_equal. f_equal.
  replace (Z.to_nat b) with (Z.to_nat a + Z.to_nat (b - a))%nat by lia.
  rewrite skipn_add. reflexivity.
Qed.

(** The two loops walk in step: extname finds the same part of the path
    as basename, and its dot inside that part. *)
Lemma extname_loop_basename_loop (chars : JsString) :
  forall (i startDot end_ : Z) (matchedSlash : bool) (preDotState : Z),
    i = Z.of_nat (List.length chars) - 1 ->
    end_ = -1 \/ i + 1 < end_ ->
    startDot = -1 \/ (i < startDot /\ startDot < end_) ->
    match Path.extname_loop chars i startDot end_ matchedSlash preDotState with
    | (startDot', startPart', end', _) =>
        Path.basename_loop chars i end_ matchedSlash = (startPart', end')
        /\ (startDot' = -1
            \/ (0 <= startPart' /\ startPart' <= startDot'
                /\ startDot' < end'))
    end.
Proof.
  induction chars as [|code rest IH];
    intros i startDot end_ matchedSlash preDotState Hi Hend Hdot.
  - cbn. cbn in Hi. split; [reflexivity | lia].
  - cbn [Path.extname_loop Path.basename_loop].
    cbn [List.length] in Hi.
    assert (Hi' : i - 1 = Z.of_nat (List.length rest) - 1) by lia.
    destruct (code =? 47)%N.
    + destruct matchedSlash; cbn [negb].
      * apply IH; [exact Hi' | lia | lia].
      * split; [reflexivity | lia].
    + destruct (Z.eqb_spec end_ (-1)) as [He | He].
      * destruct (code =? 46)%N.
        -- destruct (Z.eqb_spec startDot (-1)).
           ++ apply IH; [exact Hi' | lia | lia].
           ++ lia.
        -- destruct (Z.eqb_spec startDot (-1)); cbn [negb].
           ++ apply IH; [exact Hi' | lia | lia].
           ++ lia.
      * destruct (code =? 46)%N.
        -- destruct (Z.eqb_spec startDot (-1)).
           ++ apply IH; [exact Hi' | lia | lia].
           ++ destruct (negb (preDotState =? 1));
                (apply IH; [exact Hi' | lia | lia]).
        -- destruct (Z.eqb_spec startDot (-1)); cbn [negb];
             (apply IH; [exact Hi' | lia | lia]).
Qed.

(** [path.basename(p)] ends with [path.extname(p)]. *)
Lemma basename_ends_with_extname (p : JsString) :
  exists stem, Path.basename p = stem ++ Path.extname p.
Proof.
  unfold Path.basename, Path.extname.
  pose proof (extname_loop_basename_loop (rev p)
                (Z.of_nat (List.length p) - 1) (-1) (-1) true 0) as H.
  rewrite length_rev in H.
  specialize (H eq_refl (or_introl eq_refl) (or_introl eq_refl)).
  destruct (Path.extname_loop (rev p) (Z.of_nat (List.length p) - 1)
              (-1) (-1) true 0) as [[[startDot startPart] end_] preDotState].
  destruct H as [-> Hdot].
  destruct ((startDot =? -1) || (end_ =? -1) || (preDotState =? 0)
            || (preDotState =? 1) && (startDot =? end_ - 1)
               && (startDot =? startPart + 1)) eqn:Hnone.
  - eexists. rewrite app_nil_r. reflexivity.
  - apply orb_false_iff in Hnone. destruct Hnone as [Hnone _].
    apply orb_false_iff in Hnone. destruct Hnone as [Hnone _].
    apply orb_false_iff in Hnone. destruct Hnone as [Hsd He].
    rewrite He. apply Z.eqb_neq in Hsd.
    exists (Path.slice p startPart startDot).
    apply slice_split; lia.
Qed.

Lemma replace_yaml_extension_yaml (stem : JsString) :
  replace_yaml_extension (stem ++ str ".yaml") = stem ++ str ".json".
Proof.
  unfold replace_yaml_extension. rewrite strip_suffix_app. reflexivity.
Qed.

Lemma replace_yaml_extension_yml (stem : JsString) :
  replace_yaml_extension (stem ++ str ".yml") = stem ++ str ".json".
Proof.
  unfold replace_yaml_extension.
  assert (Hno : strip_suffix (str ".yaml") (stem ++ str ".yml") = None).
  { unfold strip_suffix. rewrite rev_app_distr. reflexivity. }
  rewrite Hno, strip_suffix_app. reflexivity.
Qed.

End PathFacts.

(* ================================================================= *)
(** * JSON.parse reads back what JSON.stringify wrote *)

(** ** JSON: strings *)

Section JsonStrings.
Local Open Scope N_scope.

Ltac n_arith := zify; Z.to_euclidean_division_equations; lia.

Lemma hex_value_lower (d : N) : d < 16 -> hex_value (hex_lower d) = Some d.
Proof.
  intros H. unfold hex_lower, hex_value.
  destruct (N.ltb_spec d 10).
  - replace ((48 <=? 48 + d) && (48 + d <=? 57)) with true
      by (symmetry; apply andb_true_iff; split; apply N.leb_le; lia).
    f_equal; lia.
  - replace ((48 <=? 87 + d) && (87 + d <=? 57)) with false
      by (symmetry; apply andb_false_iff; right; apply N.leb_gt; lia).
    replace ((97 <=? 87 + d) && (87 + d <=? 102)) with true
      by (symmetry; apply andb_true_iff; split; apply N.leb_le; lia).
    f_equal; lia.
Qed.

Lemma hex4_unicode_escape (c : codeunit) (rest : JsString) :
  c < 65536 ->
  exists h1 h2 h3 h4,
    unicode_escape c = [92; 117; h1; h2; h3; h4]
    /\ hex4 h1 h2 h3 h4 = Some c.
Proof.
  intros H. unfold unicode_escape. eexists _, _, _, _. split; [reflexivity|].
  unfold hex4.
  rewrite !hex_value_lower by n_arith.
  f_equal. n_arith.
Qed.


Lemma parse_string_literal_char (c : codeunit) (l : JsString) :
  c <> 34 -> c <> 92 -> 32 <= c ->
  parse_string_chars (c :: l) = consume c (parse_string_chars l).
Proof.
  intros H1 H2 H3. cbn [parse_string_chars].
  destruct (N.eqb_spec c 34); [contradiction|].
  destruct (N.eqb_spec c 92); [contradiction|].
  destruct (N.ltb_spec c 32); [lia|]. reflexivity.
Qed.

Lemma parse_string_unicode_escape (c : codeunit) (l : JsString) :
  c < 65536 ->
  parse_string_chars (unicode_escape c ++ l)
  = consume c (parse_string_chars l).
Proof.
  intros H.
  destruct (hex4_unicode_escape c l H) as (h1 & h2 & h3 & h4 & -> & Hh).
  cbn. rewrite Hh. reflexivity.
Qed.

Lemma parse_string_quote_char (c : codeunit) (l : JsString) :
  c < 55296 \/ 57343 < c ->
  parse_string_chars (quote_char c ++ l) = consume c (parse_string_chars l).
Proof.
  intros Hc. unfold quote_char.
  destruct (N.eqb_spec c 8) as [->|]; [reflexivity|].
  destruct (N.eqb_spec c 9) as [->|]; [reflexivity|].
  destruct (N.eqb_spec c 10) as [->|]; [reflexivity|].
  destruct (N.eqb_spec c 12) as [->|]; [reflexivity|].
  destruct (N.eqb_spec c 13) as [->|]; [reflexivity|].
  destruct (N.eqb_spec c 34) as [->|]; [reflexivity|].
  destruct (N.eqb_spec c 92) as [->|]; [reflexivity|].
  destruct (N.ltb_spec c 32).
  - apply parse_string_unicode_escape. lia.
  - apply parse_string_literal_char; assumption.
Qed.

(** Reading a quoted string gives the string back. *)
Lemma parse_quote_chars_bounded (n : nat) (s rest : JsString) :
  (List.length s <= n)%nat ->
  parse_string_chars (quote_chars s ++ 34 :: rest) = Some (s, rest).
Proof.
  revert s. induction n as [|n IH]; intros s Hlen.
  - destruct s; [reflexivity | simpl in Hlen; lia].
  - destruct s as [|c s]; [reflexivity|].
    cbn [quote_chars]. simpl in Hlen.
    unfold is_high_surrogate, is_low_surrogate.
    destruct ((55296 <=? c) && (c <=? 56319)) eqn:Hh.
    + apply andb_true_iff in Hh. destruct Hh as [Hh1 Hh2].
      apply N.leb_le in Hh1, Hh2.
      destruct s as [|d s].
      * rewrite parse_string_unicode_escape by lia. reflexivity.
      * destruct ((56320 <=? d) && (d <=? 57343)) eqn:Hl.
        -- apply andb_true_iff in Hl. destruct Hl as [Hl1 Hl2].
           apply N.leb_le in Hl1, Hl2.
           cbn [app].
           rewrite parse_string_literal_char by lia.
           rewrite parse_string_literal_char by lia.
           rewrite IH by (simpl in *; lia). reflexivity.
        -- rewrite <- app_assoc.
           rewrite parse_string_unicode_escape by lia.
           rewrite IH by (simpl in *; lia). reflexivity.
    + destruct ((56320 <=? c) && (c <=? 57343)) eqn:Hl.
      * apply andb_true_iff in Hl. destruct Hl as [Hl1 Hl2].
        apply N.leb_le in Hl1, Hl2.
        rewrite <- app_assoc.
        rewrite parse_string_unicode_escape by lia.
        rewrite IH by lia. reflexivity.
      * rewrite <- app_assoc. rewrite parse_string_quote_char.
        -- rewrite IH by lia. reflexivity.
        -- apply andb_false_iff in Hh, Hl.
           destruct Hh as [Hh|Hh]; [apply N.leb_gt in Hh; lia|].
           destruct Hl as [Hl|Hl]; [|apply N.leb_gt in Hl; lia].
           apply N.leb_gt in Hh, Hl. lia.
Qed.

Lemma parse_QuoteJSONString (s rest : JsString) :
  exists body,
    QuoteJSONString s ++ rest = 34 :: body
    /\ parse_string_chars body = Some (s, rest).
Proof.
  exists (quote_chars s ++ 34 :: rest). split.
  - unfold QuoteJSONString. cbn [app]. rewrite <- app_assoc. reflexivity.
  - apply (parse_quote_chars_bounded (List.length s)). apply Nat.le_refl.
Qed.

End JsonStrings.

(** ** JSON: numbers *)

Section JsonNumbers.
Context {E : Engine}.
Local Open Scope N_scope.

Lemma ends_number_head (c : codeunit) (rest : JsString) :
  ends_number (c :: rest) = true ->
  is_digit c = false /\ (c =? 46) = false /\ (c =? 101) = false
  /\ (c =? 69) = false /\ (c =? 43) = false /\ (c =? 45) = false.
Proof.
  unfold ends_number. rewrite negb_true_iff, !orb_false_iff. tauto.
Qed.

Lemma span_digits_app (a rest : JsString) :
  ends_number rest = true ->
  span_digits (a ++ rest)
  = (fst (span_digits a), snd (span_digits a) ++ rest).
Proof.
  intros Hrest. induction a as [|c a IH]; cbn [app span_digits].
  - destruct rest as [|c rest]; [reflexivity|].
    destruct (ends_number_head c rest Hrest) as [Hd _].
    cbn [span_digits]. rewrite Hd. reflexivity.
  - destruct (is_digit c); [|reflexivity].
    rewrite IH. destruct (span_digits a); reflexivity.
Qed.

Lemma lex_minus_app (a rest : JsString) :
  ends_number rest = true ->
  lex_minus (a ++ rest) = (fst (lex_minus a), snd (lex_minus a) ++ rest).
Proof.
  intros Hrest. destruct a as [|c a]; cbn [app lex_minus].
  - destruct rest as [|c rest]; [reflexivity|].
    destruct (ends_number_head c rest Hrest) as (_ & _ & _ & _ & _ & H).
    cbn [lex_minus]. rewrite H. reflexivity.
  - destruct (c =? 45); reflexivity.
Qed.

Lemma lex_sign_app (a rest : JsString) :
  ends_number rest = true ->
  lex_sign (a ++ rest) = (fst (lex_sign a), snd (lex_sign a) ++ rest).
Proof.
  intros Hrest. destruct a as [|c a]; cbn [app lex_sign].
  - destruct rest as [|c rest]; [reflexivity|].
    destruct (ends_number_head c rest Hrest) as (_ & _ & _ & _ & H1 & H2).
    cbn [lex_sign]. rewrite H1, H2. reflexivity.
  - destruct ((c =? 43) || (c =? 45)); reflexivity.
Qed.

Lemma lex_int_app (a rest : JsString) :
  ends_number rest = true ->
  lex_int (a ++ rest)
  = match lex_int a with
    | Some (t, r) => Some (t, r ++ rest)
    | None => None
    end.
Proof.
  intros Hrest. destruct a as [|c a]; cbn [app lex_int].
  - destruct rest as [|c rest]; [reflexivity|].
    destruct (ends_number_head c rest Hrest) as (Hd & _).
    cbn [lex_int]. rewrite Hd.
    destruct (N.eqb_spec c 48) as [->|]; [discriminate | reflexivity].
  - destruct (c =? 48); [reflexivity|].
    destruct (is_digit c) eqn:Hd; [|reflexivity].
    change (c :: a ++ rest) with ((c :: a) ++ rest).
    rewrite span_digits_app by assumption.
    destruct (span_digits (c :: a)); reflexivity.
Qed.

Lemma lex_frac_app (a rest : JsString) :
  ends_number rest = true ->
  lex_frac (a ++ rest) = (fst (lex_frac a), snd (lex_frac a) ++ rest).
Proof.
  intros Hrest. destruct a as [|c a]; cbn [app lex_frac].
  - destruct rest as [|c rest]; [reflexivity|].
    destruct (ends_number_head c rest Hrest) as (_ & H & _).
    cbn [lex_frac]. rewrite H. reflexivity.
  - destruct (c =? 46); [|reflexivity].
    rewrite span_digits_app by assumption.
    destruct (span_digits a) as [[|d ds] r]; reflexivity.
Qed.

Lemma lex_exp_app (a rest : JsString) :
  ends_number rest = true ->
  lex_exp (a ++ rest) = (fst (lex_exp a), snd (lex_exp a) ++ rest).
Proof.
  intros Hrest. destruct a as [|c a]; cbn [app lex_exp].
  - destruct rest as [|c rest]; [reflexivity|].
    destruct (ends_number_head c rest Hrest) as (_ & _ & H1 & H2 & _).
    cbn [lex_exp]. rewrite H1, H2. reflexivity.
  - destruct ((c =? 101) || (c =? 69)); [|reflexivity].
    rewrite lex_sign_app by assumption.
    destruct (lex_sign a) as [sg r1]. cbn [fst snd].
    rewrite span_digits_app by assumption.
    destruct (span_digits r1) as [[|d ds] r2]; reflexivity.
Qed.

Lemma lex_number_app (a rest tok r : JsString) :
  ends_number rest = true ->
  lex_number a = Some (tok, r) ->
  lex_number (a ++ rest) = Some (tok, r ++ rest).
Proof.
  intros Hrest. unfold lex_number.
  rewrite lex_minus_app by assumption.
  destruct (lex_minus a) as [sg s1]. cbn [fst snd].
  rewrite lex_int_app by assumption.
  destruct (lex_int s1) as [[ip s2]|]; [|discriminate].
  rewrite lex_frac_app by assumption.
  destruct (lex_frac s2) as [fp s3]. cbn [fst snd].
  rewrite lex_exp_app by assumption.
  destruct (lex_exp s3) as [ep s4]. cbn [fst snd].
  intros H; inversion H; reflexivity.
Qed.

(** A number starts with a minus sign or a digit. *)
Lemma lex_number_first (s : JsString) (x : JsString * JsString) :
  lex_number s = Some x ->
  exists c l, s = c :: l /\ (c = 45 \/ is_digit c = true).
Proof.
  unfold lex_number. destruct s as [|c l].
  - discriminate.
  - intros H. exists c, l. split; [reflexivity|].
    cbn [lex_minus] in H. destruct (N.eqb_spec c 45); [auto|].
    cbn [lex_int] in H.
    destruct (N.eqb_spec c 48) as [->|]; [right; reflexivity|].
    destruct (is_digit c); [auto | discriminate].
Qed.

Lemma digit_bounds (c : codeunit) : is_digit c = true -> 48 <= c <= 57.
Proof.
  unfold is_digit. rewrite andb_true_iff, !N.leb_le. tauto.
Qed.

Lemma parse_value_number (fuel : nat) (tok rest : JsString) :
  lex_number tok = Some (tok, []) ->
  ends_number rest = true ->
  parse_value (S fuel) (tok ++ rest)
  = Some (VNumber (StringToNumber tok), rest).
Proof.
  intros Hlex Hrest.
  pose proof (lex_number_app tok rest tok [] Hrest Hlex) as Happ.
  destruct (lex_number_first _ _ Hlex) as (c & l & -> & Hc).
  cbn [app] in *. cbn [parse_value skip_ws].
  assert (Hrange : c = 45 \/ 48 <= c <= 57)
    by (destruct Hc as [->|Hd]; [auto | right; apply digit_bounds, Hd]).
  assert (Hws : is_ws c = false).
  { unfold is_ws. rewrite !orb_false_iff.
    repeat split; apply N.eqb_neq; lia. }
  rewrite Hws.
  destruct (N.eqb_spec c 123); [lia|].
  destruct (N.eqb_spec c 91); [lia|].
  destruct (N.eqb_spec c 34); [lia|].
  destruct (N.eqb_spec c 110); [lia|].
  destruct (N.eqb_spec c 116); [lia|].
  destruct (N.eqb_spec c 102); [lia|].
  rewrite Happ. reflexivity.
Qed.

Lemma parse_value_null (fuel : nat) (rest : JsString) :
  parse_value (S fuel) (str "null" ++ rest) = Some (VNull, rest).
Proof.
  change (str "null" ++ rest) with (110 :: 117 :: 108 :: 108 :: rest).
  cbn [parse_value skip_ws is_ws N.eqb Pos.eqb orb].
  change (110 :: 117 :: 108 :: 108 :: rest) with (str "null" ++ rest).
  rewrite strip_prefix_app. reflexivity.
Qed.

Lemma parse_value_true (fuel : nat) (rest : JsString) :
  parse_value (S fuel) (str "true" ++ rest) = Some (VBool true, rest).
Proof.
  change (str "true" ++ rest) with (116 :: 114 :: 117 :: 101 :: rest).
  cbn [parse_value skip_ws is_ws N.eqb Pos.eqb orb].
  change (116 :: 114 :: 117 :: 101 :: rest) with (str "true" ++ rest).
  rewrite strip_prefix_app. reflexivity.
Qed.

Lemma parse_value_false (fuel : nat) (rest : JsString) :
  parse_value (S fuel) (str "false" ++ rest) = Some (VBool false, rest).
Proof.
  change (str "false" ++ rest) with (102 :: 97 :: 108 :: 115 :: 101 :: rest).
  cbn [parse_value skip_ws is_ws N.eqb Pos.eqb orb].
  change (102 :: 97 :: 108 :: 115 :: 101 :: rest) with (str "false" ++ rest).
  rewrite strip_prefix_app. reflexivity.
Qed.

Lemma parse_value_string (fuel : nat) (s rest : JsString) :
  parse_value (S fuel) (QuoteJSONString s ++ rest) = Some (VString s, rest).
Proof.
  destruct (parse_QuoteJSONString s rest) as (body & -> & Hbody).
  cbn [parse_value skip_ws is_ws N.eqb Pos.eqb orb].
  rewrite Hbody. reflexivity.
Qed.

End JsonNumbers.

Section JsonValues.
Context {E : Engine}.
Local Open Scope N_scope.

Lemma skip_ws_app (a l : JsString) :
  forallb is_ws a = true -> skip_ws (a ++ l) = skip_ws l.
Proof.
  induction a as [|c a IH]; [reflexivity|].
  cbn [forallb app skip_ws]. intros H.
  apply andb_true_iff in H. destruct H as [-> H]. auto.
Qed.

Lemma skip_ws_start (c : codeunit) (l : JsString) :
  is_ws c = false -> skip_ws (c :: l) = c :: l.
Proof. intros H. cbn [skip_ws]. rewrite H. reflexivity. Qed.

Lemma parse_value_skip_ws (fuel : nat) (a s : JsString) :
  forallb is_ws a = true -> parse_value fuel (a ++ s) = parse_value fuel s.
Proof.
  intros H. destruct fuel; [reflexivity|].
  cbn [parse_value]. rewrite (skip_ws_app a s H). reflexivity.
Qed.

Lemma parse_members_skip_ws (fuel : nat) (a s : JsString) acc :
  forallb is_ws a = true ->
  parse_members fuel (a ++ s) acc = parse_members fuel s acc.
Proof.
  intros H. destruct fuel; [reflexivity|].
  cbn [parse_members]. rewrite (skip_ws_app a s H). reflexivity.
Qed.

Lemma parse_elements_skip_ws (fuel : nat) (a s : JsString) acc :
  forallb is_ws a = true ->
  parse_elements fuel (a ++ s) acc = parse_elements fuel s acc.
Proof.
  intros H. destruct fuel; [reflexivity|].
  cbn [parse_elements]. rewrite (parse_value_skip_ws fuel a s H). reflexivity.
Qed.

Section Indented.
Variables stepback indent : JsString.
Hypothesis stepback_ws : forallb is_ws stepback = true.
Hypothesis indent_ws : forallb is_ws indent = true.

Let sep : JsString := [44; 10] ++ indent.

Ltac lengths :=
  unfold sep, JsString, codeunit in *;
  repeat rewrite length_app in *; cbn [List.length] in *; lia.

(** The elements of an array, from the line break after the bracket or
    after a comma, up to the closing bracket. *)
Lemma parse_elements_texts (xs : list JsValue) (ts : list JsString) :
  Forall2 reads_back xs ts ->
  xs <> [] ->
  forall (acc : list JsValue) (fuel : nat) (rest : JsString),
    (List.length ([10] ++ indent ++ join sep ts ++ [10] ++ stepback ++ [93])%N
     <= fuel)%nat ->
    parse_elements fuel
      ([10] ++ indent ++ join sep ts ++ [10] ++ stepback ++ [93] ++ rest) acc
    = Some (VArray (acc ++ List.map reread xs), rest).
Proof.
  induction 1 as [|x t xs ts [_ Hx] Hrest IH]; [congruence|].
  intros _ acc fuel rest Hfuel.
  destruct fuel as [|f]; [lengths|].
  rewrite app_assoc.
  rewrite parse_elements_skip_ws
    by (rewrite forallb_app; cbn [forallb]; rewrite indent_ws; reflexivity).
  cbn [parse_elements].
  destruct Hrest as [|x2 t2 xs' ts' Hx2 Hrest'].
  - (* the last element *)
    cbn [join] in *. rewrite Hx; [|lengths|reflexivity].
    rewrite app_assoc, skip_ws_app
      by (rewrite forallb_app; cbn [forallb]; rewrite stepback_ws; reflexivity).
    reflexivity.
  - (* an element and a comma *)
    assert (Hjoin : join sep (t :: t2 :: ts')
                    = t ++ sep ++ join sep (t2 :: ts')) by reflexivity.
    rewrite Hjoin in *. clear Hjoin.
    assert (Hsep : forall l, sep ++ l = 44 :: [10] ++ indent ++ l)
      by (intros l; unfold sep; rewrite <- app_assoc; reflexivity).
    rewrite <- !app_assoc, Hsep.
    rewrite Hx; [|lengths|reflexivity].
    cbn [skip_ws is_ws N.eqb Pos.eqb orb].
    rewrite IH; [|discriminate|lengths].
    rewrite <- app_assoc. reflexivity.
Qed.

Lemma JsString_eqb_sym (a b : JsString) : JsString_eqb a b = JsString_eqb b a.
Proof.
  destruct (JsString_eqb a b) eqn:H1, (JsString_eqb b a) eqn:H2;
    try reflexivity.
  - apply JsString_eqb_eq in H1. subst. rewrite JsString_eqb_refl in H2.
    discriminate.
  - apply JsString_eqb_eq in H2. subst. rewrite JsString_eqb_refl in H1.
    discriminate.
Qed.

Lemma distinct_app_fresh (l1 l2 : list JsString) (k : JsString) :
  distinct (l1 ++ k :: l2) = true -> existsb (JsString_eqb k) l1 = false.
Proof.
  induction l1 as [|x l1 IH]; [reflexivity|].
  cbn [app distinct existsb]. intros H.
  apply andb_true_iff in H. destruct H as [Hx Hd].
  apply negb_true_iff in Hx. rewrite existsb_app in Hx.
  apply orb_false_iff in Hx. destruct Hx as [_ Hx].
  cbn [existsb] in Hx. apply orb_false_iff in Hx. destruct Hx as [Hx _].
  rewrite JsString_eqb_sym, Hx. cbn [orb]. auto.
Qed.

Lemma obj_set_fresh (k : JsString) (v : JsValue)
    (acc : list (JsString * JsValue)) :
  existsb (JsString_eqb k) (List.map fst acc) = false ->
  obj_set k v acc = acc ++ [(k, v)].
Proof.
  induction acc as [|[k' v'] acc IH]; [reflexivity|].
  cbn [List.map fst existsb obj_set app]. intros H.
  apply orb_false_iff in H. destruct H as [-> H].
  rewrite IH by assumption. reflexivity.
Qed.

Lemma parse_members_texts (ps : list (JsString * JsValue))
    (ms : list JsString) :
  Forall2 member_text ps ms ->
  ps <> [] ->
  forall (acc : list (JsString * JsValue)) (fuel : nat) (rest : JsString),
    distinct (List.map fst acc ++ List.map fst ps) = true ->
    (List.length ([10] ++ indent ++ join sep ms ++ [10] ++ stepback ++ [125])%N
     <= fuel)%nat ->
    parse_members fuel
      ([10] ++ indent ++ join sep ms ++ [10] ++ stepback ++ [125] ++ rest) acc
    = Some (VObject (acc ++ List.map (fun p => (fst p, reread (snd p))) ps),
            rest).
Proof.
  induction 1 as [|[k v] m ps ms (t & -> & _ & Hv) Hrest IH]; [congruence|].
  intros _ acc fuel rest Hkeys Hfuel. cbn [fst snd] in *.
  destruct fuel as [|f]; [lengths|].
  rewrite app_assoc.
  rewrite parse_members_skip_ws
    by (rewrite forallb_app; cbn [forallb]; rewrite indent_ws; reflexivity).
  cbn [parse_members List.map fst] in *.
  pose proof (distinct_app_fresh _ _ _ Hkeys) as Hfresh.
  assert (Hmember : forall l,
            parse_value f ([32] ++ t ++ l) = parse_value f (t ++ l))
    by (intros l; apply parse_value_skip_ws; reflexivity).
  destruct Hrest as [|p2 m2 ps' ms' Hp2 Hrest'].
  - (* the last member *)
    cbn [join] in *. rewrite <- !app_assoc.
    destruct (parse_QuoteJSONString k
                ([58; 32] ++ t ++ [10] ++ stepback ++ [125] ++ rest))
      as (body & Hq & Hb).
    rewrite Hq. cbn [skip_ws is_ws N.eqb Pos.eqb orb app]. rewrite Hb.
    cbn [skip_ws is_ws N.eqb Pos.eqb orb app].
    change (32 :: t ++ 10 :: stepback ++ 125 :: rest)
      with ([32] ++ t ++ [10] ++ stepback ++ [125] ++ rest).
    rewrite Hmember, Hv; [|lengths|reflexivity].
    rewrite app_assoc, skip_ws_app
      by (rewrite forallb_app; cbn [forallb]; rewrite stepback_ws; reflexivity).
    cbn [skip_ws is_ws N.eqb Pos.eqb orb app].
    rewrite obj_set_fresh by assumption. reflexivity.
  - (* a member and a comma *)
    assert (Hjoin : forall m, join sep (m :: m2 :: ms')
                              = m ++ sep ++ join sep (m2 :: ms'))
      by reflexivity.
    rewrite Hjoin in *. clear Hjoin.
    assert (Hsep : forall l, sep ++ l = 44 :: [10] ++ indent ++ l)
      by (intros l; unfold sep; rewrite <- app_assoc; reflexivity).
    rewrite <- !app_assoc, Hsep.
    destruct (parse_QuoteJSONString k
                ([58; 32] ++ t ++ 44 :: [10] ++ indent
                 ++ join sep (m2 :: ms') ++ [10] ++ stepback ++ [125] ++ rest))
      as (body & Hq & Hb).
    rewrite Hq. cbn [skip_ws is_ws N.eqb Pos.eqb orb app]. rewrite Hb.
    cbn [skip_ws is_ws N.eqb Pos.eqb orb app].
    change (32 :: t ++ 44 :: 10 :: indent ++ join sep (m2 :: ms')
                 ++ 10 :: stepback ++ 125 :: rest)
      with ([32] ++ t ++ 44 :: [10] ++ indent ++ join sep (m2 :: ms')
                 ++ [10] ++ stepback ++ [125] ++ rest).
    rewrite Hmember, Hv; [|lengths|reflexivity].
    cbn [skip_ws is_ws N.eqb Pos.eqb orb].
    rewrite obj_set_fresh by assumption.
    rewrite IH; [|discriminate| |lengths].
    + rewrite <- app_assoc. reflexivity.
    + rewrite map_app, <- app_assoc. exact Hkeys.
Qed.

Lemma join_head (t : JsString) (ts : list JsString) (c : codeunit)
    (l : JsString) :
  t = c :: l -> exists l', join sep (t :: ts) = c :: l'.
Proof.
  intros ->. destruct ts as [|t2 ts]; cbn [join app]; eexists; reflexivity.
Qed.

(** The text of an array reads back as the array. *)
Lemma reads_back_array (items : list JsValue) (ts : list JsString) :
  Forall2 reads_back items ts ->
  reads_back (VArray items) (wrap [91] [93] stepback indent ts).
Proof.
  intros Hts. destruct Hts as [|x t items ts Hx Hrest].
  - split; [exists 91, [93]; repeat split; discriminate|].
    intros [|f] rest Hfuel _; [cbn in Hfuel; lia|]. reflexivity.
  - assert (Hall : Forall2 reads_back (x :: items) (t :: ts))
      by (constructor; assumption).
    unfold wrap. fold sep. split.
    { eexists 91, _. repeat split; discriminate. }
    intros [|f] rest Hfuel _; [cbn in Hfuel; lia|].
    destruct Hx as [(c & l & Ht & Hc & Hc93) _].
    destruct (join_head t ts c l Ht) as [l' Hj].
    rewrite <- !app_assoc.
    cbn [app parse_value skip_ws is_ws N.eqb Pos.eqb orb].
    rewrite skip_ws_app by exact indent_ws.
    rewrite Hj. cbn [app]. rewrite skip_ws_start by assumption.
    destruct (N.eqb_spec c 93); [contradiction|].
    change (c :: l' ++ 10 :: stepback ++ 93 :: rest)
      with ((c :: l') ++ [10] ++ stepback ++ [93] ++ rest).
    rewrite <- Hj.
    change (10 :: indent ++ join sep (t :: ts) ++ [10] ++ stepback ++ [93]
               ++ rest)
      with ([10] ++ indent ++ join sep (t :: ts) ++ [10] ++ stepback ++ [93]
            ++ rest).
    rewrite (parse_elements_texts (x :: items) (t :: ts) Hall);
      [reflexivity | discriminate | lengths].
Qed.

(** The text of an object reads back as the object. *)
Lemma reads_back_object (props : list (JsString * JsValue))
    (ms : list JsString) :
  Forall2 member_text props ms ->
  distinct (List.map fst props) = true ->
  reads_back (VObject props) (wrap [123] [125] stepback indent ms).
Proof.
  intros Hms Hkeys. destruct Hms as [|p m props ms Hp Hrest].
  - split; [exists 123, [125]; repeat split; discriminate|].
    intros [|f] rest Hfuel _; [cbn in Hfuel; lia|]. reflexivity.
  - assert (Hall : Forall2 member_text (p :: props) (m :: ms))
      by (constructor; assumption).
    unfold wrap. fold sep. split.
    { eexists 123, _. repeat split; discriminate. }
    intros [|f] rest Hfuel _; [cbn in Hfuel; lia|].
    destruct Hp as (t & Hm & _).
    assert (Hq : exists l, m = 34 :: l)
      by (rewrite Hm; unfold QuoteJSONString; cbn [app]; eexists; reflexivity).
    destruct Hq as [l Hq].
    destruct (join_head m ms 34 l Hq) as [l' Hj].
    rewrite <- !app_assoc.
    cbn [app parse_value skip_ws is_ws N.eqb Pos.eqb orb].
    rewrite skip_ws_app by exact indent_ws.
    rewrite Hj. cbn [app skip_ws is_ws N.eqb Pos.eqb orb].
    change (34 :: l' ++ 10 :: stepback ++ 125 :: rest)
      with ((34 :: l') ++ [10] ++ stepback ++ [125] ++ rest).
    unfold JsString, codeunit in Hj |- *. rewrite <- Hj.
    change (10 :: indent ++ join sep (m :: ms) ++ [10] ++ stepback ++ [125]
               ++ rest)
      with ([10] ++ indent ++ join sep (m :: ms) ++ [10] ++ stepback ++ [125]
            ++ rest).
    rewrite (parse_members_texts (p :: props) (m :: ms) Hall);
      [reflexivity | discriminate | exact Hkeys | lengths].
Qed.

End Indented.
Lemma JsValue_induction (P : JsValue -> Prop) :
  P VUndefined -> P VNull -> (forall b, P (VBool b)) ->
  (forall n, P (VNumber n)) -> (forall s, P (VString s)) ->
  (forall items, Forall P items -> P (VArray items)) ->
  (forall props, Forall (fun p => P (snd p)) props -> P (VObject props)) ->
  forall v, P v.
Proof.
  intros H1 H2 H3 H4 H5 H6 H7.
  fix IH 1.
  intros [ | | b | n | s | items | props ];
    [exact H1 | exact H2 | apply H3 | apply H4 | apply H5 | | ].
  - apply H6. induction items as [|x items IHl]; constructor;
      [apply IH | exact IHl].
  - apply H7. induction props as [|p props IHl]; constructor;
      [apply IH | exact IHl].
Qed.

Lemma array_texts (indent : JsString) (items : list JsValue) :
  Forall (fun x => exists t, SerializeJSONProperty indent x = Some t
                             /\ reads_back x t) items ->
  exists ts,
    List.map (fun x => match SerializeJSONProperty indent x with
                       | Some s => s
                       | None => str "null"
                       end) items = ts
    /\ Forall2 reads_back items ts.
Proof.
  induction 1 as [|x items (t & Ht & Hx) _ (ts & Hts & IH)].
  - exists []. split; [reflexivity | constructor].
  - exists (t :: ts). split.
    + cbn [List.map]. rewrite Ht, Hts. reflexivity.
    + constructor; assumption.
Qed.

Lemma object_texts (indent : JsString) (props : list (JsString * JsValue)) :
  Forall (fun p => exists t, SerializeJSONProperty indent (snd p) = Some t
                             /\ reads_back (snd p) t) props ->
  exists ms,
    List.flat_map
      (fun p => match SerializeJSONProperty indent (snd p) with
                | Some s => [QuoteJSONString (fst p) ++ [58; 32] ++ s]
                | None => []
                end) props = ms
    /\ Forall2 member_text props ms.
Proof.
  induction 1 as [|p props (t & Ht & Hp) _ (ms & Hms & IH)].
  - exists []. split; [reflexivity | constructor].
  - exists ((QuoteJSONString (fst p) ++ [58; 32] ++ t) :: ms). split.
    + cbn [List.flat_map]. rewrite Ht, Hms. reflexivity.
    + constructor; [exists t; auto | assumption].
Qed.

Lemma gap_ws (indent : JsString) :
  forallb is_ws indent = true -> forallb is_ws (indent ++ gap) = true.
Proof. intros H. rewrite forallb_app, H. reflexivity. Qed.

End JsonValues.

Section JsonRoundTrip.
Context {E : Engine} {L : EngineLaws E}.
Local Open Scope N_scope.

Lemma serialize_reads_back (v : JsValue) :
  json_serializable v = true ->
  well_formed_value v = true ->
  forall indent, forallb is_ws indent = true ->
  exists text, SerializeJSONProperty indent v = Some text /\ reads_back v text.
Proof.
  induction v as [ | | b | n | s | items IH | props IH ]
    using JsValue_induction; intros Hs Hw indent Hws.
  - discriminate.
  - exists (str "null"). split; [reflexivity|]. split.
    + eexists 110, _. repeat split; discriminate.
    + intros [|f] rest Hf _; [vm_compute in Hf; lia|]. apply parse_value_null.
  - destruct b.
    + exists (str "true"). split; [reflexivity|]. split.
      * eexists 116, _. repeat split; discriminate.
      * intros [|f] rest Hf _; [vm_compute in Hf; lia|]. apply parse_value_true.
    + exists (str "false"). split; [reflexivity|]. split.
      * eexists 102, _. repeat split; discriminate.
      * intros [|f] rest Hf _; [vm_compute in Hf; lia|].
        apply parse_value_false.
  - cbn [json_serializable] in Hs. cbn [SerializeJSONProperty]. rewrite Hs.
    exists (Number_toString n). split; [reflexivity|].
    pose proof (Number_toString_json n Hs) as Hlex.
    destruct (lex_number_first _ _ Hlex) as (c & l & Htok & Hc).
    split.
    + exists c, l. split; [exact Htok|].
      assert (Hrange : c = 45 \/ 48 <= c <= 57)
        by (destruct Hc as [->|Hd]; [auto | right; apply digit_bounds, Hd]).
      split; [|lia].
      unfold is_ws. rewrite !orb_false_iff.
      repeat split; apply N.eqb_neq; lia.
    + intros [|f] rest Hf Hrest; [rewrite Htok in Hf; cbn in Hf; lia|].
      apply parse_value_number; assumption.
  - exists (QuoteJSONString s). split; [reflexivity|]. split.
    + unfold QuoteJSONString. cbn [app]. eexists 34, _.
      repeat split; discriminate.
    + intros [|f] rest Hf _; [cbn in Hf; lia|]. apply parse_value_string.
  - cbn [json_serializable well_formed_value] in Hs, Hw.
    rewrite forallb_forall in Hs, Hw. rewrite Forall_forall in IH.
    destruct (array_texts (indent ++ gap) items) as (ts & Hts & Hall).
    { apply Forall_forall. intros x Hx.
      apply (IH x Hx (Hs x Hx) (Hw x Hx)). apply gap_ws, Hws. }
    cbn [SerializeJSONProperty]. cbv zeta. rewrite Hts.
    eexists. split; [reflexivity|].
    apply reads_back_array; [exact Hws | apply gap_ws, Hws | exact Hall].
  - cbn [json_serializable well_formed_value] in Hs, Hw.
    apply andb_true_iff in Hw. destruct Hw as [Hkeys Hw].
    rewrite forallb_forall in Hs, Hw. rewrite Forall_forall in IH.
    destruct (object_texts (indent ++ gap) props) as (ms & Hms & Hall).
    { apply Forall_forall. intros p Hp.
      apply (IH p Hp (Hs p Hp) (Hw p Hp)). apply gap_ws, Hws. }
    cbn [SerializeJSONProperty]. cbv zeta. rewrite Hms.
    eexists. split; [reflexivity|].
    apply reads_back_object;
      [exact Hws | apply gap_ws, Hws | exact Hall | exact Hkeys].
Qed.

(** [JSON.parse(JSON.stringify(v, null, 2))] for a tree JSON can write
    down. *)
Lemma JSON_parse_stringify (v : JsValue) :
  json_serializable v = true ->
  well_formed_value v = true ->
  exists text, JSON_stringify v = Some text /\ JSON_parse text = Ok (reread v).
Proof.
  intros Hs Hw.
  destruct (serialize_reads_back v Hs Hw [] eq_refl)
    as (text & Htext & _ & Hparse).
  exists text. split; [exact Htext|].
  unfold JSON_parse.
  specialize (Hparse (S (List.length text)) [] (Nat.le_succ_diag_r _) eq_refl).
  rewrite app_nil_r in Hparse. rewrite Hparse. reflexivity.
Qed.

Lemma obj_get_In (ps : list (JsString * JsValue)) (k : JsString)
    (x : JsValue) :
  distinct (List.map fst ps) = true -> In (k, x) ps -> obj_get k ps = Some x.
Proof.
  induction ps as [|[k' x'] ps IH]; [intros _ []|].
  cbn [List.map fst distinct obj_get]. intros Hd [Heq | Hin].
  - inversion Heq; subst. rewrite JsString_eqb_refl. reflexivity.
  - apply andb_true_iff in Hd. destruct Hd as [Hfresh Hd].
    apply negb_true_iff in Hfresh.
    destruct (JsString_eqb k k') eqn:Hk.
    + apply JsString_eqb_eq in Hk. subst k'.
      assert (Hex : existsb (JsString_eqb k) (List.map fst ps) = true).
      { apply existsb_exists. exists k. split.
        - apply (in_map fst ps (k, x) Hin).
        - apply JsString_eqb_refl. }
      congruence.
    + apply IH; assumption.
Qed.

Lemma deepEqual_reread (v : JsValue) :
  json_serializable v = true ->
  well_formed_value v = true ->
  deepEqual (reread v) v = true.
Proof.
  induction v as [ | | b | n | s | items IH | props IH ]
    using JsValue_induction; intros Hs Hw.
  - discriminate.
  - reflexivity.
  - destruct b; reflexivity.
  - cbn [json_serializable] in Hs. cbn [reread deepEqual].
    apply Number_toString_roundtrip, Hs.
  - cbn [reread deepEqual]. apply JsString_eqb_refl.
  - cbn [json_serializable well_formed_value] in Hs, Hw.
    cbn [reread deepEqual].
    induction IH as [|x items Hx _ IHitems]; [reflexivity|].
    cbn [forallb] in Hs, Hw.
    apply andb_true_iff in Hs, Hw. destruct Hs as [Hs1 Hs2], Hw as [Hw1 Hw2].
    cbn [List.map]. rewrite (Hx Hs1 Hw1). cbn [andb].
    apply IHitems; assumption.
  - cbn [json_serializable well_formed_value] in Hs, Hw.
    apply andb_true_iff in Hw. destruct Hw as [Hkeys Hw].
    cbn [reread deepEqual]. rewrite length_map, Nat.eqb_refl. cbn [andb].
    rewrite forallb_forall in Hs, Hw. rewrite Forall_forall in IH.
    assert (Hsub : forall sub, incl sub props ->
              (fix props0 (ps : list (JsString * JsValue)) : bool :=
                 match ps with
                 | [] => true
                 | p :: ps' =>
                     match obj_get (fst p) props with
                     | Some w => deepEqual (snd p) w
                     | None => false
                     end && props0 ps'
                 end) (List.map (fun p => (fst p, reread (snd p))) sub) = true).
    { induction sub as [|[k x] sub IHsub]; intros Hincl; [reflexivity|].
      cbn [List.map fst snd].
      assert (Hin : In (k, x) props) by (apply Hincl; left; reflexivity).
      rewrite (obj_get_In props k x Hkeys Hin).
      pose proof (IH (k, x) Hin (Hs (k, x) Hin) (Hw (k, x) Hin)) as Hx.
      cbn [snd] in Hx. rewrite Hx. cbn [andb].
      apply IHsub. intros p Hp. apply Hincl. right. exact Hp. }
    apply Hsub. apply incl_refl.
Qed.

End JsonRoundTrip.

(** ** JSON.parse never runs out of fuel *)

Section JsonFuel.
Context {E : Engine}.
Local Open Scope N_scope.

Lemma skip_ws_length (s : JsString) :
  (List.length (skip_ws s) <= List.length s)%nat.
Proof.
  induction s as [|c s IH]; [apply Nat.le_refl|].
  cbn [skip_ws]. destruct (is_ws c); cbn [List.length]; lia.
Qed.

Lemma consume_length (c : codeunit) (p : option (JsString * JsString))
    (x r : JsString) :
  consume c p = Some (x, r) -> exists x', p = Some (x', r).
Proof.
  destruct p as [[x' r']|]; [|discriminate].
  intros H; inversion H; subst. eexists; reflexivity.
Qed.

Lemma parse_string_chars_length (s x r : JsString) :
  parse_string_chars s = Some (x, r) ->
  (List.length r < List.length s)%nat.
Proof.
  remember (List.length s) as n eqn:Hn.
  revert s x r Hn. induction n as [n IH] using lt_wf_ind.
  intros [|c rest] x r Hn; [discriminate|].
  cbn [parse_string_chars]. cbn [List.length] in Hn.
  destruct (c =? 34).
  { intros H; inversion H; subst. lia. }
  destruct (c =? 92).
  { destruct rest as [|e rest1]; [discriminate|].
    destruct (e =? 117).
    - destruct rest1 as [|h1 [|h2 [|h3 [|h4 rest2]]]]; try discriminate.
      destruct (hex4 h1 h2 h3 h4); [|discriminate].
      intros H. apply consume_length in H. destruct H as [x' H].
      cbn [List.length] in Hn.
      pose proof (IH (List.length rest2) ltac:(lia) rest2 x' r eq_refl H).
      lia.
    - destruct (unescape e); [|discriminate].
      intros H. apply consume_length in H. destruct H as [x' H].
      cbn [List.length] in Hn.
      pose proof (IH (List.length rest1) ltac:(lia) rest1 x' r eq_refl H).
      lia. }
  destruct (c <? 32); [discriminate|].
  intros H. apply consume_length in H. destruct H as [x' H].
  pose proof (IH (List.length rest) ltac:(lia) rest x' r eq_refl H). lia.
Qed.

Lemma strip_prefix_length (p s r : JsString) :
  strip_prefix p s = Some r ->
  List.length s = (List.length p + List.length r)%nat.
Proof.
  intros H. apply strip_prefix_spec in H. subst s. apply length_app.
Qed.

Lemma span_digits_length (s : JsString) :
  (List.length (snd (span_digits s)) <= List.length s)%nat.
Proof.
  induction s as [|c s IH]; [apply Nat.le_refl|].
  cbn [span_digits]. destruct (is_digit c); [|apply Nat.le_refl].
  destruct (span_digits s) as [ds r]. cbn [snd List.length] in *. lia.
Qed.

Lemma lex_int_length (s ip r : JsString) :
  lex_int s = Some (ip, r) -> (List.length r < List.length s)%nat.
Proof.
  destruct s as [|c s]; [discriminate|]. cbn [lex_int].
  destruct (c =? 48).
  { intros H; inversion H; subst. cbn [List.length]. lia. }
  destruct (is_digit c) eqn:Hd; [|discriminate].
  cbn [span_digits]. rewrite Hd.
  pose proof (span_digits_length s) as Hs.
  destruct (span_digits s) as [ds r']. cbn [snd] in Hs.
  intros H; inversion H; subst. cbn [List.length]. lia.
Qed.

Lemma lex_frac_length (s : JsString) :
  (List.length (snd (lex_frac s)) <= List.length s)%nat.
Proof.
  destruct s as [|c s]; [apply Nat.le_refl|]. cbn [lex_frac].
  destruct (c =? 46); [|apply Nat.le_refl].
  pose proof (span_digits_length s) as Hs.
  destruct (span_digits s) as [[|d ds] r]; cbn [snd List.length] in *; lia.
Qed.

Lemma lex_exp_length (s : JsString) :
  (List.length (snd (lex_exp s)) <= List.length s)%nat.
Proof.
  destruct s as [|c s]; [apply Nat.le_refl|]. cbn [lex_exp].
  destruct ((c =? 101) || (c =? 69)); [|apply Nat.le_refl].
  assert (Hsign : (List.length (snd (lex_sign s)) <= List.length s)%nat).
  { destruct s as [|d s]; [apply Nat.le_refl|]. cbn [lex_sign].
    destruct ((d =? 43) || (d =? 45)); cbn [snd List.length]; lia. }
  destruct (lex_sign s) as [sg r1]. cbn [snd] in Hsign.
  pose proof (span_digits_length r1) as Hs.
  destruct (span_digits r1) as [[|d ds] r2]; cbn [snd List.length] in *; lia.
Qed.

Lemma lex_number_length (s tok r : JsString) :
  lex_number s = Some (tok, r) -> (List.length r < List.length s)%nat.
Proof.
  unfold lex_number.
  assert (Hm : (List.length (snd (lex_minus s)) <= List.length s)%nat).
  { destruct s as [|c s]; [apply Nat.le_refl|]. cbn [lex_minus].
    destruct (c =? 45); cbn [snd List.length]; lia. }
  destruct (lex_minus s) as [sg s1]. cbn [snd] in Hm.
  destruct (lex_int s1) as [[ip s2]|] eqn:Hi; [|discriminate].
  apply lex_int_length in Hi.
  pose proof (lex_frac_length s2) as Hf.
  destruct (lex_frac s2) as [fp s3]. cbn [snd] in Hf.
  pose proof (lex_exp_length s3) as He.
  destruct (lex_exp s3) as [ep s4]. cbn [snd] in He.
  intros H; inversion H; subst. lia.
Qed.


Ltac len := unfold JsString, codeunit in *; cbn [List.length] in *; lia.

(** A parse that succeeds has consumed something, and succeeds alike
    with any fuel that covers what it consumed. *)
Lemma parse_fuel_stable (f : nat) :
  (forall s v r,
     parse_value f s = Some (v, r) ->
     (List.length r < List.length s)%nat
     /\ forall f', (List.length s - List.length r <= f')%nat ->
                   parse_value f' s = Some (v, r))
  /\ (forall s acc v r,
        parse_elements f s acc = Some (v, r) ->
        (List.length r < List.length s)%nat
        /\ forall f', (List.length s - List.length r <= f')%nat ->
                      parse_elements f' s acc = Some (v, r))
  /\ (forall s acc v r,
        parse_members f s acc = Some (v, r) ->
        (List.length r < List.length s)%nat
        /\ forall f', (List.length s - List.length r <= f')%nat ->
                      parse_members f' s acc = Some (v, r)).
Proof.
  induction f as [|f (IHV & IHE & IHM)];
    [repeat split; intros; discriminate|].
  split; [|split].
  - (* parse_value *)
    intros s v r H. cbn [parse_value] in H.
    pose proof (skip_ws_length s) as Hs.
    destruct (skip_ws s) as [|c t] eqn:Hskip; [discriminate|].
    cbn [List.length] in Hs.
    destruct (c =? 123) eqn:H123.
    { pose proof (skip_ws_length t) as Ht.
      destruct (skip_ws t) as [|c' r'] eqn:Hskip2; [discriminate|].
      cbn [List.length] in Ht.
      destruct (c' =? 125) eqn:H125.
      - inversion H; subst. split; [len|].
        intros [|f1] Hf'; [len|]. cbn [parse_value].
        rewrite Hskip, H123, Hskip2, H125. reflexivity.
      - apply IHM in H. destruct H as [Hlt Hst]. split; [len|].
        intros [|f1] Hf'; [len|]. cbn [parse_value].
        rewrite Hskip, H123, Hskip2, H125. apply Hst. len. }
    destruct (c =? 91) eqn:H91.
    { pose proof (skip_ws_length t) as Ht.
      destruct (skip_ws t) as [|c' r'] eqn:Hskip2; [discriminate|].
      cbn [List.length] in Ht.
      destruct (c' =? 93) eqn:H93.
      - inversion H; subst. split; [len|].
        intros [|f1] Hf'; [len|]. cbn [parse_value].
        rewrite Hskip, H123, H91, Hskip2, H93. reflexivity.
      - apply IHE in H. destruct H as [Hlt Hst]. split; [len|].
        intros [|f1] Hf'; [len|]. cbn [parse_value].
        rewrite Hskip, H123, H91, Hskip2, H93. apply Hst. len. }
    destruct (c =? 34) eqn:H34.
    { destruct (parse_string_chars t) as [[x r']|] eqn:Hstr; [|discriminate].
      inversion H; subst. apply parse_string_chars_length in Hstr as Hlt.
      split; [len|].
      intros [|f1] Hf'; [len|]. cbn [parse_value].
      rewrite Hskip, H123, H91, H34, Hstr. reflexivity. }
    destruct (c =? 110) eqn:H110.
    { destruct (strip_prefix (str "null") (c :: t)) as [r'|] eqn:Hp;
        [|discriminate].
      inversion H; subst. apply strip_prefix_length in Hp as Hlt.
      change (List.length (str "null")) with 4%nat in Hlt.
      split; [len|].
      intros [|f1] Hf'; [len|]. cbn [parse_value].
      rewrite Hskip, H123, H91, H34, H110, Hp. reflexivity. }
    destruct (c =? 116) eqn:H116.
    { destruct (strip_prefix (str "true") (c :: t)) as [r'|] eqn:Hp;
        [|discriminate].
      inversion H; subst. apply strip_prefix_length in Hp as Hlt.
      change (List.length (str "true")) with 4%nat in Hlt.
      split; [len|].
      intros [|f1] Hf'; [len|]. cbn [parse_value].
      rewrite Hskip, H123, H91, H34, H110, H116, Hp. reflexivity. }
    destruct (c =? 102) eqn:H102.
    { destruct (strip_prefix (str "false") (c :: t)) as [r'|] eqn:Hp;
        [|discriminate].
      inversion H; subst. apply strip_prefix_length in Hp as Hlt.
      change (List.length (str "false")) with 5%nat in Hlt.
      split; [len|].
      intros [|f1] Hf'; [len|]. cbn [parse_value].
      rewrite Hskip, H123, H91, H34, H110, H116, H102, Hp. reflexivity. }
    destruct (lex_number (c :: t)) as [[tok r']|] eqn:Hlex; [|discriminate].
    inversion H; subst. apply lex_number_length in Hlex as Hlt.
    split; [len|].
    intros [|f1] Hf'; [len|]. cbn [parse_value].
    rewrite Hskip, H123, H91, H34, H110, H116, H102, Hlex. reflexivity.
  - (* parse_elements *)
    intros s acc v r H. cbn [parse_elements] in H.
    destruct (parse_value f s) as [[v1 r1]|] eqn:Hv; [|discriminate].
    apply IHV in Hv. destruct Hv as [Hlt1 Hst1].
    pose proof (skip_ws_length r1) as Hr1.
    destruct (skip_ws r1) as [|c r2] eqn:Hskip; [discriminate|].
    cbn [List.length] in Hr1.
    destruct (c =? 44) eqn:H44.
    + apply IHE in H. destruct H as [Hlt Hst]. split; [len|].
      intros [|f1] Hf'; [len|]. cbn [parse_elements].
      rewrite (Hst1 f1) by len. rewrite Hskip, H44. apply Hst. len.
    + destruct (c =? 93) eqn:H93; [|discriminate].
      inversion H; subst. split; [len|].
      intros [|f1] Hf'; [len|]. cbn [parse_elements].
      rewrite (Hst1 f1) by len. rewrite Hskip, H44, H93. reflexivity.
  - (* parse_members *)
    intros s acc v r H. cbn [parse_members] in H.
    pose proof (skip_ws_length s) as Hs.
    destruct (skip_ws s) as [|q t] eqn:Hskip; [discriminate|].
    cbn [List.length] in Hs.
    destruct (q =? 34) eqn:H34; [|discriminate].
    destruct (parse_string_chars t) as [[k r1]|] eqn:Hstr; [|discriminate].
    apply parse_string_chars_length in Hstr as Hk.
    pose proof (skip_ws_length r1) as Hr1.
    destruct (skip_ws r1) as [|c r2] eqn:Hskip1; [discriminate|].
    cbn [List.length] in Hr1.
    destruct (c =? 58) eqn:H58; [|discriminate].
    destruct (parse_value f r2) as [[v1 r3]|] eqn:Hv; [|discriminate].
    apply IHV in Hv. destruct Hv as [Hlt1 Hst1].
    pose proof (skip_ws_length r3) as Hr3.
    destruct (skip_ws r3) as [|c' r4] eqn:Hskip3; [discriminate|].
    cbn [List.length] in Hr3.
    destruct (c' =? 44) eqn:H44.
    + apply IHM in H. destruct H as [Hlt Hst]. split; [len|].
      intros [|f1] Hf'; [len|]. cbn [parse_members].
      rewrite Hskip, H34, Hstr, Hskip1, H58.
      rewrite (Hst1 f1) by len. rewrite Hskip3, H44. apply Hst. len.
    + destruct (c' =? 125) eqn:H125; [|discriminate].
      inversion H; subst. split; [len|].
      intros [|f1] Hf'; [len|]. cbn [parse_members].
      rewrite Hskip, H34, Hstr, Hskip1, H58.
      rewrite (Hst1 f1) by len. rewrite Hskip3, H44, H125. reflexivity.
Qed.

(** The fuel [JSON.parse] starts with is enough: a text that parses with
    any fuel parses, to the same value, with the fuel of [JSON_parse]. *)
Lemma JSON_parse_fuel (fuel : nat) (text : JsString) (v : JsValue)
    (rest : JsString) :
  parse_value fuel text = Some (v, rest) ->
  parse_value (S (List.length text)) text = Some (v, rest).
Proof.
  intros H. destruct (proj1 (parse_fuel_stable fuel) text v rest H) as [_ Hst].
  apply Hst. len.
Qed.

End JsonFuel.

(** ** The integer engine keeps the laws *)

Section IntegerEngineFacts.
Local Open Scope N_scope.

Lemma uint_digits_all (u : Decimal.uint) :
  forallb is_digit (uint_digits u) = true.
Proof.
  induction u; cbn [uint_digits forallb]; try rewrite IHu; reflexivity.
Qed.

Lemma span_digits_all (s : JsString) :
  forallb is_digit s = true -> span_digits s = (s, []).
Proof.
  induction s as [|c s IH]; [reflexivity|].
  cbn [forallb span_digits]. intros H.
  apply andb_true_iff in H. destruct H as [-> H].
  rewrite (IH H). reflexivity.
Qed.

Lemma digits_uint_digits (u : Decimal.uint) : digits_uint (uint_digits u) = u.
Proof.
  induction u; cbn [uint_digits digits_uint]; try reflexivity;
    cbn; rewrite IHu; reflexivity.
Qed.

(** The decimal digits of a number have no leading zero. *)
Lemma to_uint_head (n : N) :
  N.to_uint n = Decimal.D0 Decimal.Nil
  \/ exists c ds, uint_digits (N.to_uint n) = c :: ds /\ 49 <= c <= 57.
Proof.
  assert (Hnorm : N.to_uint n = Decimal.unorm (N.to_uint n)).
  { rewrite <- (DecimalN.Unsigned.to_of (N.to_uint n)).
    rewrite DecimalN.Unsigned.of_to. reflexivity. }
  unfold Decimal.unorm in Hnorm.
  pose proof (DecimalFacts.nzhead_nonzero (N.to_uint n)) as Hnz.
  destruct (Decimal.nzhead (N.to_uint n)) as [|u|u|u|u|u|u|u|u|u|u] eqn:Hhead;
    [left; exact Hnorm | exfalso; apply (Hnz u); reflexivity | ..];
    right; rewrite Hnorm; cbn [uint_digits]; eexists _, _;
    (split; [reflexivity | lia]).
Qed.

Lemma lex_number_digits (n : N) :
  lex_number (N_toString n) = Some (N_toString n, []).
Proof.
  unfold N_toString. destruct (to_uint_head n) as [-> | (c & ds & Hds & Hc)].
  - reflexivity.
  - pose proof (uint_digits_all (N.to_uint n)) as Hall. rewrite Hds in *.
    unfold lex_number. cbn [lex_minus].
    destruct (N.eqb_spec c 45); [lia|].
    cbn [lex_int].
    destruct (N.eqb_spec c 48); [lia|].
    assert (Hd : is_digit c = true)
      by (cbn [forallb] in Hall; apply andb_true_iff in Hall; tauto).
    rewrite Hd, (span_digits_all (c :: ds) Hall).
    cbn. rewrite !List.app_nil_r. reflexivity.
Qed.

Lemma lex_number_negative (p : positive) :
  lex_number (45 :: N_toString (Npos p))
  = Some (45 :: N_toString (Npos p), []).
Proof.
  pose proof (lex_number_digits (Npos p)) as H.
  pose proof (uint_digits_all (N.to_uint (Npos p))) as Hall.
  fold (N_toString (Npos p)) in Hall.
  unfold lex_number in *. cbn [lex_minus N.eqb Pos.eqb].
  destruct (N_toString (Npos p)) as [|c ds] eqn:Hs; [discriminate|].
  cbn [lex_minus] in H. cbn [forallb] in Hall.
  apply andb_true_iff in Hall. destruct Hall as [Hd _].
  apply digit_bounds in Hd.
  destruct (N.eqb_spec c 45); [lia|].
  destruct (lex_int (c :: ds)) as [[ip s2]|]; [|discriminate].
  destruct (lex_frac s2) as [fp s3]. destruct (lex_exp s3) as [ep s4].
  cbn [app] in *. inversion H as [[Htok Hrest]]. rewrite Htok. reflexivity.
Qed.

Lemma integer_ofString_digits (n : N) :
  integer_ofString (N_toString n) = Int (Z.of_N n).
Proof.
  unfold N_toString.
  destruct (to_uint_head n) as [H0 | (c & ds & Hds & Hc)].
  - rewrite H0. cbn.
    rewrite <- (DecimalN.Unsigned.of_to n), H0. reflexivity.
  - unfold integer_ofString. rewrite Hds.
    destruct (N.eqb_spec c 45); [lia|].
    rewrite <- Hds, digits_uint_digits, DecimalN.Unsigned.of_to.
    reflexivity.
Qed.

Lemma IntegerEngine_laws : EngineLaws IntegerEngine.
Proof.
  split.
  - intros [ | neg | | z]; cbn; try discriminate; intros _.
    + reflexivity.
    + unfold Z_toString. destruct z as [|p|p].
      * reflexivity.
      * apply lex_number_digits.
      * apply lex_number_negative.
  - intros [ | neg | | z]; cbn; try discriminate; intros _.
    + reflexivity.
    + unfold Z_toString. destruct z as [|p|p].
      * reflexivity.
      * rewrite (integer_ofString_digits (Z.to_N (Z.pos p))). cbn.
        apply Pos.eqb_refl.
      * unfold integer_ofString, N_toString. cbn [N.eqb Pos.eqb].
        rewrite digits_uint_digits, DecimalN.Unsigned.of_to. cbn.
        apply Pos.eqb_refl.
Qed.

End IntegerEngineFacts.

(** ** Percent-encoding *)

Section UriFacts.
Local Open Scope N_scope.

Ltac n_arith := zify; Z.to_euclidean_division_equations; lia.

Lemma hex_upper_unreserved (d : N) :
  d < 16 -> uri_unreserved (hex_upper d) = true.
Proof.
  intros H.
  assert (Hd : d = 0 \/ d = 1 \/ d = 2 \/ d = 3 \/ d = 4 \/ d = 5 \/ d = 6
               \/ d = 7 \/ d = 8 \/ d = 9 \/ d = 10 \/ d = 11 \/ d = 12
               \/ d = 13 \/ d = 14 \/ d = 15) by lia.
  repeat (destruct Hd as [-> | Hd]; [reflexivity|]). subst d. reflexivity.
Qed.

Lemma percent_escape_safe (b : N) :
  b < 256 -> forallb url_safe (percent_escape b) = true.
Proof.
  intros H. unfold percent_escape. cbn [forallb]. unfold url_safe at 2 3.
  rewrite !hex_upper_unreserved by n_arith. reflexivity.
Qed.

Lemma of_code_point_octets (cp : N) :
  cp < 1114112 -> Forall (fun b => b < 256) (Utf8.of_code_point cp).
Proof.
  intros H. unfold Utf8.of_code_point.
  destruct (cp <? 128) eqn:H1; [apply N.ltb_lt in H1|apply N.ltb_ge in H1].
  { repeat constructor. lia. }
  destruct (cp <? 2048) eqn:H2; [apply N.ltb_lt in H2|apply N.ltb_ge in H2].
  { repeat constructor; n_arith. }
  destruct (cp <? 65536) eqn:H3; [apply N.ltb_lt in H3|apply N.ltb_ge in H3].
  { repeat constructor; n_arith. }
  repeat constructor; n_arith.
Qed.

Lemma escapes_safe (bs : Bytes) :
  Forall (fun b => b < 256) bs ->
  forallb url_safe (flat_map percent_escape bs) = true.
Proof.
  induction 1 as [|b bs Hb _ IH]; [reflexivity|].
  cbn [flat_map]. rewrite forallb_app, IH, percent_escape_safe by exact Hb.
  reflexivity.
Qed.

Lemma encodeURIComponent_safe_bounded (n : nat) (s enc : JsString) :
  (List.length s <= n)%nat ->
  code_units s = true ->
  encodeURIComponent s = Some enc ->
  forallb url_safe enc = true.
Proof.
  revert s enc. induction n as [|n IH]; intros s enc Hlen Hcu Henc.
  - destruct s; [|simpl in Hlen; lia]. inversion Henc. reflexivity.
  - destruct s as [|c rest]; [inversion Henc; reflexivity|].
    unfold code_units in Hcu. cbn [forallb] in Hcu.
    apply andb_true_iff in Hcu. destruct Hcu as [Hc Hrest].
    apply N.ltb_lt in Hc. cbn [encodeURIComponent] in Henc.
    destruct (uri_unreserved c) eqn:Hun.
    { destruct (encodeURIComponent rest) as [e|] eqn:He; [|discriminate].
      inversion Henc; subst enc. cbn [forallb]. unfold url_safe at 1.
      rewrite Hun. cbn [orb andb].
      apply (IH rest e); [simpl in Hlen; lia | exact Hrest | exact He]. }
    destruct (is_low_surrogate c); [discriminate|].
    destruct (is_high_surrogate c) eqn:Hhi.
    { destruct rest as [|d rest']; [discriminate|].
      destruct (is_low_surrogate d) eqn:Hlo; [|discriminate].
      destruct (encodeURIComponent rest') as [e|] eqn:He; [|discriminate].
      inversion Henc; subst enc.
      cbn [forallb] in Hrest. apply andb_true_iff in Hrest.
      destruct Hrest as [Hd Hrest']. apply N.ltb_lt in Hd.
      rewrite forallb_app. apply andb_true_iff. split.
      - apply escapes_safe, of_code_point_octets.
        unfold is_high_surrogate, is_low_surrogate in Hhi, Hlo.
        apply andb_true_iff in Hhi, Hlo.
        destruct Hhi as [Hh1 Hh2], Hlo as [Hl1 Hl2].
        apply N.leb_le in Hh1, Hh2, Hl1, Hl2.
        unfold pair_code_point. lia.
      - apply (IH rest' e); [simpl in Hlen; lia | exact Hrest' | exact He]. }
    destruct (encodeURIComponent rest) as [e|] eqn:He; [|discriminate].
    inversion Henc; subst enc.
    rewrite forallb_app. apply andb_true_iff. split.
    + apply escapes_safe, of_code_point_octets. lia.
    + apply (IH rest e); [simpl in Hlen; lia | exact Hrest | exact He].
Qed.

Lemma encodeURIComponent_safe (s enc : JsString) :
  code_units s = true ->
  encodeURIComponent s = Some enc ->
  forallb url_safe enc = true.
Proof.
  apply (encodeURIComponent_safe_bounded (List.length s)). apply Nat.le_refl.
Qed.

End UriFacts.

(** ** The effect monad *)

Section EffFacts.
Context {E : Engine}.

Lemma bind_snd {A B : Type} (m : Eff A) (k : A -> Eff B) :
  snd (bind m k) = match snd m with
                   | Ok a => snd (k a)
                   | Err e => Err e
                   end.
Proof.
  destruct m as [t [a|e]]; simpl; [|reflexivity].
  destruct (k a); reflexivity.
Qed.

Lemma bind_fst {A B : Type} (m : Eff A) (k : A -> Eff B) :
  fst (bind m k) = fst m ++ match snd m with
                            | Ok a => fst (k a)
                            | Err _ => []
                            end.
Proof.
  destruct m as [t [a|e]]; simpl.
  - destruct (k a); reflexivity.
  - rewrite app_nil_r; reflexivity.
Qed.

Lemma bind_Ok {A B : Type} (m : Eff A) (k : A -> Eff B) t a :
  m = (t, Ok a) -> bind m k = (t ++ fst (k a), snd (k a)).
Proof. intros ->; simpl. destruct (k a); reflexivity. Qed.

Lemma bind_Err {A B : Type} (m : Eff A) (k : A -> Eff B) t e :
  m = (t, Err e) -> bind m k = (t, Err e).
Proof. intros ->; reflexivity. Qed.

Lemma await_snd {A B : Type} (m : Async A) (k : A -> Async B) :
  snd (await m k) = match snd m with
                    | Settled (Ok a) => snd (k a)
                    | Settled (Err e) => Settled (Err e)
                    | Pending => Pending
                    end.
Proof.
  destruct m as [t [[a|e]|]]; simpl; try reflexivity.
  destruct (k a); reflexivity.
Qed.

Lemma await_fst {A B : Type} (m : Async A) (k : A -> Async B) :
  fst (await m k) = fst m ++ match snd m with
                             | Settled (Ok a) => fst (k a)
                             | _ => []
                             end.
Proof.
  destruct m as [t [[a|e]|]]; simpl; try (rewrite app_nil_r; reflexivity).
  destruct (k a); reflexivity.
Qed.

Lemma await_sync_snd {A B : Type} (m : Eff A) (k : A -> Async B) :
  snd (await (sync m) k) = match snd m with
                           | Ok a => snd (k a)
                           | Err e => Settled (Err e)
                           end.
Proof. rewrite await_snd. reflexivity. Qed.

Lemma await_sync_fst {A B : Type} (m : Eff A) (k : A -> Async B) :
  fst (await (sync m) k) = fst m ++ match snd m with
                                    | Ok a => fst (k a)
                                    | Err _ => []
                                    end.
Proof. rewrite await_fst. cbn [sync fst snd]. destruct (snd m); reflexivity. Qed.

Lemma requests_app (t u : list Event) :
  requests (t ++ u) = requests t ++ requests u.
Proof. apply flat_map_app. Qed.

Lemma outputs_app (t u : list Event) :
  outputs (t ++ u) = outputs t ++ outputs u.
Proof. apply flat_map_app. Qed.

Lemma failures_app (t u : list Event) :
  failures (t ++ u) = failures t ++ failures u.
Proof. apply flat_map_app. Qed.

Lemma error_logs_app (t u : list Event) :
  error_logs (t ++ u) = error_logs t ++ error_logs u.
Proof. apply flat_map_app. Qed.

End EffFacts.

(** ** The stages, one by one *)

Section StageFacts.
Context {E : Engine}.
Variable w : World.

Lemma readOASFile_missing (filePath : JsString) :
  fs w filePath = None ->
  readOASFile w filePath
  = ([Info (str "Reading OAS file from: " ++ filePath)],
     Err (FileNotFound filePath)).
Proof. intros H. unfold readOASFile. rewrite H. reflexivity. Qed.

Lemma readOASFile_directory (filePath : JsString) (sz : N) :
  fs w filePath = Some (Directory sz) ->
  readOASFile w filePath
  = ([Info (str "Reading OAS file from: " ++ filePath)],
     Err (SystemError (str "EISDIR: illegal operation on a directory, read"))).
Proof. intros H. unfold readOASFile. rewrite H. reflexivity. Qed.

Lemma readOASFile_file (filePath : JsString) (bytes : Bytes) :
  fs w filePath = Some (RegularFile bytes) ->
  snd (readOASFile w filePath)
  = Ok {| content := Utf8.decode bytes;
          extension := toLowerCase (Path.extname filePath);
          fileName := Path.basename filePath;
          size := N.of_nat (List.length bytes) |}.
Proof. intros H. unfold readOASFile. rewrite H. reflexivity. Qed.

Lemma readOASFile_Ok (filePath : JsString) (fd : FileData) :
  snd (readOASFile w filePath) = Ok fd ->
  exists bytes,
    fs w filePath = Some (RegularFile bytes)
    /\ fd = {| content := Utf8.decode bytes;
               extension := toLowerCase (Path.extname filePath);
               fileName := Path.basename filePath;
               size := N.of_nat (List.length bytes) |}.
Proof.
  destruct (fs w filePath) as [[bytes|sz]|] eqn:H.
  - rewrite (readOASFile_file _ _ H). intros Heq; inversion Heq.
    exists bytes; split; reflexivity.
  - rewrite (readOASFile_directory _ _ H). discriminate.
  - rewrite (readOASFile_missing _ H). discriminate.
Qed.

Lemma readOASFile_quiet (filePath : JsString) :
  requests (fst (readOASFile w filePath)) = []
  /\ outputs (fst (readOASFile w filePath)) = [].
Proof.
  unfold readOASFile.
  destruct (fs w filePath) as [[bytes|sz]|]; split; reflexivity.
Qed.

Lemma processOASFile_yaml (fd : FileData) :
  extension fd = str ".yaml" \/ extension fd = str ".yml" ->
  processOASFile w fd
  = ([Info (str "Converting YAML to JSON format")],
     match convertYamlToJson w (content fd) with
     | Ok processedContent =>
         Ok {| fileData := fd;
               processedContent := processedContent;
               processedFileName := replace_yaml_extension (fileName fd) |}
     | Err e => Err e
     end).
Proof.
  intros H. unfold processOASFile.
  assert (Hext : JsString_eqb (extension fd) (str ".yaml")
                 || JsString_eqb (extension fd) (str ".yml") = true).
  { destruct H as [-> | ->]; reflexivity. }
  rewrite Hext.
  destruct (convertYamlToJson w (content fd)); reflexivity.
Qed.

Lemma processOASFile_json (fd : FileData) :
  extension fd = str ".json" ->
  processOASFile w fd
  = ([Info (str "File is already in JSON format")],
     match JSON_parse (content fd) with
     | Ok _ =>
         Ok {| fileData := fd;
               processedContent := Some (content fd);
               processedFileName := fileName fd |}
     | Err error_message => Err (InvalidJson error_message)
     end).
Proof.
  intros H. unfold processOASFile. rewrite H.
  change (JsString_eqb (str ".json") (str ".yaml")
          || JsString_eqb (str ".json") (str ".yml")) with false.
  change (JsString_eqb (str ".json") (str ".json")) with true.
  cbv iota.
  destruct (JSON_parse (content fd)); reflexivity.
Qed.

Lemma processOASFile_other (fd : FileData) :
  extension fd <> str ".yaml" -> extension fd <> str ".yml" ->
  extension fd <> str ".json" ->
  processOASFile w fd = ([], Err (UnsupportedFormat (extension fd))).
Proof.
  intros H1 H2 H3. unfold processOASFile.
  apply JsString_eqb_neq in H1, H2, H3. rewrite H1, H2, H3. reflexivity.
Qed.

Lemma extension_cases (x : JsString) :
  (x = str ".yaml" \/ x = str ".yml") \/ x = str ".json"
  \/ (x <> str ".yaml" /\ x <> str ".yml" /\ x <> str ".json").
Proof.
  destruct (JsString_eqb x (str ".yaml")) eqn:H1;
    [apply JsString_eqb_eq in H1; auto|].
  destruct (JsString_eqb x (str ".yml")) eqn:H2;
    [apply JsString_eqb_eq in H2; auto|].
  destruct (JsString_eqb x (str ".json")) eqn:H3;
    [apply JsString_eqb_eq in H3; auto|].
  apply JsString_eqb_neq in H1, H2, H3. auto.
Qed.

Lemma processOASFile_quiet (fd : FileData) :
  requests (fst (processOASFile w fd)) = []
  /\ outputs (fst (processOASFile w fd)) = [].
Proof.
  destruct (extension_cases (extension fd)) as [H | [H | (H1 & H2 & H3)]].
  - rewrite (processOASFile_yaml _ H); split; reflexivity.
  - rewrite (processOASFile_json _ H); split; reflexivity.
  - rewrite (processOASFile_other _ H1 H2 H3); split; reflexivity.
Qed.

(** [https.request] takes the options or throws a TypeError, and logs
    nothing either way. *)
Lemma new_ClientRequest_cases (o : RequestOptions) :
  new_ClientRequest o = ret tt
  \/ exists m, new_ClientRequest o = throw (TypeError m).
Proof.
  unfold new_ClientRequest.
  destruct (unescaped_path (path o)); [right; eexists; reflexivity|].
  destruct (invalid_header (headers o));
    [right; eexists; reflexivity | left; reflexivity].
Qed.

Lemma url_safe_path (enc : JsString) :
  forallb url_safe enc = true -> unescaped_path enc = false.
Proof.
  unfold unescaped_path.
  induction enc as [|c enc IH]; [reflexivity|].
  cbn [forallb existsb]. intros H.
  apply andb_true_iff in H. destruct H as [Hc Henc].
  rewrite (IH Henc), orb_false_r. apply negb_false_iff.
  unfold url_safe, uri_unreserved in Hc.
  repeat (apply orb_true_iff in Hc; destruct Hc as [Hc | Hc]);
    repeat match goal with
    | H : _ && _ = true |- _ => apply andb_true_iff in H; destruct H
    | H : (_ <=? _)%N = true |- _ => apply N.leb_le in H
    | H : (_ =? _)%N = true |- _ => apply N.eqb_eq in H
    end;
    apply andb_true_iff; split; apply N.leb_le; lia.
Qed.

Lemma unescaped_path_app (a b : JsString) :
  unescaped_path (a ++ b) = unescaped_path a || unescaped_path b.
Proof. apply existsb_app. Qed.

Lemma checkInvalidHeaderChar_app (a b : JsString) :
  checkInvalidHeaderChar (a ++ b)
  = checkInvalidHeaderChar a || checkInvalidHeaderChar b.
Proof. apply existsb_app. Qed.

(** [https.request] takes the request of the action when the encoded
    catalog is made of URL characters and the boundary and the token
    are header values. *)
Lemma new_ClientRequest_accepts (url : URL) (enc token : JsString) :
  forallb url_safe enc = true ->
  checkInvalidHeaderChar (boundary w) = false ->
  checkInvalidHeaderChar token = false ->
  new_ClientRequest (requestOptions w url enc token) = ret tt.
Proof.
  intros Henc Hb Ht. unfold new_ClientRequest.
  assert (Hpath : unescaped_path (path (requestOptions w url enc token))
                  = false).
  { cbn [path requestOptions].
    rewrite unescaped_path_app, (url_safe_path enc Henc). reflexivity. }
  rewrite Hpath.
  assert (Hh : invalid_header (headers (requestOptions w url enc token))
               = None).
  { change (headers (requestOptions w url enc token))
      with [ (str "content-type",
              str "multipart/form-data; boundary=" ++ boundary w);
             (str "Authorization", str "Bearer " ++ token) ].
    cbn [invalid_header]. rewrite !checkInvalidHeaderChar_app, Hb, Ht.
    reflexivity. }
  rewrite Hh. reflexivity.
Qed.

(** The request uploadToBrainfish builds, when it gets that far. *)
Lemma uploadToBrainfish_sent (pf : ProcessedFile)
    (apiToken catalogId baseUrl text : JsString) (url : URL)
    (encoded : JsString) :
  processedContent pf = Some text ->
  URL_parse w baseUrl = Some url ->
  encodeURIComponent catalogId = Some encoded ->
  new_ClientRequest (requestOptions w url encoded apiToken) = ret tt ->
  let request :=
    {| options := requestOptions w url encoded apiToken;
       body := uploadForm (Utf8.encode text) (processedFileName pf) |} in
  uploadToBrainfish w pf apiToken catalogId baseUrl
  = ([Info (str "Uploading " ++ processedFileName pf
            ++ str " to Brainfish catalog: " ++ catalogId);
      Info (str "Making request to: " ++ baseUrl
            ++ str "/api/catalogs.upload?catalogId=" ++ encoded);
      HttpsRequest request]
     ++ fst (handleOutcome (processedFileName pf) (https_request w request)),
     snd (handleOutcome (processedFileName pf) (https_request w request))).
Proof.
  intros Hc Hu He Hnew request.
  unfold uploadToBrainfish, Buffer_from, new_URL, global_encodeURIComponent.
  rewrite Hc, Hu, He.
  cbn [await sync bind ret core_info emit app fst snd].
  rewrite Hnew. cbn [await sync bind ret core_info emit app fst snd].
  fold request.
  destruct (handleOutcome (processedFileName pf) (https_request w request))
    as [t r].
  reflexivity.
Qed.

(** uploadToBrainfish either stops before the request, rejecting with
    an error that is no upload failure, or gets as far as
    [https.request] with options it takes. *)
Lemma uploadToBrainfish_cases (pf : ProcessedFile)
    (apiToken catalogId baseUrl : JsString) :
  (requests (fst (uploadToBrainfish w pf apiToken catalogId baseUrl)) = []
   /\ outputs (fst (uploadToBrainfish w pf apiToken catalogId baseUrl)) = []
   /\ failures (fst (uploadToBrainfish w pf apiToken catalogId baseUrl)) = []
   /\ exists e,
        snd (uploadToBrainfish w pf apiToken catalogId baseUrl)
        = Settled (Err e)
        /\ kind e = KOther)
  \/ exists text url encoded,
       processedContent pf = Some text
       /\ URL_parse w baseUrl = Some url
       /\ encodeURIComponent catalogId = Some encoded
       /\ new_ClientRequest (requestOptions w url encoded apiToken) = ret tt.
Proof.
  destruct (processedContent pf) as [text|] eqn:Hc;
    [destruct (URL_parse w baseUrl) as [url|] eqn:Hu;
     [destruct (encodeURIComponent catalogId) as [enc|] eqn:He;
      [destruct (new_ClientRequest_cases (requestOptions w url enc apiToken))
         as [Hnew | [m Hnew]]|]|]|].
  - right. exists text, url, enc. auto.
  - left.
    unfold uploadToBrainfish, Buffer_from, new_URL, global_encodeURIComponent.
    rewrite Hc, Hu, He.
    cbn [await sync bind ret core_info emit app fst snd].
    rewrite Hnew. repeat split. eexists; split; reflexivity.
  - left.
    unfold uploadToBrainfish, Buffer_from, new_URL, global_encodeURIComponent.
    rewrite Hc, Hu, He. repeat split. eexists; split; reflexivity.
  - left. unfold uploadToBrainfish, Buffer_from, new_URL.
    rewrite Hc, Hu. repeat split. eexists; split; reflexivity.
  - left. unfold uploadToBrainfish, Buffer_from.
    rewrite Hc. repeat split. eexists; split; reflexivity.
Qed.

(** When it does not get that far, nothing is sent. *)
Lemma uploadToBrainfish_not_sent (pf : ProcessedFile)
    (apiToken catalogId baseUrl : JsString) :
  processedContent pf = None \/ URL_parse w baseUrl = None
  \/ encodeURIComponent catalogId = None
  \/ (exists url encoded m,
        URL_parse w baseUrl = Some url
        /\ encodeURIComponent catalogId = Some encoded
        /\ new_ClientRequest (requestOptions w url encoded apiToken)
           = throw (TypeError m)) ->
  requests (fst (uploadToBrainfish w pf apiToken catalogId baseUrl)) = []
  /\ exists e, snd (uploadToBrainfish w pf apiToken catalogId baseUrl)
               = Settled (Err e)
               /\ kind e = KOther.
Proof.
  intros H.
  destruct (uploadToBrainfish_cases pf apiToken catalogId baseUrl)
    as [(Hreq & _ & _ & He) | (text & url & enc & Hc & Hu & He & Hnew)].
  - split; assumption.
  - destruct H as [H | [H | [H | (url' & enc' & m & Hu' & He' & Hnew')]]];
      try congruence.
    rewrite Hu in Hu'. rewrite He in He'.
    inversion Hu'; inversion He'; subst url' enc'.
    rewrite Hnew in Hnew'. discriminate.
Qed.

Lemma handleOutcome_quiet (name : JsString) (outcome : NetworkOutcome) :
  requests (fst (handleOutcome name outcome)) = []
  /\ outputs (fst (handleOutcome name outcome)) = [].
Proof.
  destruct outcome as [status chunks | m |]; simpl.
  - destruct ((200 <=? status)%Z && (status <? 300)%Z); split; reflexivity.
  - split; reflexivity.
  - split; reflexivity.
Qed.

Lemma uploadToBrainfish_requests (pf : ProcessedFile)
    (apiToken catalogId baseUrl text : JsString) (url : URL)
    (encoded : JsString) :
  processedContent pf = Some text ->
  URL_parse w baseUrl = Some url ->
  encodeURIComponent catalogId = Some encoded ->
  new_ClientRequest (requestOptions w url encoded apiToken) = ret tt ->
  requests (fst (uploadToBrainfish w pf apiToken catalogId baseUrl))
  = [ {| options := requestOptions w url encoded apiToken;
         body := uploadForm (Utf8.encode text) (processedFileName pf) |} ].
Proof.
  intros Hc Hu He Hnew.
  rewrite (uploadToBrainfish_sent pf apiToken catalogId baseUrl text url
             encoded Hc Hu He Hnew).
  cbn [fst]. rewrite requests_app, (proj1 (handleOutcome_quiet _ _)).
  reflexivity.
Qed.

End StageFacts.

(** ** The run as a whole *)

Section MainFacts.
Context {E : Engine}.
Variable w : World.

Lemma main_try_inputs_missing :
  inputs_given w = false ->
  exists name, main_try w = ([], Settled (Err (MissingInput name))).
Proof.
  unfold inputs_given, main_try, require_input. intros H.
  destruct (truthy (getInput w (str "brainfish_api_token")));
    [|eexists; reflexivity].
  destruct (truthy (getInput w (str "catalog_id")));
    [|eexists; reflexivity].
  destruct (truthy (getInput w (str "oas_file_path")));
    [discriminate | eexists; reflexivity].
Qed.

Lemma main_try_inputs_given :
  inputs_given w = true ->
  main_try w
  = ([Info (str "Starting Brainfish OAS sync process");
      Info (str "Base URL: " ++ input_baseUrl w);
      Info (str "Catalog ID: " ++ getInput w (str "catalog_id"));
      Info (str "OAS file path: " ++ getInput w (str "oas_file_path"))]
     ++ fst (main_run w), snd (main_run w)).
Proof.
  unfold inputs_given, main_try, require_input, main_run. intros H.
  apply andb_true_iff in H; destruct H as [H H3].
  apply andb_true_iff in H; destruct H as [H1 H2].
  rewrite H1, H2, H3. cbn [await sync bind ret core_info emit app fst snd].
  destruct (main_steps w _ _ _ _) as [t r]. reflexivity.
Qed.

Lemma main_trace :
  main w = fst (main_try w)
           ++ match snd (main_try w) with
              | Settled (Err error) =>
                  [ErrorLog (cross_mark ++ str " Error: " ++ message error);
                   SetFailed (message error)]
              | _ => []
              end.
Proof.
  unfold main. destruct (main_try w) as [t [[u|e]|]]; simpl;
    rewrite ?app_nil_r; reflexivity.
Qed.

Lemma requests_main :
  requests (main w)
  = if inputs_given w then requests (fst (main_run w)) else [].
Proof.
  rewrite main_trace, requests_app.
  assert (Htail : requests
            match snd (main_try w) with
            | Settled (Err error) =>
                [ErrorLog (cross_mark ++ str " Error: " ++ message error);
                 SetFailed (message error)]
            | _ => []
            end = [])
    by (destruct (snd (main_try w)) as [[u|e]|]; reflexivity).
  rewrite Htail, app_nil_r.
  destruct (inputs_given w) eqn:H.
  - rewrite (main_try_inputs_given H). reflexivity.
  - destruct (main_try_inputs_missing H) as [name ->]. reflexivity.
Qed.

Lemma outputs_main :
  outputs (main w)
  = if inputs_given w then outputs (fst (main_run w)) else [].
Proof.
  rewrite main_trace, outputs_app.
  assert (Htail : outputs
            match snd (main_try w) with
            | Settled (Err error) =>
                [ErrorLog (cross_mark ++ str " Error: " ++ message error);
                 SetFailed (message error)]
            | _ => []
            end = [])
    by (destruct (snd (main_try w)) as [[u|e]|]; reflexivity).
  rewrite Htail, app_nil_r.
  destruct (inputs_given w) eqn:H.
  - rewrite (main_try_inputs_given H). reflexivity.
  - destruct (main_try_inputs_missing H) as [name ->]. reflexivity.
Qed.

Lemma requests_main_steps (a c p b : JsString) :
  requests (fst (main_steps w a c p b))
  = match snd (readOASFile w p) with
    | Ok fd =>
        match snd (processOASFile w fd) with
        | Ok pf => requests (fst (uploadToBrainfish w pf a c b))
        | Err _ => []
        end
    | Err _ => []
    end.
Proof.
  unfold main_steps.
  rewrite await_sync_fst, requests_app, (proj1 (readOASFile_quiet w p)).
  destruct (snd (readOASFile w p)) as [fd|e]; [|reflexivity].
  rewrite await_sync_fst, requests_app, (proj1 (processOASFile_quiet w fd)).
  destruct (snd (processOASFile w fd)) as [pf|e]; [|reflexivity].
  rewrite await_fst, requests_app.
  destruct (snd (uploadToBrainfish w pf a c b)) as [[res|e]|];
    simpl; rewrite app_nil_r; reflexivity.
Qed.

Lemma snd_main_steps (a c p b : JsString) :
  snd (main_steps w a c p b)
  = match snd (readOASFile w p) with
    | Ok fd =>
        match snd (processOASFile w fd) with
        | Ok pf =>
            match snd (uploadToBrainfish w pf a c b) with
            | Settled (Ok _) => Settled (Ok tt)
            | Settled (Err e) => Settled (Err e)
            | Pending => Pending
            end
        | Err e => Settled (Err e)
        end
    | Err e => Settled (Err e)
    end.
Proof.
  unfold main_steps. rewrite await_sync_snd.
  destruct (snd (readOASFile w p)) as [fd|e]; [|reflexivity].
  rewrite await_sync_snd.
  destruct (snd (processOASFile w fd)) as [pf|e]; [|reflexivity].
  rewrite await_snd.
  destruct (snd (uploadToBrainfish w pf a c b)) as [[res|e]|]; reflexivity.
Qed.

End MainFacts.

Section NoNetwork.
Context {E : Engine}.
Variable w : World.

Lemma no_request_when_reading_fails (e : Error) :
  snd (readOASFile w (getInput w (str "oas_file_path"))) = Err e ->
  requests (main w) = [].
Proof.
  intros H. rewrite requests_main.
  destruct (inputs_given w); [|reflexivity].
  unfold main_run. rewrite requests_main_steps, H. reflexivity.
Qed.

Lemma no_request_when_processing_fails (fd : FileData) (e : Error) :
  snd (readOASFile w (getInput w (str "oas_file_path"))) = Ok fd ->
  snd (processOASFile w fd) = Err e ->
  requests (main w) = [].
Proof.
  intros Hr Hp. rewrite requests_main.
  destruct (inputs_given w); [|reflexivity].
  unfold main_run. rewrite requests_main_steps, Hr, Hp. reflexivity.
Qed.

Lemma uploadToBrainfish_outputs (pf : ProcessedFile) (a c b : JsString) :
  outputs (fst (uploadToBrainfish w pf a c b)) = [].
Proof.
  destruct (uploadToBrainfish_cases w pf a c b)
    as [(_ & Hout & _) | (text & url & enc & Hc & Hu & He & Hnew)].
  - exact Hout.
  - rewrite (uploadToBrainfish_sent w pf a c b text url enc Hc Hu He Hnew).
    cbn [fst]. rewrite outputs_app.
    rewrite (proj2 (handleOutcome_quiet _ _)). reflexivity.
Qed.

Lemma outputs_main_steps (a c p b : JsString) :
  outputs (fst (main_steps w a c p b))
  = match snd (readOASFile w p) with
    | Ok fd =>
        match snd (processOASFile w fd) with
        | Ok pf =>
            match snd (uploadToBrainfish w pf a c b) with
            | Settled (Ok uploadResult) =>
                [ (str "status",
                   check_mark
                     ++ str " OAS file successfully synced to Brainfish!");
                  (str "uploaded_file", result_fileName uploadResult) ]
            | _ => []
            end
        | Err _ => []
        end
    | Err _ => []
    end.
Proof.
  unfold main_steps.
  rewrite await_sync_fst, outputs_app, (proj2 (readOASFile_quiet w p)).
  destruct (snd (readOASFile w p)) as [fd|e]; [|reflexivity].
  rewrite await_sync_fst, outputs_app, (proj2 (processOASFile_quiet w fd)).
  destruct (snd (processOASFile w fd)) as [pf|e]; [|reflexivity].
  rewrite await_fst, outputs_app, uploadToBrainfish_outputs.
  destruct (snd (uploadToBrainfish w pf a c b)) as [[res|e]|]; reflexivity.
Qed.

End NoNetwork.

(* ================================================================= *)
(** ** File Loader *)

(** C5. For every path that does not resolve to an existing file
    ([fs.existsSync] is false), readOASFile throws the FileNotFound error
    ["OAS file not found at path: <path>"], and a run of main on that path
    hands no request to the network. *)
Theorem C5_missing_file_is_FileNotFound
    {E : Engine} (w : World) (filePath : JsString) :
  fs_existsSync w filePath = false ->
  (exists e, snd (readOASFile w filePath) = Err e
             /\ kind e = KFileNotFound
             /\ message e = str "OAS file not found at path: " ++ filePath)
  /\ (getInput w (str "oas_file_path") = filePath -> requests (main w) = []).
Proof.
  unfold fs_existsSync. intros H.
  destruct (fs w filePath) eqn:Hfs; [discriminate|].
  pose proof (readOASFile_missing w filePath Hfs) as Hr.
  split.
  - exists (FileNotFound filePath). rewrite Hr. repeat split.
  - intros Hp.
    apply no_request_when_reading_fails with (e := FileNotFound filePath).
    rewrite Hp, Hr. reflexivity.
Qed.

Lemma C5_witness :
  let w := Example.run (str "docs/none.json") Example.created in
  fs_existsSync w (str "docs/none.json") = false
  /\ (exists e, snd (readOASFile w (str "docs/none.json")) = Err e
                /\ kind e = KFileNotFound
                /\ message e
                   = str "OAS file not found at path: " ++ str "docs/none.json")
  /\ requests (main w) = [].
Proof.
  pose proof (C5_missing_file_is_FileNotFound
                (Example.run (str "docs/none.json") Example.created)
                (str "docs/none.json") eq_refl) as [Hread Hmain].
  split; [reflexivity|]. split; [exact Hread | exact (Hmain eq_refl)].
Defined.


(* ================================================================= *)
(** ** Format Normalizer: failures *)

(** C6. A file dispatched as YAML whose content js-yaml rejects makes
    processOASFile throw the InvalidYaml error, whose message embeds the
    parser's; a file dispatched as JSON whose content [JSON.parse]
    rejects makes it throw the InvalidJson error, whose message embeds
    the parser's. In both cases a run of main on that file hands no
    request to the network. *)
Theorem C6_parse_failures
    {E : Engine} (w : World) (fd : FileData) (parserMessage : JsString) :
  ((extension fd = str ".yaml" \/ extension fd = str ".yml") ->
   yaml_load w (content fd) = YAMLException parserMessage ->
   (exists e, snd (processOASFile w fd) = Err e
              /\ kind e = KInvalidYaml
              /\ message e
                 = str "Failed to parse YAML content: " ++ parserMessage)
   /\ (snd (readOASFile w (getInput w (str "oas_file_path"))) = Ok fd ->
       requests (main w) = []))
  /\
  (extension fd = str ".json" ->
   JSON_parse (content fd) = Err parserMessage ->
   (exists e, snd (processOASFile w fd) = Err e
              /\ kind e = KInvalidJson
              /\ message e = str "Invalid JSON format: " ++ parserMessage)
   /\ (snd (readOASFile w (getInput w (str "oas_file_path"))) = Ok fd ->
       requests (main w) = [])).
Proof.
  split.
  - intros Hext Hload.
    assert (Hp : snd (processOASFile w fd) = Err (InvalidYaml parserMessage)).
    { rewrite (processOASFile_yaml w fd Hext). unfold convertYamlToJson.
      rewrite Hload. reflexivity. }
    split.
    + exists (InvalidYaml parserMessage). rewrite Hp. repeat split.
    + intros Hr. exact (no_request_when_processing_fails w fd _ Hr Hp).
  - intros Hext Hparse.
    assert (Hp : snd (processOASFile w fd) = Err (InvalidJson parserMessage)).
    { rewrite (processOASFile_json w fd Hext), Hparse. reflexivity. }
    split.
    + exists (InvalidJson parserMessage). rewrite Hp. repeat split.
    + intros Hr. exact (no_request_when_processing_fails w fd _ Hr Hp).
Qed.

Lemma C6_witness :
  let wy := Example.run (str "docs/broken.yaml") Example.created in
  let wj := Example.run (str "docs/broken.json") Example.created in
  let fdy := Example.file_data (str "docs/broken.yaml") in
  let fdj := Example.file_data (str "docs/broken.json") in
  ((exists e, snd (processOASFile wy fdy) = Err e
              /\ kind e = KInvalidYaml
              /\ message e
                 = str "Failed to parse YAML content: "
                   ++ Example.yaml_broken_message)
   /\ requests (main wy) = [])
  /\
  ((exists e, snd (processOASFile wj fdj) = Err e
              /\ kind e = KInvalidJson
              /\ message e
                 = str "Invalid JSON format: "
                   ++ str "Unexpected token in JSON")
   /\ requests (main wj) = []).
Proof.
  pose proof (proj1 (C6_parse_failures
                       (Example.run (str "docs/broken.yaml") Example.created)
                       (Example.file_data (str "docs/broken.yaml"))
                       Example.yaml_broken_message)
                    (or_introl eq_refl) eq_refl) as [Hy Hmy].
  pose proof (proj2 (C6_parse_failures
                       (Example.run (str "docs/broken.json") Example.created)
                       (Example.file_data (str "docs/broken.json"))
                       (str "Unexpected token in JSON"))
                    eq_refl eq_refl) as [Hj Hmj].
  split; (split; [assumption|]).
  - exact (Hmy eq_refl).
  - exact (Hmj eq_refl).
Defined.

(** C7. A file whose lower-cased extension is none of [.yaml], [.yml],
    [.json] makes processOASFile throw the UnsupportedFormat error, whose
    message names the three supported formats, and a run of main on that
    file hands no request to the network. *)
Theorem C7_unsupported_extension
    {E : Engine} (w : World) (fd : FileData) :
  extension fd <> str ".yaml" ->
  extension fd <> str ".yml" ->
  extension fd <> str ".json" ->
  (exists e, snd (processOASFile w fd) = Err e
             /\ kind e = KUnsupportedFormat
             /\ message e
                = str "Unsupported file format: " ++ extension fd
                  ++ str ". Supported formats: .yaml, .yml, .json")
  /\ (snd (readOASFile w (getInput w (str "oas_file_path"))) = Ok fd ->
      requests (main w) = []).
Proof.
  intros H1 H2 H3.
  pose proof (processOASFile_other w fd H1 H2 H3) as Hp.
  split.
  - exists (UnsupportedFormat (extension fd)). rewrite Hp. repeat split.
  - intros Hr.
    apply (no_request_when_processing_fails w fd
             (UnsupportedFormat (extension fd)) Hr).
    rewrite Hp. reflexivity.
Qed.

Lemma C7_witness :
  let w := Example.run (str "docs/notes.txt") Example.created in
  let fd := Example.file_data (str "docs/notes.txt") in
  extension fd = str ".txt"
  /\ (exists e, snd (processOASFile w fd) = Err e
                /\ kind e = KUnsupportedFormat
                /\ message e
                   = str "Unsupported file format: " ++ str ".txt"
                     ++ str ". Supported formats: .yaml, .yml, .json")
  /\ requests (main w) = [].
Proof.
  assert (Hne : forall x, Example.file_data (str "docs/notes.txt") = x ->
                forall s, JsString_eqb (extension x) s = false ->
                extension (Example.file_data (str "docs/notes.txt")) <> s).
  { intros x <- s Hs. apply JsString_eqb_neq. exact Hs. }
  pose proof (C7_unsupported_extension
                (Example.run (str "docs/notes.txt") Example.created)
                (Example.file_data (str "docs/notes.txt"))
                (Hne _ eq_refl (str ".yaml") eq_refl)
                (Hne _ eq_refl (str ".yml") eq_refl)
                (Hne _ eq_refl (str ".json") eq_refl)) as [Hp Hmain].
  split; [reflexivity|]. split; [exact Hp | exact (Hmain eq_refl)].
Defined.

(* ================================================================= *)
(** ** Catalog Uploader: the response *)

Section UploadFacts.
Context {E : Engine}.
Variable w : World.

Lemma handleOutcome_snd (name : JsString) (outcome : NetworkOutcome) :
  snd (handleOutcome name outcome)
  = match outcome with
    | Response status chunks =>
        if (200 <=? status)%Z && (status <? 300)%Z
        then Settled (Ok {| success := true;
                            statusCode := status;
                            data := collect chunks;
                            result_fileName := name |})
        else Settled (Err (UploadStatus status (collect chunks)))
    | NetworkError m => Settled (Err (RequestFailed m))
    | Unsettled => Pending
    end.
Proof.
  destruct outcome as [status chunks | m |]; simpl; try reflexivity.
  destruct ((200 <=? status)%Z && (status <? 300)%Z); reflexivity.
Qed.

Lemma in_2xx (status : Z) :
  (200 <=? status)%Z && (status <? 300)%Z = true
  <-> (200 <= status < 300)%Z.
Proof. rewrite andb_true_iff, Z.leb_le, Z.ltb_lt. tauto. Qed.

(** A request was issued exactly when the upload got as far as
    [https.request]; its outcome then decides the result. *)
Lemma uploadToBrainfish_issued (pf : ProcessedFile) (a c b : JsString)
    (r : Request) :
  requests (fst (uploadToBrainfish w pf a c b)) = [r] ->
  snd (uploadToBrainfish w pf a c b)
  = snd (handleOutcome (processedFileName pf) (https_request w r)).
Proof.
  destruct (uploadToBrainfish_cases w pf a c b)
    as [(Hnone & _) | (text & url & enc & Hc & Hu & He & Hnew)].
  - rewrite Hnone. discriminate.
  - rewrite (uploadToBrainfish_sent w pf a c b text url enc Hc Hu He Hnew).
    cbn [fst snd]. rewrite requests_app.
    rewrite (proj1 (handleOutcome_quiet _ _)).
    intros Hr; inversion Hr; reflexivity.
Qed.

(** The promise resolves only after a request drew a 2xx response. *)
Lemma uploadToBrainfish_Ok (pf : ProcessedFile) (a c b : JsString)
    (res : UploadResult) :
  snd (uploadToBrainfish w pf a c b) = Settled (Ok res) ->
  exists r status chunks,
    requests (fst (uploadToBrainfish w pf a c b)) = [r]
    /\ https_request w r = Response status chunks
    /\ (200 <= status < 300)%Z
    /\ res = {| success := true;
                statusCode := status;
                data := collect chunks;
                result_fileName := processedFileName pf |}.
Proof.
  destruct (uploadToBrainfish_cases w pf a c b)
    as [(_ & _ & _ & e & -> & _) | (text & url & enc & Hc & Hu & He & Hnew)].
  - discriminate.
  - rewrite (uploadToBrainfish_sent w pf a c b text url enc Hc Hu He Hnew).
    cbn [fst snd]. rewrite requests_app, (proj1 (handleOutcome_quiet _ _)).
    rewrite handleOutcome_snd.
    set (r := {| options := requestOptions w url enc a;
                 body := uploadForm (Utf8.encode text)
                                    (processedFileName pf) |}).
    destruct (https_request w r) as [status chunks | m |] eqn:Hout;
      [|discriminate|discriminate].
    destruct ((200 <=? status)%Z && (status <? 300)%Z) eqn:H2xx;
      [|discriminate].
    intros Hres; inversion Hres.
    exists r, status, chunks. apply in_2xx in H2xx. auto.
Qed.

End UploadFacts.



(* ================================================================= *)
(** ** The top-level handler *)

Section HandlerFacts.
Context {E : Engine}.
Variable w : World.

Lemma readOASFile_no_failure (p : JsString) :
  failures (fst (readOASFile w p)) = [].
Proof.
  unfold readOASFile. destruct (fs w p) as [[bytes|sz]|]; reflexivity.
Qed.

Lemma processOASFile_no_failure (fd : FileData) :
  failures (fst (processOASFile w fd)) = [].
Proof.
  destruct (extension_cases (extension fd)) as [H | [H | (H1 & H2 & H3)]].
  - rewrite (processOASFile_yaml w fd H); reflexivity.
  - rewrite (processOASFile_json w fd H); reflexivity.
  - rewrite (processOASFile_other w fd H1 H2 H3); reflexivity.
Qed.

Lemma handleOutcome_no_failure (name : JsString) (outcome : NetworkOutcome) :
  failures (fst (handleOutcome name outcome)) = [].
Proof.
  destruct outcome as [status chunks | m |]; simpl; try reflexivity.
  destruct ((200 <=? status)%Z && (status <? 300)%Z); reflexivity.
Qed.

Lemma uploadToBrainfish_no_failure (pf : ProcessedFile) (a c b : JsString) :
  failures (fst (uploadToBrainfish w pf a c b)) = [].
Proof.
  destruct (uploadToBrainfish_cases w pf a c b)
    as [(_ & _ & Hf & _) | (text & url & enc & Hc & Hu & He & Hnew)].
  - exact Hf.
  - rewrite (uploadToBrainfish_sent w pf a c b text url enc Hc Hu He Hnew).
    cbn [fst]. rewrite failures_app, handleOutcome_no_failure. reflexivity.
Qed.

Lemma main_steps_no_failure (a c p b : JsString) :
  failures (fst (main_steps w a c p b)) = [].
Proof.
  unfold main_steps.
  rewrite await_sync_fst, failures_app, readOASFile_no_failure.
  destruct (snd (readOASFile w p)) as [fd|e]; [|reflexivity].
  rewrite await_sync_fst, failures_app, processOASFile_no_failure.
  destruct (snd (processOASFile w fd)) as [pf|e]; [|reflexivity].
  rewrite await_fst, failures_app, uploadToBrainfish_no_failure.
  destruct (snd (uploadToBrainfish w pf a c b)) as [[res|e]|]; reflexivity.
Qed.

Lemma main_try_no_failure : failures (fst (main_try w)) = [].
Proof.
  destruct (inputs_given w) eqn:H.
  - rewrite (main_try_inputs_given w H). cbn [fst]. rewrite failures_app.
    unfold main_run. rewrite main_steps_no_failure. reflexivity.
  - destruct (main_try_inputs_missing w H) as [name ->]. reflexivity.
Qed.

(** The outputs are set only by a run whose every stage succeeded. *)
Lemma outputs_main_inv :
  outputs (main w) <> [] ->
  inputs_given w = true
  /\ exists fd pf res,
       snd (readOASFile w (getInput w (str "oas_file_path"))) = Ok fd
       /\ snd (processOASFile w fd) = Ok pf
       /\ snd (uploadToBrainfish w pf (getInput w (str "brainfish_api_token"))
                 (getInput w (str "catalog_id")) (input_baseUrl w))
          = Settled (Ok res)
       /\ outputs (main w)
          = [ (str "status",
               check_mark ++ str " OAS file successfully synced to Brainfish!");
              (str "uploaded_file", result_fileName res) ].
Proof.
  rewrite outputs_main.
  destruct (inputs_given w); [|intros H; contradiction H; reflexivity].
  unfold main_run. rewrite outputs_main_steps.
  destruct (snd (readOASFile w _)) as [fd|e] eqn:Hr;
    [|intros H; contradiction H; reflexivity].
  destruct (snd (processOASFile w fd)) as [pf|e] eqn:Hp;
    [|intros H; contradiction H; reflexivity].
  destruct (snd (uploadToBrainfish w pf _ _ _)) as [[res|e]|] eqn:Hup;
    [|intros H; contradiction H; reflexivity
     |intros H; contradiction H; reflexivity].
  intros _. split; [reflexivity|]. exists fd, pf, res. auto.
Qed.

End HandlerFacts.

(** C9. Whatever error a stage raises, main logs it at error level and
    signals failure with the error's message, and neither [status] nor
    [uploaded_file] is set. The outputs are set only in a run whose
    single request drew a status in [200,300), and such a run signals no
    failure. *)
Theorem C9_errors_reach_the_handler {E : Engine} (w : World) :
  (forall t e,
     main_try w = (t, Settled (Err e)) ->
     main w = t ++ [ErrorLog (cross_mark ++ str " Error: " ++ message e);
                    SetFailed (message e)]
     /\ failures (main w) = [message e]
     /\ outputs (main w) = [])
  /\ (outputs (main w) <> [] ->
      failures (main w) = []
      /\ exists r status chunks,
           requests (main w) = [r]
           /\ https_request w r = Response status chunks
           /\ (200 <= status < 300)%Z).
Proof.
  split.
  - intros t e Htry.
    assert (Hmain : main w
                    = t ++ [ErrorLog (cross_mark ++ str " Error: "
                                      ++ message e);
                            SetFailed (message e)]).
    { unfold main. rewrite Htry. reflexivity. }
    split; [exact Hmain|]. split.
    + rewrite Hmain, failures_app.
      pose proof (main_try_no_failure w) as Hnf. rewrite Htry in Hnf.
      cbn [fst] in Hnf. rewrite Hnf. reflexivity.
    + destruct (outputs (main w)) as [|o os] eqn:Hout; [reflexivity|].
      assert (Hne : outputs (main w) <> []) by (rewrite Hout; discriminate).
      destruct (outputs_main_inv w Hne)
        as (Hin & fd & pf & res & Hr & Hp & Hu & _).
      rewrite (main_try_inputs_given w Hin) in Htry.
      inversion Htry as [[Ht Hs]].
      unfold main_run in Hs. rewrite snd_main_steps, Hr, Hp, Hu in Hs.
      discriminate.
  - intros Hne.
    destruct (outputs_main_inv w Hne)
      as (Hin & fd & pf & res & Hr & Hp & Hu & _).
    split.
    + rewrite main_trace, failures_app, main_try_no_failure.
      rewrite (main_try_inputs_given w Hin). cbn [snd].
      unfold main_run. rewrite snd_main_steps, Hr, Hp, Hu. reflexivity.
    + destruct (uploadToBrainfish_Ok w pf _ _ _ res Hu)
        as (r & status & chunks & Hreq & Hout & Hs & _).
      exists r, status, chunks. split; [|auto].
      rewrite requests_main, Hin. unfold main_run.
      rewrite requests_main_steps, Hr, Hp. exact Hreq.
Qed.

Lemma C9_witness :
  let wf := Example.run (str "docs/broken.json") Example.created in
  let ws := Example.run (str "docs/openapi.yaml") Example.created in
  (failures (main wf)
   = [str "Invalid JSON format: " ++ str "Unexpected token in JSON"]
   /\ outputs (main wf) = [])
  /\ (failures (main ws) = []
      /\ exists r status chunks,
           requests (main ws) = [r]
           /\ https_request ws r = Response status chunks
           /\ (200 <= status < 300)%Z).
Proof.
  split.
  - exact (proj2 (proj1 (C9_errors_reach_the_handler
                           (Example.run (str "docs/broken.json")
                                        Example.created))
                        (fst (main_try (Example.run (str "docs/broken.json")
                                                    Example.created)))
                        (InvalidJson (str "Unexpected token in JSON"))
                        eq_refl)).
  - apply (proj2 (C9_errors_reach_the_handler
                    (Example.run (str "docs/openapi.yaml") Example.created))).
    vm_compute. discriminate.
Defined.

(* ================================================================= *)
(** ** Format Normalizer: a document that is no document *)

(** C10, as the code has it. For a [.yaml] or [.yml] file that js-yaml
    loads to [undefined] (a text with no document: an empty file),
    convertYamlToJson throws nothing and returns [undefined], so
    processOASFile returns a payload whose content is not a string. The
    failure comes later, in uploadToBrainfish: [Buffer.from] throws a
    TypeError before any request is made. *)
Theorem C10_no_document_yields_undefined
    {E : Engine} (w : World) (fd : FileData) :
  extension fd = str ".yaml" \/ extension fd = str ".yml" ->
  yaml_load w (content fd) = Loaded VUndefined ->
  convertYamlToJson w (content fd) = Ok None
  /\ (exists pf, snd (processOASFile w fd) = Ok pf
                 /\ processedContent pf = None
                 /\ forall apiToken catalogId baseUrl,
                      requests (fst (uploadToBrainfish w pf apiToken
                                       catalogId baseUrl)) = []
                      /\ exists m,
                           snd (uploadToBrainfish w pf apiToken catalogId
                                  baseUrl) = Settled (Err (TypeError m))).
Proof.
  intros Hext Hload.
  assert (Hc : convertYamlToJson w (content fd) = Ok None).
  { unfold convertYamlToJson. rewrite Hload. reflexivity. }
  split; [exact Hc|].
  rewrite (processOASFile_yaml w fd Hext), Hc. cbn [snd].
  eexists; split; [reflexivity|]. split; [reflexivity|].
  intros apiToken catalogId baseUrl. unfold uploadToBrainfish. cbn.
  split; [reflexivity | eexists; reflexivity].
Qed.

Lemma C10_witness :
  let w := Example.run (str "docs/empty.yaml") Example.created in
  let fd := Example.file_data (str "docs/empty.yaml") in
  convertYamlToJson w (content fd) = Ok None
  /\ (exists pf, snd (processOASFile w fd) = Ok pf
                 /\ processedContent pf = None
                 /\ forall apiToken catalogId baseUrl,
                      requests (fst (uploadToBrainfish w pf apiToken
                                       catalogId baseUrl)) = []
                      /\ exists m,
                           snd (uploadToBrainfish w pf apiToken catalogId
                                  baseUrl) = Settled (Err (TypeError m))).
Proof.
  exact (C10_no_document_yields_undefined
           (Example.run (str "docs/empty.yaml") Example.created)
           (Example.file_data (str "docs/empty.yaml"))
           (or_introl eq_refl) eq_refl).
Defined.

(** C10 as stated fails on its second example. A file of comments only
    is one document, [null]: convertYamlToJson returns the text [null],
    which is JSON, and the run uploads it and succeeds. *)
Lemma C10_counterexample :
  let w := Example.run (str "docs/comment.yaml") Example.created in
  let fd := Example.file_data (str "docs/comment.yaml") in
  content fd = str "# nothing yet" ++ [10%N]
  /\ yaml_load w (content fd) = Loaded VNull
  /\ convertYamlToJson w (content fd) = Ok (Some (str "null"))
  /\ JSON_parse (str "null") = Ok VNull
  /\ List.map (fun r => List.map value (body r)) (requests (main w))
     = [[Utf8.encode (str "null")]]
  /\ failures (main w) = []
  /\ outputs (main w)
     = [ (str "status",
          check_mark ++ str " OAS file successfully synced to Brainfish!");
         (str "uploaded_file", str "comment.json") ].
Proof. vm_compute. repeat split. Qed.

(* ================================================================= *)
(** ** Catalog Uploader: the request *)

(** C8, as the code has it. For a payload whose content is a string, a
    base URL that [new URL] accepts, a catalog identifier that
    [encodeURIComponent] accepts, and a token and a form boundary that
    [https.request] takes for header values (no control character but
    the tab and no character above U+00FF), uploadToBrainfish issues
    exactly one request: a POST to the hostname of the base URL (on its
    port, or 443 for https and 80 otherwise), with path
    [/api/catalogs.upload?catalogId=] followed by the percent-encoded
    identifier, with the multipart content type of the form and
    [Authorization: Bearer <token>] as headers, and with a form of one
    part: field [file], content type [application/json], the payload's
    file name, and the UTF-8 octets of the payload's text. *)
Theorem C8_one_post_request
    {E : Engine} (w : World) (pf : ProcessedFile)
    (apiToken catalogId baseUrl text encoded : JsString) (url : URL) :
  processedContent pf = Some text ->
  URL_parse w baseUrl = Some url ->
  code_units catalogId = true ->
  encodeURIComponent catalogId = Some encoded ->
  checkInvalidHeaderChar apiToken = false ->
  checkInvalidHeaderChar (boundary w) = false ->
  requests (fst (uploadToBrainfish w pf apiToken catalogId baseUrl))
  = [ {| options :=
           {| method := str "POST";
              hostname := url_hostname url;
              port := if truthy (url_port url) then PortString (url_port url)
                      else if JsString_eqb (url_protocol url) (str "https:")
                      then PortNumber 443
                      else PortNumber 80;
              path := str "/api/catalogs.upload?catalogId=" ++ encoded;
              headers :=
                [ (str "content-type",
                   str "multipart/form-data; boundary=" ++ boundary w);
                  (str "Authorization", str "Bearer " ++ apiToken) ] |};
         body := [ {| field := str "file";
                      value := Utf8.encode text;
                      filename := processedFileName pf;
                      contentType := str "application/json" |} ] |} ].
Proof.
  intros Hc Hu Hcu He Htoken Hboundary.
  pose proof (new_ClientRequest_accepts w url encoded apiToken
                (encodeURIComponent_safe catalogId encoded Hcu He)
                Hboundary Htoken) as Hnew.
  rewrite (uploadToBrainfish_requests w pf apiToken catalogId baseUrl text url
             encoded Hc Hu He Hnew).
  reflexivity.
Qed.

Lemma C8_witness :
  requests (fst (uploadToBrainfish
                   (Example.run (str "docs/openapi.json") Example.created)
                   (Example.processed (str "docs/openapi.json"))
                   (str "bf_token") (str "team a/b")
                   (str "http://localhost:8080")))
  = [ {| options :=
           {| method := str "POST";
              hostname := str "localhost";
              port := PortString (str "8080");
              path := str "/api/catalogs.upload?catalogId="
                      ++ str "team%20a%2Fb";
              headers :=
                [ (str "content-type",
                   str "multipart/form-data; boundary="
                   ++ str "--------------------------735323031399963166993862");
                  (str "Authorization", str "Bearer " ++ str "bf_token") ] |};
         body := [ {| field := str "file";
                      value := Utf8.encode Example.json_openapi;
                      filename := str "openapi.json";
                      contentType := str "application/json" |} ] |} ].
Proof.
  exact (C8_one_post_request
           (Example.run (str "docs/openapi.json") Example.created)
           (Example.processed (str "docs/openapi.json"))
           (str "bf_token") (str "team a/b") (str "http://localhost:8080")
           Example.json_openapi (str "team%20a%2Fb")
           {| url_protocol := str "http:";
              url_hostname := str "localhost";
              url_port := str "8080" |}
           eq_refl eq_refl eq_refl eq_refl eq_refl eq_refl).
Defined.

(** C8 as stated fails in two ways. Where the identifier needs escaping,
    the path of the request for catalog [team a/b] does not end in
    [team a/b]. And not every token makes a request: for a token with a
    line feed in it [https.request] throws, the promise is rejected with
    a TypeError and nothing is sent. *)
Lemma C8_counterexample :
  ~ (exists r,
       requests (fst (uploadToBrainfish
                        (Example.run (str "docs/openapi.json") Example.created)
                        (Example.processed (str "docs/openapi.json"))
                        (str "bf_token") (str "team a/b")
                        (str "https://app.brainfi.sh"))) = [r]
       /\ path (options r)
          = str "/api/catalogs.upload?catalogId=" ++ str "team a/b")
  /\ (let upload :=
        uploadToBrainfish
          (Example.run (str "docs/openapi.json") Example.created)
          (Example.processed (str "docs/openapi.json"))
          (str "tok" ++ [10%N] ++ str "en") (str "8a2abadd-1140")
          (str "https://app.brainfi.sh") in
      requests (fst upload) = []
      /\ snd upload
         = Settled (Err (TypeError
                           (str "Invalid character in header content ["
                            ++ [34%N] ++ str "Authorization"
                            ++ [34%N; 93%N])))).
Proof.
  split.
  - intros (r & Hreq & Hpath).
    vm_compute in Hreq. inversion Hreq; subst r.
    vm_compute in Hpath. discriminate.
  - split; reflexivity.
Qed.

(* ================================================================= *)
(** ** Format Normalizer: the file name *)

(** C3 at [docs/API.YAML]. The extension is lower-cased for the
    dispatch, so the file is converted from YAML, but the pattern that
    renames it looks for a lower-case extension: the JSON payload is
    uploaded, and reported, under the name [API.YAML]. *)
Theorem C3_uppercase_extension_is_not_renamed :
  let w := Example.run (str "docs/API.YAML") Example.created in
  extension (Example.file_data (str "docs/API.YAML")) = str ".yaml"
  /\ List.map (fun r => List.map filename (body r)) (requests (main w))
     = [[str "API.YAML"]]
  /\ List.map (fun r => List.map value (body r)) (requests (main w))
     = [[Utf8.encode
           ([123; 10; 32; 32; 34]%N ++ str "openapi" ++ [34; 58; 32; 34]%N
            ++ str "3.0.0" ++ [34; 44; 10; 32; 32; 34]%N ++ str "x-rate-limit"
            ++ [34; 58; 32]%N ++ str "60" ++ [10; 125]%N)]]
  /\ outputs (main w)
     = [ (str "status",
          check_mark ++ str " OAS file successfully synced to Brainfish!");
         (str "uploaded_file", str "API.YAML") ].
Proof. vm_compute. repeat split. Qed.

(* ================================================================= *)
(** ** Format Normalizer: JSON passes through *)

Lemma uploadToBrainfish_body {E : Engine} (w : World) (pf : ProcessedFile)
    (a c b : JsString) (r : Request) :
  In r (requests (fst (uploadToBrainfish w pf a c b))) ->
  exists text,
    processedContent pf = Some text
    /\ body r = uploadForm (Utf8.encode text) (processedFileName pf).
Proof.
  destruct (uploadToBrainfish_cases w pf a c b)
    as [(Hnone & _) | (text & url & enc & Hc & Hu & He & Hnew)].
  - rewrite Hnone. intros [].
  - rewrite (uploadToBrainfish_requests w pf a c b text url enc Hc Hu He Hnew).
    intros [<- | []]. exists text. split; [exact Hc | reflexivity].
Qed.

(** C2. For a file with extension [.json] (in any case) whose content is
    valid JSON, that is well-formed UTF-8 that [JSON.parse] accepts,
    processOASFile hands on the very text it was given and the file name
    unchanged, and the file part of every request that uploadToBrainfish
    then issues, and so of every request of a run of main on that file,
    carries the octets of the source file and its name. *)
Theorem C2_json_passes_through
    {E : Engine} (w : World) (filePath : JsString) (bytes : Bytes)
    (v : JsValue) :
  fs w filePath = Some (RegularFile bytes) ->
  Utf8.well_formed bytes = true ->
  toLowerCase (Path.extname filePath) = str ".json" ->
  JSON_parse (Utf8.decode bytes) = Ok v ->
  let part := {| field := str "file";
                 value := bytes;
                 filename := Path.basename filePath;
                 contentType := str "application/json" |} in
  (exists fd pf,
     snd (readOASFile w filePath) = Ok fd
     /\ snd (processOASFile w fd) = Ok pf
     /\ processedContent pf = Some (content fd)
     /\ processedFileName pf = Path.basename filePath
     /\ forall apiToken catalogId baseUrl r,
          In r (requests (fst (uploadToBrainfish w pf apiToken catalogId
                                 baseUrl))) ->
          body r = [part])
  /\ (getInput w (str "oas_file_path") = filePath ->
      forall r, In r (requests (main w)) -> body r = [part]).
Proof.
  intros Hfs Hwf Hext Hparse part.
  pose (fd := {| content := Utf8.decode bytes;
                 extension := toLowerCase (Path.extname filePath);
                 fileName := Path.basename filePath;
                 size := N.of_nat (List.length bytes) |}).
  pose (pf := {| fileData := fd;
                 processedContent := Some (content fd);
                 processedFileName := fileName fd |}).
  assert (Hread : snd (readOASFile w filePath) = Ok fd)
    by exact (readOASFile_file w filePath bytes Hfs).
  assert (Hproc : snd (processOASFile w fd) = Ok pf).
  { rewrite (processOASFile_json w fd Hext). cbn [snd content fd].
    rewrite Hparse. reflexivity. }
  assert (Hbody : forall apiToken catalogId baseUrl r,
            In r (requests (fst (uploadToBrainfish w pf apiToken catalogId
                                   baseUrl))) ->
            body r = [part]).
  { intros apiToken catalogId baseUrl r Hin.
    destruct (uploadToBrainfish_body w pf apiToken catalogId baseUrl r Hin)
      as (text & Htext & ->).
    cbn in Htext. inversion Htext; subst text.
    unfold uploadForm. rewrite (utf8_roundtrip bytes Hwf). reflexivity. }
  split.
  - exists fd, pf. repeat split; assumption.
  - intros Hpath r. rewrite requests_main.
    destruct (inputs_given w); [|intros []].
    unfold main_run. rewrite requests_main_steps, Hpath, Hread, Hproc.
    apply Hbody.
Qed.

Lemma C2_witness :
  let w := Example.run (str "docs/openapi.json") Example.created in
  let part := {| field := str "file";
                 value := Example.json_openapi;
                 filename := str "openapi.json";
                 contentType := str "application/json" |} in
  (exists fd pf,
     snd (readOASFile w (str "docs/openapi.json")) = Ok fd
     /\ snd (processOASFile w fd) = Ok pf
     /\ processedContent pf = Some (content fd)
     /\ processedFileName pf = str "openapi.json"
     /\ forall apiToken catalogId baseUrl r,
          In r (requests (fst (uploadToBrainfish w pf apiToken catalogId
                                 baseUrl))) ->
          body r = [part])
  /\ forall r, In r (requests (main w)) -> body r = [part].
Proof.
  pose proof (C2_json_passes_through
                (Example.run (str "docs/openapi.json") Example.created)
                (str "docs/openapi.json") Example.json_openapi
                (VObject [(str "openapi", VString (str "3.0.0"))])
                eq_refl eq_refl eq_refl eq_refl) as [Hstage Hmain].
  split; [exact Hstage | exact (Hmain eq_refl)].
Defined.

(* ================================================================= *)
(** ** Format Normalizer: YAML becomes JSON *)

(** C1, as the code has it. For a [.yaml] or [.yml] file that js-yaml
    loads to a value tree JSON can write down (null, booleans, finite
    numbers, strings, arrays and objects of these: no [undefined], no NaN
    and no infinity), the payload processOASFile produces is JSON text,
    and [JSON.parse] of it is deep-equal to the tree that js-yaml loaded.
    The engine is any that keeps the laws of the decimal conversions. *)
Theorem C1_serializable_yaml_round_trips
    {E : Engine} (L : EngineLaws E) (w : World) (fd : FileData)
    (v : JsValue) :
  extension fd = str ".yaml" \/ extension fd = str ".yml" ->
  yaml_load w (content fd) = Loaded v ->
  well_formed_value v = true ->
  json_serializable v = true ->
  exists pf text parsed,
    snd (processOASFile w fd) = Ok pf
    /\ processedContent pf = Some text
    /\ JSON_parse text = Ok parsed
    /\ deepEqual parsed v = true.
Proof.
  intros Hext Hload Hwf Hser.
  destruct (JSON_parse_stringify v Hser Hwf) as (text & Htext & Hparse).
  rewrite (processOASFile_yaml w fd Hext). unfold convertYamlToJson.
  rewrite Hload, Htext. cbn [snd].
  eexists _, text, (reread v). split; [reflexivity|].
  split; [reflexivity|]. split; [exact Hparse|].
  apply deepEqual_reread; assumption.
Qed.

Lemma C1_witness :
  let w := Example.run (str "docs/openapi.yaml") Example.created in
  let fd := Example.file_data (str "docs/openapi.yaml") in
  exists pf text parsed,
    snd (processOASFile w fd) = Ok pf
    /\ processedContent pf = Some text
    /\ JSON_parse text = Ok parsed
    /\ deepEqual parsed Example.value_openapi = true.
Proof.
  exact (C1_serializable_yaml_round_trips IntegerEngine_laws
           (Example.run (str "docs/openapi.yaml") Example.created)
           (Example.file_data (str "docs/openapi.yaml"))
           Example.value_openapi
           (or_introl eq_refl) eq_refl eq_refl eq_refl).
Defined.

(** C1 as stated fails on valid YAML that holds what JSON cannot write.
    js-yaml loads [x-ratio: .nan] to an object with a NaN; the payload
    says [null] in its place, so what [JSON.parse] reads from it is not
    deep-equal to the tree. And for an empty file, a YAML stream of no
    document, js-yaml returns [undefined], and the payload has no text
    at all. *)
Lemma C1_counterexample :
  let w := Example.run (str "docs/ratio.yml") Example.created in
  let fd := Example.file_data (str "docs/ratio.yml") in
  let w' := Example.run (str "docs/empty.yaml") Example.created in
  let fd' := Example.file_data (str "docs/empty.yaml") in
  (yaml_load w (content fd) = Loaded Example.value_nan
   /\ ~ (exists pf text parsed,
           snd (processOASFile w fd) = Ok pf
           /\ processedContent pf = Some text
           /\ JSON_parse text = Ok parsed
           /\ deepEqual parsed Example.value_nan = true))
  /\ (content fd' = []
      /\ yaml_load w' (content fd') = Loaded VUndefined
      /\ ~ (exists pf text,
              snd (processOASFile w' fd') = Ok pf
              /\ processedContent pf = Some text)).
Proof.
  split; [split; [reflexivity|] | split; [reflexivity | split; [reflexivity|]]].
  - intros (pf & text & parsed & Hpf & Htext & Hparse & Heq).
    vm_compute in Hpf. inversion Hpf; subst pf.
    cbn [processedContent] in Htext. inversion Htext; subst text.
    vm_compute in Hparse. inversion Hparse; subst parsed.
    vm_compute in Heq. discriminate.
  - intros (pf & text & Hpf & Htext).
    vm_compute in Hpf. inversion Hpf; subst pf.
    cbn [processedContent] in Htext. discriminate.
Qed.

(* ================================================================= *)
(** ** Remarks *)

(** In C2 the octets must be well-formed UTF-8. The lone octet FF inside
    a string literal is read as U+FFFD, which [JSON.parse] accepts, and
    written back as EF BF BD. *)
Remark ill_formed_octets_are_replaced :
  let bytes := [34; 255; 34]%N in
  Utf8.well_formed bytes = false
  /\ JSON_parse (Utf8.decode bytes) = Ok (VString [65533%N])
  /\ Utf8.encode (Utf8.decode bytes) = [34; 239; 191; 189; 34]%N.
Proof. repeat split. Qed.

(** A byte order mark is kept by the decoder, and [JSON.parse] rejects a
    text that starts with one. *)
Remark byte_order_mark_is_rejected :
  exists m,
    JSON_parse (Utf8.decode ([239; 187; 191]%N ++ Example.json_openapi))
    = Err m.
Proof. eexists. reflexivity. Qed.

(** With the extension in lower case the rename of C3 does happen: the
    payload is named after the file, with [.json] for its extension. *)
Remark lowercase_extension_is_renamed
    {E : Engine} (w : World) (filePath : JsString) (fd : FileData)
    (pf : ProcessedFile) :
  Path.extname filePath = str ".yaml" \/ Path.extname filePath = str ".yml" ->
  extension fd = str ".yaml" \/ extension fd = str ".yml" ->
  snd (readOASFile w filePath) = Ok fd ->
  snd (processOASFile w fd) = Ok pf ->
  exists stem,
    Path.basename filePath = stem ++ Path.extname filePath
    /\ processedFileName pf = stem ++ str ".json".
Proof.
  intros Hname Hext Hread Hproc.
  destruct (readOASFile_Ok w filePath fd Hread) as (bytes & _ & ->).
  rewrite (processOASFile_yaml w _ Hext) in Hproc. cbn [snd] in Hproc.
  destruct (convertYamlToJson w _) as [text|e]; [|discriminate].
  inversion Hproc; subst pf. cbn [processedFileName fileName].
  destruct (basename_ends_with_extname filePath) as [stem Hstem].
  exists stem. split; [exact Hstem|]. rewrite Hstem.
  destruct Hname as [-> | ->].
  - apply replace_yaml_extension_yaml.
  - apply replace_yaml_extension_yml.
Qed.

(** A directory exists, so readOASFile does not report it as missing;
    reading it is what fails. *)
Remark directory_is_not_missing :
  let w := Example.run (str "docs") Example.created in
  fs_existsSync w (str "docs") = true
  /\ snd (readOASFile w (str "docs"))
     = Err (SystemError (str "EISDIR: illegal operation on a directory, read"))
  /\ requests (main w) = [].
Proof. repeat split. Qed.

(* ================================================================= *)
(** * Further properties of the action *)

(** ** The inputs of the step *)

(** X1. When a required input is not set, main does nothing but report
    the first one that is missing, in the order token, catalog, path:
    it logs the error and signals failure with ["<name> is required"],
    without a line of progress, a look at the file or a request. *)
Theorem main_requires_inputs {E : Engine} (w : World) :
  inputs_given w = false ->
  exists name,
    main w = [ErrorLog (cross_mark ++ str " Error: " ++ name
                        ++ str " is required");
              SetFailed (name ++ str " is required")]
    /\ (truthy (getInput w (str "brainfish_api_token")) = false
        /\ name = str "brainfish_api_token"
        \/ truthy (getInput w (str "brainfish_api_token")) = true
           /\ truthy (getInput w (str "catalog_id")) = false
           /\ name = str "catalog_id"
        \/ truthy (getInput w (str "brainfish_api_token")) = true
           /\ truthy (getInput w (str "catalog_id")) = true
           /\ truthy (getInput w (str "oas_file_path")) = false
           /\ name = str "oas_file_path").
Proof.
  unfold inputs_given, main, main_try, require_input. intros H.
  destruct (truthy (getInput w (str "brainfish_api_token"))).
  - destruct (truthy (getInput w (str "catalog_id"))).
    + destruct (truthy (getInput w (str "oas_file_path"))); [discriminate|].
      exists (str "oas_file_path"). split; [reflexivity | auto 10].
    + exists (str "catalog_id"). split; [reflexivity | auto 10].
  - exists (str "brainfish_api_token"). split; [reflexivity | auto].
Qed.

Lemma main_requires_inputs_witness :
  exists name,
    main (Example.world (str "bf_token") [] (str "docs/openapi.json") []
                        Example.created)
    = [ErrorLog (cross_mark ++ str " Error: " ++ name ++ str " is required");
       SetFailed (name ++ str " is required")]
    /\ name = str "catalog_id".
Proof.
  destruct (main_requires_inputs
              (Example.world (str "bf_token") [] (str "docs/openapi.json") []
                             Example.created) eq_refl)
    as (name & Hmain & [[Hf _] | [(_ & _ & Hname) | (_ & Hf & _)]]).
  - discriminate Hf.
  - exists name. split; assumption.
  - discriminate Hf.
Defined.

(** ** One request, and only at the end *)

Section RequestFacts.
Context {E : Engine}.
Variable w : World.

(** The requests of an upload: none, or the one built from its
    arguments, which [https.request] took. *)
Lemma uploadToBrainfish_requests_cases (pf : ProcessedFile)
    (a c b : JsString) :
  requests (fst (uploadToBrainfish w pf a c b)) = []
  \/ exists text url enc,
       processedContent pf = Some text
       /\ URL_parse w b = Some url
       /\ encodeURIComponent c = Some enc
       /\ new_ClientRequest (requestOptions w url enc a) = ret tt
       /\ requests (fst (uploadToBrainfish w pf a c b))
          = [ {| options := requestOptions w url enc a;
                 body := uploadForm (Utf8.encode text)
                                    (processedFileName pf) |} ].
Proof.
  destruct (uploadToBrainfish_cases w pf a c b)
    as [(Hnone & _) | (text & url & enc & Hc & Hu & He & Hnew)].
  - left. exact Hnone.
  - right. exists text, url, enc. repeat split; try assumption.
    apply uploadToBrainfish_requests; assumption.
Qed.

(** The requests of a run: none, or the one of its upload. *)
Lemma requests_main_cases :
  requests (main w) = []
  \/ inputs_given w = true
     /\ exists fd pf text url enc,
          snd (readOASFile w (getInput w (str "oas_file_path"))) = Ok fd
          /\ snd (processOASFile w fd) = Ok pf
          /\ processedContent pf = Some text
          /\ URL_parse w (input_baseUrl w) = Some url
          /\ encodeURIComponent (getInput w (str "catalog_id")) = Some enc
          /\ new_ClientRequest
               (requestOptions w url enc
                  (getInput w (str "brainfish_api_token"))) = ret tt
          /\ requests (main w)
             = [ {| options :=
                      requestOptions w url enc
                        (getInput w (str "brainfish_api_token"));
                    body := uploadForm (Utf8.encode text)
                                       (processedFileName pf) |} ].
Proof.
  rewrite requests_main.
  destruct (inputs_given w); [|left; reflexivity].
  unfold main_run. rewrite requests_main_steps.
  destruct (snd (readOASFile w _)) as [fd|e] eqn:Hr; [|left; reflexivity].
  destruct (snd (processOASFile w fd)) as [pf|e] eqn:Hp; [|left; reflexivity].
  destruct (uploadToBrainfish_requests_cases pf
              (getInput w (str "brainfish_api_token"))
              (getInput w (str "catalog_id")) (input_baseUrl w))
    as [Hnone | (text & url & enc & Hc & Hu & He & Hnew & Hreq)].
  - left. exact Hnone.
  - right. split; [reflexivity|]. exists fd, pf, text, url, enc. auto 10.
Qed.

End RequestFacts.

(** X2. A run makes at most one request: there is no retry and no
    second call, whatever the files, the inputs and the server do. *)
Theorem main_sends_at_most_one_request {E : Engine} (w : World) :
  (List.length (requests (main w)) <= 1)%nat.
Proof.
  destruct (requests_main_cases w)
    as [-> | (_ & fd & pf & text & url & enc & _ & _ & _ & _ & _ & _ & ->)];
    cbn [List.length]; lia.
Qed.

(** X3. A request of a run is made only after the three inputs were
    found set, the file was read, processOASFile returned a payload
    with text and [https.request] took the options; it is then the only
    request, built from the inputs of the step: the token in the
    Authorization header, the percent-encoded catalog in the path, the
    host of the base URL, and the payload as the one part of the form. *)
Theorem main_request_comes_from_the_inputs
    {E : Engine} (w : World) (r : Request) :
  In r (requests (main w)) ->
  inputs_given w = true
  /\ exists fd pf text url enc,
       snd (readOASFile w (getInput w (str "oas_file_path"))) = Ok fd
       /\ snd (processOASFile w fd) = Ok pf
       /\ processedContent pf = Some text
       /\ URL_parse w (input_baseUrl w) = Some url
       /\ encodeURIComponent (getInput w (str "catalog_id")) = Some enc
       /\ requests (main w) = [r]
       /\ r = {| options :=
                   requestOptions w url enc
                     (getInput w (str "brainfish_api_token"));
                 body := uploadForm (Utf8.encode text)
                                    (processedFileName pf) |}
       /\ new_ClientRequest (options r) = ret tt.
Proof.
  intros Hin.
  destruct (requests_main_cases w)
    as [Hnone | (Hgiven & fd & pf & text & url & enc & Hr & Hp & Hc & Hu
                 & He & Hnew & Hreq)].
  - rewrite Hnone in Hin. destruct Hin.
  - split; [exact Hgiven|]. exists fd, pf, text, url, enc.
    rewrite Hreq in Hin. destruct Hin as [<- | []]. auto 10.
Qed.

Lemma main_request_comes_from_the_inputs_witness :
  let w := Example.run (str "docs/openapi.json") Example.created in
  let r := {| options :=
                requestOptions w
                  {| url_protocol := str "https:";
                     url_hostname := str "app.brainfi.sh";
                     url_port := [] |}
                  (str "8a2abadd-1140") (str "bf_token");
              body := uploadForm (Utf8.encode Example.json_openapi)
                                 (str "openapi.json") |} in
  inputs_given w = true /\ requests (main w) = [r]
  /\ new_ClientRequest (options r) = ret tt.
Proof.
  intros w r.
  destruct (main_request_comes_from_the_inputs w r (or_introl eq_refl))
    as (Hgiven & fd & pf & text & url & enc & _ & _ & _ & _ & _ & Hreq & _
        & Hnew).
  split; [exact Hgiven | split; [exact Hreq | exact Hnew]].
Defined.

(** ** How a run ends *)

Section EndFacts.
Context {E : Engine}.
Variable w : World.

Lemma readOASFile_Err_kind (p : JsString) (e : Error) :
  snd (readOASFile w p) = Err e -> kind e <> KUploadFailed.
Proof.
  destruct (fs w p) as [[bytes|sz]|] eqn:H.
  - rewrite (readOASFile_file w p bytes H). discriminate.
  - rewrite (readOASFile_directory w p sz H). intros Heq; inversion Heq.
    discriminate.
  - rewrite (readOASFile_missing w p H). intros Heq; inversion Heq.
    discriminate.
Qed.

Lemma processOASFile_Err_kind (fd : FileData) (e : Error) :
  snd (processOASFile w fd) = Err e -> kind e <> KUploadFailed.
Proof.
  destruct (extension_cases (extension fd)) as [H | [H | (H1 & H2 & H3)]].
  - rewrite (processOASFile_yaml w fd H). unfold convertYamlToJson.
    destruct (yaml_load w (content fd)); cbn [snd];
      intros Heq; inversion Heq; discriminate.
  - rewrite (processOASFile_json w fd H).
    destruct (JSON_parse (content fd)); cbn [snd];
      intros Heq; inversion Heq; discriminate.
  - rewrite (processOASFile_other w fd H1 H2 H3).
    intros Heq; inversion Heq; discriminate.
Qed.

Lemma uploadToBrainfish_Err_kind (pf : ProcessedFile) (a c b : JsString)
    (e : Error) :
  snd (uploadToBrainfish w pf a c b) = Settled (Err e) ->
  (kind e = KUploadFailed
   <-> requests (fst (uploadToBrainfish w pf a c b)) <> []).
Proof.
  destruct (uploadToBrainfish_requests_cases w pf a c b)
    as [Hnone | (text & url & enc & Hc & Hu & He & Hnew & Hreq)].
  - intros Herr. rewrite Hnone.
    assert (Hk : kind e = KOther).
    { destruct (uploadToBrainfish_cases w pf a c b)
        as [(_ & _ & _ & e' & He' & Hk) | (text & url & enc & Hc & Hu & He
                                           & Hnew)].
      - congruence.
      - rewrite (uploadToBrainfish_requests w pf a c b text url enc
                   Hc Hu He Hnew) in Hnone. discriminate. }
    rewrite Hk. split; [discriminate | intros H; contradiction H; reflexivity].
  - rewrite (uploadToBrainfish_issued w pf a c b _ Hreq), Hreq.
    rewrite handleOutcome_snd.
    destruct (https_request w _) as [status chunks | m |].
    + destruct ((200 <=? status)%Z && (status <? 300)%Z); [discriminate|].
      intros Heq; inversion Heq. split; [discriminate | reflexivity].
    + intros Heq; inversion Heq. split; [discriminate | reflexivity].
    + discriminate.
Qed.

Lemma main_try_Ok (t : list Event) (u : unit) :
  main_try w = (t, Settled (Ok u)) ->
  inputs_given w = true
  /\ exists fd pf res,
       snd (readOASFile w (getInput w (str "oas_file_path"))) = Ok fd
       /\ snd (processOASFile w fd) = Ok pf
       /\ snd (uploadToBrainfish w pf (getInput w (str "brainfish_api_token"))
                 (getInput w (str "catalog_id")) (input_baseUrl w))
          = Settled (Ok res).
Proof.
  intros Htry. destruct (inputs_given w) eqn:Hgiven.
  - split; [reflexivity|].
    rewrite (main_try_inputs_given w Hgiven) in Htry.
    inversion Htry as [[Ht Hs]]. unfold main_run in Hs.
    rewrite snd_main_steps in Hs.
    destruct (snd (readOASFile w _)) as [fd|e] eqn:Hr; [|discriminate].
    destruct (snd (processOASFile w fd)) as [pf|e] eqn:Hp; [|discriminate].
    destruct (snd (uploadToBrainfish w pf _ _ _)) as [[res|e]|] eqn:Hu;
      [|discriminate|discriminate].
    exists fd, pf, res. repeat split; assumption.
  - destruct (main_try_inputs_missing w Hgiven) as [name Hm].
    rewrite Hm in Htry. discriminate.
Qed.

(** A run stays pending only on a request that is never answered. *)
Lemma main_try_Pending :
  snd (main_try w) = Pending ->
  exists r, requests (main w) = [r] /\ https_request w r = Unsettled.
Proof.
  intros Htry. destruct (inputs_given w) eqn:Hgiven.
  - rewrite (main_try_inputs_given w Hgiven) in Htry. cbn [snd] in Htry.
    unfold main_run in Htry. rewrite snd_main_steps in Htry.
    destruct (snd (readOASFile w _)) as [fd|e] eqn:Hr; [|discriminate].
    destruct (snd (processOASFile w fd)) as [pf|e] eqn:Hp; [|discriminate].
    destruct (snd (uploadToBrainfish w pf _ _ _)) as [[res|e]|] eqn:Hu;
      [discriminate|discriminate|].
    destruct (uploadToBrainfish_requests_cases w pf
                (getInput w (str "brainfish_api_token"))
                (getInput w (str "catalog_id")) (input_baseUrl w))
      as [Hnone | (text & url & enc & _ & _ & _ & _ & Hreq)].
    + destruct (uploadToBrainfish_cases w pf
                  (getInput w (str "brainfish_api_token"))
                  (getInput w (str "catalog_id")) (input_baseUrl w))
        as [(_ & _ & _ & e & He & _) | (text & url & enc & Hc & Hu' & He
                                        & Hnew)].
      * congruence.
      * rewrite (uploadToBrainfish_requests w pf _ _ _ text url enc
                   Hc Hu' He Hnew) in Hnone. discriminate.
    + eexists. split.
      * rewrite requests_main, Hgiven. unfold main_run.
        rewrite requests_main_steps, Hr, Hp. exact Hreq.
      * rewrite (uploadToBrainfish_issued w pf _ _ _ _ Hreq) in Hu.
        rewrite handleOutcome_snd in Hu.
        destruct (https_request w _) as [status chunks | m |];
          [|discriminate|reflexivity].
        destruct ((200 <=? status)%Z && (status <? 300)%Z); discriminate.
  - destruct (main_try_inputs_missing w Hgiven) as [name Hm].
    rewrite Hm in Htry. discriminate.
Qed.

Lemma readOASFile_no_error_log (p : JsString) :
  error_logs (fst (readOASFile w p)) = [].
Proof.
  unfold readOASFile. destruct (fs w p) as [[bytes|sz]|]; reflexivity.
Qed.

Lemma processOASFile_no_error_log (fd : FileData) :
  error_logs (fst (processOASFile w fd)) = [].
Proof.
  destruct (extension_cases (extension fd)) as [H | [H | (H1 & H2 & H3)]].
  - rewrite (processOASFile_yaml w fd H); reflexivity.
  - rewrite (processOASFile_json w fd H); reflexivity.
  - rewrite (processOASFile_other w fd H1 H2 H3); reflexivity.
Qed.

End EndFacts.

(** X4. A run whose request, if it makes one, is answered (by a
    response that ends or by an error on the request) ends in one of two
    ways and never in between: either it sets both outputs, [status] and
    [uploaded_file], and signals no failure, or it sets no output and
    signals exactly one failure, the message of the error that stopped
    it. *)
Theorem main_succeeds_or_fails {E : Engine} (w : World) :
  (forall r, In r (requests (main w)) -> https_request w r <> Unsettled) ->
  (exists name,
     outputs (main w)
     = [ (str "status",
          check_mark ++ str " OAS file successfully synced to Brainfish!");
         (str "uploaded_file", name) ]
     /\ failures (main w) = [])
  \/ (outputs (main w) = []
      /\ exists e, snd (main_try w) = Settled (Err e)
                   /\ failures (main w) = [message e]).
Proof.
  intros Hsettles.
  destruct (main_try w) as [t [[u|e]|]] eqn:Htry.
  - left. destruct (main_try_Ok w t u Htry)
      as (Hgiven & fd & pf & res & Hr & Hp & Hu).
    exists (result_fileName res). split.
    + rewrite outputs_main, Hgiven. unfold main_run.
      rewrite outputs_main_steps, Hr, Hp, Hu. reflexivity.
    + rewrite main_trace, failures_app, main_try_no_failure, Htry.
      reflexivity.
  - right. split.
    + destruct (outputs (main w)) as [|o os] eqn:Hout; [reflexivity|].
      assert (Hne : outputs (main w) <> []) by (rewrite Hout; discriminate).
      destruct (outputs_main_inv w Hne)
        as (Hin & fd & pf & res & Hr & Hp & Hu & _).
      rewrite (main_try_inputs_given w Hin) in Htry.
      inversion Htry as [[Ht Hs]].
      unfold main_run in Hs. rewrite snd_main_steps, Hr, Hp, Hu in Hs.
      discriminate.
    + exists e. split; [reflexivity|].
      rewrite main_trace, failures_app, main_try_no_failure, Htry.
      reflexivity.
  - assert (Hp : snd (main_try w) = Pending) by (rewrite Htry; reflexivity).
    destruct (main_try_Pending w Hp) as (r & Hreq & Hout).
    exfalso. apply (Hsettles r); [rewrite Hreq; left; reflexivity | exact Hout].
Qed.

Lemma main_succeeds_or_fails_witness :
  let w := Example.run (str "docs/openapi.json") Example.server_error in
  (exists name,
     outputs (main w)
     = [ (str "status",
          check_mark ++ str " OAS file successfully synced to Brainfish!");
         (str "uploaded_file", name) ]
     /\ failures (main w) = [])
  \/ (outputs (main w) = []
      /\ exists e, snd (main_try w) = Settled (Err e)
                   /\ failures (main w) = [message e]).
Proof.
  apply (main_succeeds_or_fails
           (Example.run (str "docs/openapi.json") Example.server_error)).
  intros r _. discriminate.
Defined.

(** X17. A run whose request is never answered, because the connection
    hangs or the response is cut before its end, neither succeeds nor
    fails: its request is made, and then it sets no output, signals no
    failure and logs no error. Nothing in the action bounds the wait. *)
Theorem main_waits_for_an_answer
    {E : Engine} (w : World) (r : Request) :
  In r (requests (main w)) ->
  https_request w r = Unsettled ->
  snd (main_try w) = Pending
  /\ outputs (main w) = []
  /\ failures (main w) = []
  /\ error_logs (main w) = [].
Proof.
  intros Hin Hout.
  destruct (requests_main_cases w)
    as [Hnone | (Hgiven & fd & pf & text & url & enc & Hr & Hp & Hc & Hu
                 & He & Hnew & Hreq)].
  - rewrite Hnone in Hin. destruct Hin.
  - rewrite Hreq in Hin. destruct Hin as [<- | []].
    assert (Hup : uploadToBrainfish w pf
                    (getInput w (str "brainfish_api_token"))
                    (getInput w (str "catalog_id")) (input_baseUrl w)
                  = ([Info (str "Uploading " ++ processedFileName pf
                            ++ str " to Brainfish catalog: "
                            ++ getInput w (str "catalog_id"));
                      Info (str "Making request to: " ++ input_baseUrl w
                            ++ str "/api/catalogs.upload?catalogId=" ++ enc);
                      HttpsRequest
                        {| options :=
                             requestOptions w url enc
                               (getInput w (str "brainfish_api_token"));
                           body := uploadForm (Utf8.encode text)
                                              (processedFileName pf) |}],
                     Pending)).
    { rewrite (uploadToBrainfish_sent w pf _ _ _ text url enc Hc Hu He Hnew).
      rewrite Hout. reflexivity. }
    assert (Htry : snd (main_try w) = Pending).
    { rewrite (main_try_inputs_given w Hgiven). cbn [snd]. unfold main_run.
      rewrite snd_main_steps, Hr, Hp, Hup. reflexivity. }
    split; [exact Htry|]. split; [|split].
    + rewrite outputs_main, Hgiven. unfold main_run.
      rewrite outputs_main_steps, Hr, Hp, Hup. reflexivity.
    + rewrite main_trace, failures_app, main_try_no_failure, Htry.
      reflexivity.
    + rewrite main_trace, error_logs_app, Htry, List.app_nil_r.
      rewrite (main_try_inputs_given w Hgiven). cbn [fst].
      rewrite error_logs_app. unfold main_run, main_steps.
      rewrite await_sync_fst, error_logs_app, Hr.
      rewrite await_sync_fst, error_logs_app, Hp.
      rewrite await_fst, error_logs_app, Hup. cbn [fst snd].
      rewrite readOASFile_no_error_log, processOASFile_no_error_log.
      reflexivity.
Qed.

Lemma main_waits_for_an_answer_witness :
  let w := Example.run (str "docs/openapi.json") Unsettled in
  exists r,
    requests (main w) = [r]
    /\ snd (main_try w) = Pending
    /\ outputs (main w) = []
    /\ failures (main w) = []
    /\ error_logs (main w) = [].
Proof.
  intros w. eexists. split; [reflexivity|].
  apply (main_waits_for_an_answer w _ (or_introl eq_refl) eq_refl).
Defined.

(** X5. The file name a run reports in [uploaded_file] is the file name
    it sent: whenever the outputs are set, the one request of the run has
    one part, and its filename is the value of the output. *)
Theorem main_reports_the_name_it_sent {E : Engine} (w : World) :
  outputs (main w) <> [] ->
  exists r part,
    requests (main w) = [r]
    /\ body r = [part]
    /\ outputs (main w)
       = [ (str "status",
            check_mark ++ str " OAS file successfully synced to Brainfish!");
           (str "uploaded_file", filename part) ].
Proof.
  intros Hne.
  destruct (outputs_main_inv w Hne)
    as (Hin & fd & pf & res & Hr & Hp & Hu & Hout).
  destruct (uploadToBrainfish_Ok w pf _ _ _ res Hu)
    as (r & status & chunks & Hreq & _ & _ & Hres).
  destruct (uploadToBrainfish_requests_cases w pf
              (getInput w (str "brainfish_api_token"))
              (getInput w (str "catalog_id")) (input_baseUrl w))
    as [Hnone | (text & url & enc & _ & _ & _ & _ & Hreq')].
  - rewrite Hnone in Hreq. discriminate.
  - rewrite Hreq' in Hreq. inversion Hreq as [Hr'].
    eexists _, _. split; [|split].
    + rewrite requests_main, Hin. unfold main_run.
      rewrite requests_main_steps, Hr, Hp. exact Hreq'.
    + reflexivity.
    + rewrite Hout, Hres. reflexivity.
Qed.

Lemma main_reports_the_name_it_sent_witness :
  let w := Example.run (str "docs/openapi.yaml") Example.created in
  exists r part,
    requests (main w) = [r]
    /\ body r = [part]
    /\ outputs (main w)
       = [ (str "status",
            check_mark ++ str " OAS file successfully synced to Brainfish!");
           (str "uploaded_file", filename part) ].
Proof.
  apply (main_reports_the_name_it_sent
           (Example.run (str "docs/openapi.yaml") Example.created)).
  vm_compute. discriminate.
Defined.

(** X6. A run that fails has failed with an UploadFailed error exactly
    when it made a request: every error before the request is of another
    kind, and every error after it is an upload failure. *)
Theorem main_upload_failure_means_a_request
    {E : Engine} (w : World) (t : list Event) (e : Error) :
  main_try w = (t, Settled (Err e)) ->
  (kind e = KUploadFailed <-> requests (main w) <> []).
Proof.
  intros Htry. rewrite requests_main.
  destruct (inputs_given w) eqn:Hgiven.
  - rewrite (main_try_inputs_given w Hgiven) in Htry.
    inversion Htry as [[Ht Hs]]. unfold main_run in *.
    rewrite snd_main_steps in Hs. rewrite requests_main_steps.
    destruct (snd (readOASFile w _)) as [fd|e1] eqn:Hr.
    + destruct (snd (processOASFile w fd)) as [pf|e2] eqn:Hp.
      * destruct (snd (uploadToBrainfish w pf _ _ _)) as [[res|e3]|] eqn:Hu;
          [discriminate| |discriminate].
        inversion Hs; subst e3.
        apply (uploadToBrainfish_Err_kind w pf _ _ _ e Hu).
      * inversion Hs; subst e2.
        pose proof (processOASFile_Err_kind w fd e Hp) as Hk.
        split; [contradiction | intros H; contradiction H; reflexivity].
    + inversion Hs; subst e1.
      pose proof (readOASFile_Err_kind w _ e Hr) as Hk.
      split; [contradiction | intros H; contradiction H; reflexivity].
  - destruct (main_try_inputs_missing w Hgiven) as [name Hm].
    rewrite Hm in Htry. inversion Htry; subst.
    split; [discriminate | intros H; contradiction H; reflexivity].
Qed.

Lemma main_upload_failure_means_a_request_witness :
  let w := Example.run (str "docs/openapi.json") Example.server_error in
  kind (UploadStatus 500 (str "server error")) = KUploadFailed
  <-> requests (main w) <> [].
Proof.
  exact (main_upload_failure_means_a_request
           (Example.run (str "docs/openapi.json") Example.server_error)
           (fst (main_try (Example.run (str "docs/openapi.json")
                                       Example.server_error)))
           (UploadStatus 500 (str "server error")) eq_refl).
Defined.

(** X7. A directory exists, so readOASFile does not report it as a
    missing file: the size is read, and it is reading the content that
    fails, with the EISDIR error of the file system and not with the
    FileNotFound error. A run on a directory makes no request. *)
Theorem directory_fails_on_read
    {E : Engine} (w : World) (filePath : JsString) (sz : N) :
  fs w filePath = Some (Directory sz) ->
  fs_existsSync w filePath = true
  /\ (exists e, snd (readOASFile w filePath) = Err e
                /\ kind e = KOther
                /\ message e
                   = str "EISDIR: illegal operation on a directory, read")
  /\ (getInput w (str "oas_file_path") = filePath -> requests (main w) = []).
Proof.
  intros Hfs. pose proof (readOASFile_directory w filePath sz Hfs) as Hr.
  split; [unfold fs_existsSync; rewrite Hfs; reflexivity|]. split.
  - eexists. rewrite Hr. repeat split.
  - intros Hp. eapply no_request_when_reading_fails.
    rewrite Hp, Hr. reflexivity.
Qed.

Lemma directory_fails_on_read_witness :
  let w := Example.run (str "docs") Example.created in
  fs_existsSync w (str "docs") = true
  /\ (exists e, snd (readOASFile w (str "docs")) = Err e
                /\ kind e = KOther
                /\ message e
                   = str "EISDIR: illegal operation on a directory, read")
  /\ requests (main w) = [].
Proof.
  destruct (directory_fails_on_read
              (Example.run (str "docs") Example.created) (str "docs") 4096
              eq_refl) as (Hex & Hread & Hmain).
  split; [exact Hex|]. split; [exact Hread | exact (Hmain eq_refl)].
Defined.

(** ** Chunks of the response *)

Section ResponseFacts.
Local Open Scope N_scope.

Ltac bounds :=
  repeat match goal with
  | H : _ && _ = true |- _ => apply andb_true_iff in H; destruct H
  | H : (_ <=? _) = true |- _ => apply N.leb_le in H
  | H : (_ <=? _) = false |- _ => apply N.leb_gt in H
  | H : (_ <? _) = true |- _ => apply N.ltb_lt in H
  | H : (_ <? _) = false |- _ => apply N.ltb_ge in H
  | H : (_ =? _) = true |- _ => apply N.eqb_eq in H
  | H : (_ =? _) = false |- _ => apply N.eqb_neq in H
  end.

(** Decoding does not look behind a complete sequence. *)
Lemma decode_app_bounded (n : nat) (a b : Bytes) :
  (List.length a <= n)%nat ->
  Utf8.well_formed a = true ->
  Utf8.decode (a ++ b) = Utf8.decode a ++ Utf8.decode b.
Proof.
  revert a. induction n as [|n IH]; intros a Hlen Hwf.
  - destruct a; [reflexivity | simpl in Hlen; lia].
  - destruct a as [|b0 r0]; [reflexivity|].
    cbn [app Utf8.decode Utf8.well_formed] in *.
    destruct (b0 <? 128).
    { rewrite IH; [reflexivity | simpl in Hlen; lia | exact Hwf]. }
    destruct ((194 <=? b0) && (b0 <=? 223)).
    { destruct r0 as [|b1 r1]; [discriminate|].
      apply andb_true_iff in Hwf; destruct Hwf as [Hc1 Hwf].
      cbn [app]. rewrite Hc1.
      rewrite IH; [reflexivity | simpl in Hlen; lia | exact Hwf]. }
    destruct ((224 <=? b0) && (b0 <=? 239)).
    { destruct r0 as [|b1 [|b2 r2]]; try discriminate.
      apply andb_true_iff in Hwf; destruct Hwf as [Hwf' Hwf].
      apply andb_true_iff in Hwf'; destruct Hwf' as [Hc1 Hc2].
      cbn [app]. rewrite Hc1, Hc2.
      rewrite IH; [reflexivity | simpl in Hlen; lia | exact Hwf]. }
    destruct ((240 <=? b0) && (b0 <=? 244)); [|discriminate].
    destruct r0 as [|b1 [|b2 [|b3 r3]]]; try discriminate.
    apply andb_true_iff in Hwf; destruct Hwf as [Hwf' Hwf].
    apply andb_true_iff in Hwf'; destruct Hwf' as [Hwf' Hc3].
    apply andb_true_iff in Hwf'; destruct Hwf' as [Hc1 Hc2].
    cbn [app]. rewrite Hc1, Hc2, Hc3.
    rewrite IH; [| simpl in Hlen; lia | exact Hwf].
    apply app_assoc.
Qed.

Lemma decode_app (a b : Bytes) :
  Utf8.well_formed a = true ->
  Utf8.decode (a ++ b) = Utf8.decode a ++ Utf8.decode b.
Proof. apply (decode_app_bounded (List.length a)). apply Nat.le_refl. Qed.

Lemma collect_from (chunks : list Bytes) (acc : JsString) :
  fold_left (fun responseData chunk => responseData ++ Utf8.decode chunk)
            chunks acc
  = acc ++ concat (List.map Utf8.decode chunks).
Proof.
  revert acc. induction chunks as [|c chunks IH]; intros acc; cbn.
  - symmetry. apply List.app_nil_r.
  - rewrite IH. symmetry. apply app_assoc.
Qed.

Lemma decode_concat (init : list Bytes) (last : Bytes) :
  Forall (fun chunk => Utf8.well_formed chunk = true) init ->
  concat (List.map Utf8.decode init) ++ Utf8.decode last
  = Utf8.decode (concat init ++ last).
Proof.
  induction 1 as [|c init Hc _ IH]; [reflexivity|].
  cbn [List.map concat]. rewrite <- !app_assoc, IH.
  symmetry. apply decode_app, Hc.
Qed.

End ResponseFacts.

(** X8. The response is collected chunk by chunk, each chunk decoded on
    its own. When every chunk but the last ends on a character boundary
    (is well-formed UTF-8), the collected text is the decoding of the
    whole body, as if it had arrived in one piece. *)
Theorem collect_decodes_the_body (chunks : list Bytes) :
  Forall (fun chunk => Utf8.well_formed chunk = true) (removelast chunks) ->
  collect chunks = Utf8.decode (concat chunks).
Proof.
  intros Hwf. unfold collect. rewrite collect_from. cbn [app].
  destruct chunks as [|c chunks] using rev_ind; [reflexivity|].
  rewrite removelast_last in Hwf.
  rewrite map_app, !concat_app. cbn [List.map concat].
  rewrite !List.app_nil_r. apply decode_concat, Hwf.
Qed.

Lemma collect_decodes_the_body_witness :
  collect [[123; 34; 195; 169]; [34; 58; 226]]%N
  = Utf8.decode (concat [[123; 34; 195; 169]; [34; 58; 226]]%N).
Proof.
  apply (collect_decodes_the_body [[123; 34; 195; 169]; [34; 58; 226]]%N).
  repeat constructor.
Defined.

(** A chunk that ends inside a character is another matter: both halves
    are replaced, where the whole body decodes to the character. *)
Remark split_character_is_replaced :
  collect [[195]; [169]]%N = [65533; 65533]%N
  /\ Utf8.decode (concat [[195]; [169]]%N) = [233]%N.
Proof. split; reflexivity. Qed.

(** ** The catalog in the request path *)


(** X9. The catalog id cannot change the shape of the request path: the
    path of a request is the fixed prefix followed by the encoded id,
    and every character of the encoded id is an unreserved character or
    a percent sign, so no [&], [#], [/], [?], [=] or space comes from
    the input. *)
Theorem main_request_path_is_escaped {E : Engine} (w : World) (r : Request) :
  code_units (getInput w (str "catalog_id")) = true ->
  In r (requests (main w)) ->
  exists encoded,
    path (options r) = str "/api/catalogs.upload?catalogId=" ++ encoded
    /\ forallb url_safe encoded = true.
Proof.
  intros Hcu Hin.
  destruct (requests_main_cases w)
    as [Hnone | (_ & fd & pf & text & url & enc & _ & _ & _ & _ & He & _
                 & Hreq)].
  - rewrite Hnone in Hin. contradiction.
  - rewrite Hreq in Hin. destruct Hin as [<- | []].
    exists enc. split; [reflexivity|].
    apply (encodeURIComponent_safe _ enc Hcu He).
Qed.

Lemma main_request_path_is_escaped_witness :
  let w := Example.world (str "bf_token") (str "a&b=c d/#")
             (str "docs/openapi.json") [] Example.created in
  exists r encoded,
    requests (main w) = [r]
    /\ path (options r) = str "/api/catalogs.upload?catalogId=" ++ encoded
    /\ forallb url_safe encoded = true.
Proof.
  intros w.
  eexists. 
  destruct (main_request_path_is_escaped w _ eq_refl (or_introl eq_refl))
    as (encoded & Hpath & Hsafe).
  exists encoded. split; [reflexivity|]. split; [exact Hpath | exact Hsafe].
Defined.

(** ** The name of the uploaded file *)

Section NameFacts.
Local Open Scope Z_scope.

Lemma slice_one (front back : JsString) (c : codeunit) (i : Z) :
  i = Z.of_nat (List.length front) ->
  Path.slice (front ++ c :: back) i (i + 1) = [c].
Proof.
  intros ->. unfold Path.slice.
  replace (Z.to_nat (Z.of_nat (List.length front) + 1
                     - Z.of_nat (List.length front))) with 1%nat by lia.
  rewrite Nat2Z.id, skipn_app, skipn_all, Nat.sub_diag. reflexivity.
Qed.

(** The loop of basename never keeps a slash between its two marks. *)
Lemma basename_loop_no_slash (p : JsString) (chars : JsString) :
  forall (back : JsString) (i end_ : Z) (matchedSlash : bool),
    p = rev chars ++ back ->
    i = Z.of_nat (List.length chars) - 1 ->
    end_ = -1
    \/ (matchedSlash = false /\ i + 1 <= end_
        /\ no_slash (Path.slice p (i + 1) end_) = true) ->
    match Path.basename_loop chars i end_ matchedSlash with
    | (start, end') =>
        0 <= start /\ (end' = -1 \/ no_slash (Path.slice p start end') = true)
    end.
Proof.
  induction chars as [|c rest IH]; intros back i end_ matchedSlash Hp Hi Hinv.
  - cbn [Path.basename_loop]. cbn [List.length] in Hi.
    split; [lia|]. destruct Hinv as [He | (_ & _ & Hs)]; [left; exact He|].
    right. replace 0 with (i + 1) by lia. exact Hs.
  - cbn [Path.basename_loop]. cbn [List.length] in Hi.
    assert (Hi' : i - 1 = Z.of_nat (List.length rest) - 1) by lia.
    assert (Hp' : p = rev rest ++ c :: back).
    { rewrite Hp. cbn [rev]. rewrite <- app_assoc. reflexivity. }
    assert (Hone : Path.slice p i (i + 1) = [c]).
    { rewrite Hp'. apply slice_one. rewrite length_rev. lia. }
    destruct (c =? 47)%N eqn:Hc.
    + destruct matchedSlash; cbn [negb].
      * apply (IH (c :: back)); [exact Hp' | exact Hi' |].
        destruct Hinv as [He | (Hm & _)]; [left; exact He | discriminate].
      * split; [lia|].
        destruct Hinv as [He | (_ & _ & Hs)]; [left | right]; assumption.
    + destruct (Z.eqb_spec end_ (-1)) as [He | He].
      * apply (IH (c :: back)); [exact Hp' | exact Hi' |].
        right. split; [reflexivity|]. split; [lia|].
        replace (i - 1 + 1) with i by lia. rewrite Hone.
        cbn [no_slash forallb]. unfold no_slash. cbn [forallb].
        rewrite Hc. reflexivity.
      * destruct Hinv as [Hinv | (Hm & Hle & Hs)]; [contradiction|].
        apply (IH (c :: back)); [exact Hp' | exact Hi' |].
        right. split; [exact Hm|]. split; [lia|].
        replace (i - 1 + 1) with i by lia.
        rewrite (slice_split p i (i + 1) end_) by lia.
        rewrite Hone. unfold no_slash in *. cbn [app forallb].
        rewrite Hc, Hs. reflexivity.
Qed.

Lemma basename_no_slash (p : JsString) : no_slash (Path.basename p) = true.
Proof.
  unfold Path.basename.
  pose proof (basename_loop_no_slash p (rev p) [] (Z.of_nat (List.length p) - 1)
                (-1) true) as H.
  rewrite rev_involutive, List.app_nil_r, length_rev in H.
  specialize (H eq_refl eq_refl (or_introl eq_refl)).
  destruct (Path.basename_loop (rev p) (Z.of_nat (List.length p) - 1) (-1) true)
    as [start end_].
  destruct H as [_ [-> | H]]; [reflexivity|].
  destruct (end_ =? -1); [reflexivity | exact H].
Qed.

Lemma replace_yaml_extension_no_slash (name : JsString) :
  no_slash name = true -> no_slash (replace_yaml_extension name) = true.
Proof.
  intros H. unfold replace_yaml_extension.
  destruct (strip_suffix (str ".yaml") name) as [stem|] eqn:H1.
  - apply strip_suffix_spec in H1. subst name. unfold no_slash in *.
    rewrite forallb_app in *. apply andb_true_iff in H. destruct H as [-> _].
    reflexivity.
  - destruct (strip_suffix (str ".yml") name) as [stem|] eqn:H2; [|exact H].
    apply strip_suffix_spec in H2. subst name. unfold no_slash in *.
    rewrite forallb_app in *. apply andb_true_iff in H. destruct H as [-> _].
    reflexivity.
Qed.

Lemma processedFileName_no_slash {E : Engine} (w : World)
    (filePath : JsString) (fd : FileData) (pf : ProcessedFile) :
  snd (readOASFile w filePath) = Ok fd ->
  snd (processOASFile w fd) = Ok pf ->
  no_slash (processedFileName pf) = true.
Proof.
  intros Hread Hproc.
  destruct (readOASFile_Ok w filePath fd Hread) as (bytes & _ & ->).
  match type of Hproc with
  | snd (processOASFile w ?x) = _ => set (fd := x) in *
  end.
  destruct (extension_cases (extension fd)) as [H | [H | (H1 & H2 & H3)]].
  - rewrite (processOASFile_yaml w fd H) in Hproc. cbn [snd] in Hproc.
    destruct (convertYamlToJson w _) as [text|e]; [|discriminate].
    inversion Hproc; subst pf. cbn [processedFileName].
    apply replace_yaml_extension_no_slash, basename_no_slash.
  - rewrite (processOASFile_json w fd H) in Hproc. cbn [snd] in Hproc.
    destruct (JSON_parse _); [|discriminate].
    inversion Hproc; subst pf. cbn [processedFileName].
    apply basename_no_slash.
  - rewrite (processOASFile_other w fd H1 H2 H3) in Hproc. discriminate.
Qed.

End NameFacts.

(** X10. The file is uploaded under a bare name, whatever directories
    the path of the input goes through: the filename of every part of
    every request has no slash in it. *)
Theorem main_uploads_a_bare_name
    {E : Engine} (w : World) (r : Request) (part : FormPart) :
  In r (requests (main w)) ->
  In part (body r) ->
  no_slash (filename part) = true.
Proof.
  intros Hr Hpart.
  destruct (requests_main_cases w)
    as [Hnone | (_ & fd & pf & text & url & enc & Hread & Hproc & _ & _ & _
                 & _ & Hreq)].
  - rewrite Hnone in Hr. contradiction.
  - rewrite Hreq in Hr. destruct Hr as [<- | []].
    cbn [body uploadForm] in Hpart. destruct Hpart as [<- | []].
    cbn [filename].
    apply (processedFileName_no_slash w _ fd pf Hread Hproc).
Qed.

Lemma main_uploads_a_bare_name_witness :
  let w := Example.run (str "docs/openapi.yaml") Example.created in
  exists r part,
    requests (main w) = [r] /\ body r = [part]
    /\ no_slash (filename part) = true.
Proof.
  intros w. eexists. eexists.
  split; [reflexivity|]. split; [reflexivity|].
  apply (main_uploads_a_bare_name w _ _ (or_introl eq_refl)
           (or_introl eq_refl)).
Defined.

(** ** What a YAML conversion writes *)

Section ImageFacts.
Context {E : Engine}.
Local Open Scope N_scope.

(** [JSON.stringify] writes a value as it writes its image. *)
Lemma serialize_image (v : JsValue) :
  forall indent,
    SerializeJSONProperty indent v
    = match json_image v with
      | Some image => SerializeJSONProperty indent image
      | None => None
      end.
Proof.
  induction v as [ | | b | n | s | items IH | props IH ]
    using JsValue_induction; intros indent; try reflexivity.
  - cbn [json_image SerializeJSONProperty].
    destruct (isFinite n) eqn:Hn; [|reflexivity].
    cbn [SerializeJSONProperty]. rewrite Hn. reflexivity.
  - cbn [json_image SerializeJSONProperty]. cbv zeta. do 2 f_equal.
    rewrite map_map. apply map_ext_in. intros x Hx.
    rewrite Forall_forall in IH. rewrite (IH x Hx).
    destruct (json_image x); reflexivity.
  - cbn [json_image SerializeJSONProperty]. cbv zeta. do 2 f_equal.
    induction IH as [|p props Hp _ IHprops]; [reflexivity|].
    cbn [flat_map]. rewrite flat_map_app, <- IHprops. f_equal.
    rewrite Hp. destruct (json_image (snd p)); [|reflexivity].
    cbn [flat_map fst snd]. rewrite List.app_nil_r. reflexivity.
Qed.

Lemma image_serializable (v : JsValue) :
  forall image, json_image v = Some image -> json_serializable image = true.
Proof.
  induction v as [ | | b | n | s | items IH | props IH ]
    using JsValue_induction; intros image Himage;
    cbn [json_image] in Himage; try discriminate;
    try (inversion Himage; subst image; reflexivity).
  - destruct (isFinite n) eqn:Hn; inversion Himage; subst image;
      cbn [json_serializable]; [exact Hn | reflexivity].
  - inversion Himage; subst image. clear Himage. cbn [json_serializable].
    induction IH as [|x items Hx _ IHitems]; [reflexivity|].
    cbn [List.map forallb]. rewrite IHitems, andb_true_r.
    destruct (json_image x) as [y|]; [exact (Hx y eq_refl) | reflexivity].
  - inversion Himage; subst image. clear Himage. cbn [json_serializable].
    induction IH as [|p props Hp _ IHprops]; [reflexivity|].
    cbn [flat_map]. rewrite forallb_app, IHprops, andb_true_r.
    destruct (json_image (snd p)) as [y|]; [|reflexivity].
    cbn [forallb snd]. rewrite (Hp y eq_refl). reflexivity.
Qed.

Lemma image_keys (k : JsString) (props : list (JsString * JsValue)) :
  existsb (JsString_eqb k)
    (List.map fst
       (flat_map (fun p => match json_image (snd p) with
                           | Some y => [(fst p, y)]
                           | None => []
                           end) props)) = true ->
  existsb (JsString_eqb k) (List.map fst props) = true.
Proof.
  induction props as [|p props IH]; [intros H; exact H|].
  cbn [flat_map List.map existsb]. rewrite map_app, existsb_app.
  intros H. apply orb_true_iff in H. destruct H as [H | H].
  - destruct (json_image (snd p)); [|discriminate].
    cbn [List.map existsb fst] in H. rewrite orb_false_r in H.
    rewrite H. reflexivity.
  - rewrite (IH H). apply orb_true_r.
Qed.

Lemma image_well_formed (v : JsValue) :
  forall image,
    well_formed_value v = true ->
    json_image v = Some image -> well_formed_value image = true.
Proof.
  induction v as [ | | b | n | s | items IH | props IH ]
    using JsValue_induction; intros image Hw Himage;
    cbn [json_image] in Himage; try discriminate;
    try (inversion Himage; subst image; reflexivity).
  - destruct (isFinite n); inversion Himage; subst image; reflexivity.
  - inversion Himage; subst image. clear Himage.
    cbn [well_formed_value] in *.
    induction IH as [|x items Hx _ IHitems]; [reflexivity|].
    cbn [forallb] in Hw. apply andb_true_iff in Hw. destruct Hw as [Hw1 Hw2].
    cbn [List.map forallb]. rewrite (IHitems Hw2), andb_true_r.
    destruct (json_image x) as [y|]; [exact (Hx y Hw1 eq_refl) | reflexivity].
  - inversion Himage; subst image. cbn [well_formed_value] in *.
    apply andb_true_iff in Hw. destruct Hw as [Hkeys Hw].
    apply andb_true_iff. split.
    + clear IH Hw Himage.
      induction props as [|p props IHprops]; [reflexivity|].
      cbn [List.map distinct] in Hkeys.
      apply andb_true_iff in Hkeys. destruct Hkeys as [Hfresh Hkeys].
      cbn [flat_map]. destruct (json_image (snd p)) as [y|];
        [|apply IHprops, Hkeys].
      cbn [app List.map fst distinct]. rewrite (IHprops Hkeys), andb_true_r.
      apply negb_true_iff. apply negb_true_iff in Hfresh.
      destruct (existsb (JsString_eqb (fst p)) (List.map fst (flat_map _ props)))
        eqn:Hex; [|reflexivity].
      apply image_keys in Hex. congruence.
    + clear Hkeys Himage.
      induction IH as [|p props Hp _ IHprops]; [reflexivity|].
      cbn [forallb] in Hw. apply andb_true_iff in Hw.
      destruct Hw as [Hw1 Hw2].
      cbn [flat_map]. rewrite forallb_app, (IHprops Hw2), andb_true_r.
      destruct (json_image (snd p)) as [y|]; [|reflexivity].
      cbn [forallb snd]. rewrite (Hp y Hw1 eq_refl). reflexivity.
Qed.

End ImageFacts.

(** X11. Whatever tree js-yaml loads, convertYamlToJson never writes
    text that is not JSON. There is no text only for [undefined] (an
    empty document); otherwise [JSON.parse] accepts the text and reads
    from it the image of the tree, where NaN and the infinities have
    become [null] and [undefined] members are gone. *)
Theorem convertYamlToJson_writes_json
    {E : Engine} (L : EngineLaws E) (w : World)
    (yamlContent : JsString) (parsedYaml : JsValue) :
  yaml_load w yamlContent = Loaded parsedYaml ->
  well_formed_value parsedYaml = true ->
  match json_image parsedYaml with
  | None =>
      parsedYaml = VUndefined /\ convertYamlToJson w yamlContent = Ok None
  | Some image =>
      exists text parsed,
        convertYamlToJson w yamlContent = Ok (Some text)
        /\ JSON_parse text = Ok parsed
        /\ deepEqual parsed image = true
  end.
Proof.
  intros Hload Hw. unfold convertYamlToJson. rewrite Hload.
  unfold JSON_stringify. rewrite serialize_image.
  destruct (json_image parsedYaml) as [image|] eqn:Himage.
  - pose proof (image_serializable parsedYaml image Himage) as Hs.
    pose proof (image_well_formed parsedYaml image Hw Himage) as Hw'.
    destruct (JSON_parse_stringify image Hs Hw') as (text & Htext & Hparse).
    unfold JSON_stringify in Htext. rewrite Htext.
    exists text, (reread image). split; [reflexivity|].
    split; [exact Hparse|]. apply deepEqual_reread; assumption.
  - split; [|reflexivity].
    destruct parsedYaml; try discriminate; try reflexivity.
    cbn [json_image] in Himage. destruct (isFinite n); discriminate.
Qed.

Lemma convertYamlToJson_writes_json_witness :
  let w := Example.run (str "docs/ratio.yml") Example.created in
  exists text parsed,
    convertYamlToJson w Example.yaml_nan = Ok (Some text)
    /\ JSON_parse text = Ok parsed
    /\ deepEqual parsed (VObject [ (str "x-ratio", VNull) ]) = true.
Proof.
  exact (convertYamlToJson_writes_json IntegerEngine_laws
           (Example.run (str "docs/ratio.yml") Example.created)
           Example.yaml_nan Example.value_nan eq_refl eq_refl).
Defined.

(** ** The token *)

Section TokenFacts.
Context {E : Engine}.

Lemma visible_app (t u : list Event) :
  visible (t ++ u) = visible t ++ visible u.
Proof. apply filter_app. Qed.

Lemma same_view_refl {R : Type} (m : list Event * R) : same_view m m.
Proof. split; reflexivity. Qed.

Lemma same_view_sync {A : Type} (m m' : Eff A) :
  same_view m m' -> same_view (sync m) (sync m').
Proof. intros [Hv Hs]. split; cbn [sync fst snd]; congruence. Qed.

Lemma same_view_await {A B : Type} (m m' : Async A) (k k' : A -> Async B) :
  same_view m m' ->
  (forall a, same_view (k a) (k' a)) ->
  same_view (await m k) (await m' k').
Proof.
  intros [Hv Hs] Hk.
  destruct m as [t [[a|e]|]], m' as [t' [[a'|e']|]]; cbn [fst snd] in Hv, Hs;
    try discriminate; inversion Hs; subst.
  - specialize (Hk a'). unfold await.
    destruct (k a') as [u r], (k' a') as [u' r'].
    destruct Hk as [Hkv Hks]. cbn [fst snd] in *.
    split; cbn [fst snd]; [rewrite !visible_app; congruence | exact Hks].
  - split; [exact Hv | reflexivity].
  - split; [exact Hv | reflexivity].
Qed.

Variables w w' : World.
Hypothesis Hsame : same_but_token w w'.

Lemma same_readOASFile (p : JsString) : readOASFile w p = readOASFile w' p.
Proof.
  destruct Hsame as (_ & _ & _ & _ & Hfs & _).
  unfold readOASFile. rewrite (Hfs p). reflexivity.
Qed.

Lemma same_processOASFile (fd : FileData) :
  processOASFile w fd = processOASFile w' fd.
Proof.
  destruct Hsame as (_ & _ & _ & _ & _ & Hyaml & _).
  unfold processOASFile, convertYamlToJson. rewrite (Hyaml (content fd)).
  reflexivity.
Qed.

(** [https.request] takes the two requests alike: the error of a header
    names the header, not its value. *)
Lemma same_new_ClientRequest (url : URL) (enc a a' : JsString) :
  checkInvalidHeaderChar a = checkInvalidHeaderChar a' ->
  new_ClientRequest (requestOptions w url enc a)
  = new_ClientRequest (requestOptions w' url enc a').
Proof.
  intros Ha. destruct Hsame as (_ & _ & _ & Hb & _).
  unfold new_ClientRequest.
  change (path (requestOptions w url enc a))
    with (path (requestOptions w' url enc a')).
  change (headers (requestOptions w url enc a))
    with [ (str "content-type",
            str "multipart/form-data; boundary=" ++ boundary w);
           (str "Authorization", str "Bearer " ++ a) ].
  change (headers (requestOptions w' url enc a'))
    with [ (str "content-type",
            str "multipart/form-data; boundary=" ++ boundary w');
           (str "Authorization", str "Bearer " ++ a') ].
  cbn [invalid_header]. rewrite !checkInvalidHeaderChar_app, Hb, Ha.
  reflexivity.
Qed.

Lemma same_view_uploadToBrainfish (pf : ProcessedFile)
    (a a' c b : JsString) :
  checkInvalidHeaderChar a = checkInvalidHeaderChar a' ->
  same_view (uploadToBrainfish w pf a c b) (uploadToBrainfish w' pf a' c b).
Proof.
  intros Ha. destruct Hsame as (_ & _ & _ & _ & _ & _ & Hurl & Hnet).
  unfold uploadToBrainfish.
  apply same_view_await; [apply same_view_refl | intros _].
  apply same_view_await; [apply same_view_refl | intros fileBuffer].
  apply same_view_await;
    [unfold new_URL; rewrite (Hurl b); apply same_view_refl | intros url].
  apply same_view_await; [apply same_view_refl | intros enc].
  apply same_view_await; [apply same_view_refl | intros _].
  apply same_view_await;
    [rewrite (same_new_ClientRequest url enc a a' Ha); apply same_view_refl
    | intros _].
  apply same_view_await; [split; reflexivity | intros _].
  rewrite (Hnet _ {| options := requestOptions w' url enc a';
                     body := uploadForm fileBuffer (processedFileName pf) |});
    try reflexivity.
  apply same_view_refl.
Qed.

Lemma same_input (name : string) :
  str name <> str "brainfish_api_token" ->
  getInput w (str name) = getInput w' (str name).
Proof. destruct Hsame as (Hin & _). apply Hin. Qed.

Lemma same_view_main_try : same_view (main_try w) (main_try w').
Proof.
  pose proof Hsame as (_ & Htoken & Hvalid & _).
  assert (Hc : getInput w (str "catalog_id") = getInput w' (str "catalog_id"))
    by (apply same_input; intros H; vm_compute in H; discriminate).
  assert (Hp : getInput w (str "oas_file_path")
               = getInput w' (str "oas_file_path"))
    by (apply same_input; intros H; vm_compute in H; discriminate).
  assert (Hb : input_baseUrl w = input_baseUrl w').
  { unfold input_baseUrl. rewrite (same_input "base_url"); [reflexivity|].
    intros H; vm_compute in H; discriminate. }
  unfold main_try. rewrite Hc, Hp, Hb.
  apply same_view_await;
    [unfold require_input; rewrite Htoken; apply same_view_refl | intros _].
  do 6 (apply same_view_await; [apply same_view_refl | intros _]).
  unfold main_steps.
  apply same_view_await;
    [rewrite same_readOASFile; apply same_view_refl | intros fd].
  apply same_view_await;
    [rewrite same_processOASFile; apply same_view_refl | intros pf].
  apply same_view_await;
    [apply same_view_uploadToBrainfish; exact Hvalid | intros res].
  apply same_view_refl.
Qed.

End TokenFacts.

(** X12. The API token is write-only: it goes into the Authorization
    header of the request and nowhere else. Two runs that differ in the
    token alone, both tokens fit for a header or both unfit, show the
    same log lines, the same outputs and the same failure, as long as
    the server answers them alike. *)
Theorem token_is_not_shown {E : Engine} (w w' : World) :
  same_but_token w w' -> visible (main w) = visible (main w').
Proof.
  intros Hsame. destruct (same_view_main_try w w' Hsame) as [Hv Hs].
  rewrite !main_trace, !visible_app, Hv, Hs. reflexivity.
Qed.

Lemma Example_same_but_token
    (token token' catalogId oasFilePath baseUrl : JsString)
    (answer : NetworkOutcome) :
  truthy token = truthy token' ->
  checkInvalidHeaderChar token = checkInvalidHeaderChar token' ->
  same_but_token
    (Example.world token catalogId oasFilePath baseUrl answer)
    (Example.world token' catalogId oasFilePath baseUrl answer).
Proof.
  intros Ht Hv. unfold same_but_token, Example.world. cbn [getInput fs yaml_load
    URL_parse https_request boundary].
  repeat split; try reflexivity.
  - intros name Hname. apply JsString_eqb_neq in Hname. rewrite Hname.
    reflexivity.
  - rewrite !JsString_eqb_refl. exact Ht.
  - rewrite !JsString_eqb_refl. exact Hv.
Qed.

Lemma token_is_not_shown_witness :
  visible (main (Example.world (str "bf_token") (str "8a2abadd-1140")
                   (str "docs/openapi.yaml") [] Example.created))
  = visible (main (Example.world (str "another token") (str "8a2abadd-1140")
                     (str "docs/openapi.yaml") [] Example.created)).
Proof.
  apply (token_is_not_shown
           (Example.world (str "bf_token") (str "8a2abadd-1140")
              (str "docs/openapi.yaml") [] Example.created)
           (Example.world (str "another token") (str "8a2abadd-1140")
              (str "docs/openapi.yaml") [] Example.created)).
  apply Example_same_but_token; reflexivity.
Defined.

(** ** The way to a successful run *)

(** X13. A run succeeds whenever nothing stands in its way: with the
    three inputs set, a file that reads and processes to a payload with
    text, a base URL that parses, a catalog id that encodes, options
    that [https.request] takes (a token that is fit for a header) and
    an answer with a 2xx status, the run sets both outputs, naming the
    processed file, and signals no failure. *)
Theorem main_succeeds_on_a_2xx_answer
    {E : Engine} (w : World) (fd : FileData) (pf : ProcessedFile)
    (text : JsString) (url : URL) (encoded : JsString)
    (status : Z) (chunks : list Bytes) :
  inputs_given w = true ->
  snd (readOASFile w (getInput w (str "oas_file_path"))) = Ok fd ->
  snd (processOASFile w fd) = Ok pf ->
  processedContent pf = Some text ->
  URL_parse w (input_baseUrl w) = Some url ->
  encodeURIComponent (getInput w (str "catalog_id")) = Some encoded ->
  snd (new_ClientRequest
         (requestOptions w url encoded
            (getInput w (str "brainfish_api_token")))) = Ok tt ->
  https_request w
    {| options := requestOptions w url encoded
                    (getInput w (str "brainfish_api_token"));
       body := uploadForm (Utf8.encode text) (processedFileName pf) |}
  = Response status chunks ->
  (200 <= status < 300)%Z ->
  outputs (main w)
  = [ (str "status",
       check_mark ++ str " OAS file successfully synced to Brainfish!");
      (str "uploaded_file", processedFileName pf) ]
  /\ failures (main w) = [].
Proof.
  intros Hgiven Hread Hproc Htext Hurl Henc Htakes Hnet Hstatus.
  assert (Hnew : new_ClientRequest
                   (requestOptions w url encoded
                      (getInput w (str "brainfish_api_token"))) = ret tt).
  { destruct (new_ClientRequest_cases
                (requestOptions w url encoded
                   (getInput w (str "brainfish_api_token"))))
      as [H | [m H]]; [exact H|].
    rewrite H in Htakes. discriminate. }
  pose proof (uploadToBrainfish_requests w pf
                (getInput w (str "brainfish_api_token"))
                (getInput w (str "catalog_id")) (input_baseUrl w)
                text url encoded Htext Hurl Henc Hnew) as Hreq.
  pose proof (uploadToBrainfish_issued w pf _ _ _ _ Hreq) as Hres.
  rewrite handleOutcome_snd, Hnet in Hres.
  assert (Hin : ((200 <=? status)%Z && (status <? 300)%Z) = true).
  { apply andb_true_iff. split; [apply Z.leb_le | apply Z.ltb_lt]; lia. }
  rewrite Hin in Hres.
  split.
  - rewrite outputs_main, Hgiven. unfold main_run.
    rewrite outputs_main_steps, Hread, Hproc, Hres. reflexivity.
  - rewrite main_trace, failures_app, main_try_no_failure.
    rewrite (main_try_inputs_given w Hgiven). cbn [snd]. unfold main_run.
    rewrite snd_main_steps, Hread, Hproc, Hres. reflexivity.
Qed.

Lemma main_succeeds_on_a_2xx_answer_witness :
  let w := Example.run (str "docs/openapi.json") Example.created in
  outputs (main w)
  = [ (str "status",
       check_mark ++ str " OAS file successfully synced to Brainfish!");
      (str "uploaded_file", str "openapi.json") ]
  /\ failures (main w) = [].
Proof.
  apply (main_succeeds_on_a_2xx_answer
           (Example.run (str "docs/openapi.json") Example.created)
           (Example.file_data (str "docs/openapi.json"))
           (Example.processed (str "docs/openapi.json"))
           Example.json_openapi
           {| url_protocol := str "https:";
              url_hostname := str "app.brainfi.sh";
              url_port := [] |}
           (str "8a2abadd-1140") 201
           [ [123; 34]%N ++ str "ok" ++ [34; 58]%N ++ str "true}" ]);
    try reflexivity.
  lia.
Defined.

(** ** Files that look right and are not *)

Section BomFacts.
Context {E : Engine}.
Local Open Scope N_scope.

Lemma decode_byte_order_mark (rest : Bytes) :
  Utf8.decode (239 :: 187 :: 191 :: rest) = 65279 :: Utf8.decode rest.
Proof. reflexivity. Qed.

Lemma JSON_parse_byte_order_mark (text : JsString) :
  JSON_parse (65279 :: text) = Err (SyntaxError_message (65279 :: text)).
Proof. reflexivity. Qed.

End BomFacts.

(** X14. A [.json] file that starts with a byte order mark is turned
    down: readFileSync keeps the mark, JSON.parse does not take it for
    white space, so processOASFile fails with InvalidJson and the run
    makes no request, whatever follows the mark. *)
Theorem byte_order_mark_fails_json
    {E : Engine} (w : World) (filePath : JsString) (rest : Bytes) :
  fs w filePath = Some (RegularFile ([239; 187; 191]%N ++ rest)) ->
  toLowerCase (Path.extname filePath) = str ".json" ->
  exists fd,
    snd (readOASFile w filePath) = Ok fd
    /\ snd (processOASFile w fd)
       = Err (InvalidJson (SyntaxError_message (content fd)))
    /\ (getInput w (str "oas_file_path") = filePath ->
        requests (main w) = []).
Proof.
  intros Hfs Hext. eexists. split; [apply (readOASFile_file w _ _ Hfs)|].
  assert (Hproc : snd (processOASFile w
            {| content := Utf8.decode ([239; 187; 191]%N ++ rest);
               extension := toLowerCase (Path.extname filePath);
               fileName := Path.basename filePath;
               size := N.of_nat (List.length ([239; 187; 191]%N ++ rest)) |})
          = Err (InvalidJson
                   (SyntaxError_message
                      (Utf8.decode ([239; 187; 191]%N ++ rest))))).
  { rewrite processOASFile_json by exact Hext. cbn [snd content app].
    rewrite decode_byte_order_mark, JSON_parse_byte_order_mark. reflexivity. }
  split; [exact Hproc|].
  intros Hpath. eapply no_request_when_processing_fails.
  - rewrite Hpath. apply (readOASFile_file w _ _ Hfs).
  - exact Hproc.
Qed.

Lemma byte_order_mark_fails_json_witness :
  let w := with_file (Example.run (str "docs/marked.json") Example.created)
             (str "docs/marked.json")
             (RegularFile ([239; 187; 191]%N
                           ++ Utf8.encode Example.json_openapi)) in
  exists fd,
    snd (readOASFile w (str "docs/marked.json")) = Ok fd
    /\ snd (processOASFile w fd)
       = Err (InvalidJson (SyntaxError_message (content fd)))
    /\ requests (main w) = [].
Proof.
  intros w.
  destruct (byte_order_mark_fails_json w (str "docs/marked.json")
              (Utf8.encode Example.json_openapi) eq_refl eq_refl)
    as (fd & Hread & Hproc & Hmain).
  exists fd. split; [exact Hread|]. split; [exact Hproc | exact (Hmain eq_refl)].
Defined.

(** ** The name after a conversion *)

(** X15. A YAML file whose extension is written in lower case is
    uploaded under its own name with [.json] for the extension: the
    part of every request is named after the stem of the base name. *)
Theorem main_renames_yaml_to_json
    {E : Engine} (w : World) (filePath : JsString)
    (r : Request) (part : FormPart) :
  getInput w (str "oas_file_path") = filePath ->
  Path.extname filePath = str ".yaml" \/ Path.extname filePath = str ".yml" ->
  toLowerCase (Path.extname filePath) = Path.extname filePath ->
  In r (requests (main w)) ->
  In part (body r) ->
  exists stem,
    Path.basename filePath = stem ++ Path.extname filePath
    /\ filename part = stem ++ str ".json".
Proof.
  intros Hpath Hname Hlower Hr Hpart.
  destruct (requests_main_cases w)
    as [Hnone | (_ & fd & pf & text & url & enc & Hread & Hproc & _ & _ & _
                 & _ & Hreq)].
  - rewrite Hnone in Hr. contradiction.
  - rewrite Hreq in Hr. destruct Hr as [<- | []].
    cbn [body uploadForm] in Hpart. destruct Hpart as [<- | []].
    cbn [filename]. rewrite Hpath in Hread.
    apply (lowercase_extension_is_renamed w filePath fd pf Hname);
      [|exact Hread | exact Hproc].
    destruct (readOASFile_Ok w filePath fd Hread) as (bytes & _ & ->).
    cbn [extension]. rewrite Hlower. exact Hname.
Qed.

Lemma main_renames_yaml_to_json_witness :
  let w := Example.run (str "docs/openapi.yaml") Example.created in
  exists r part,
    requests (main w) = [r] /\ body r = [part]
    /\ exists stem,
         Path.basename (str "docs/openapi.yaml") = stem ++ str ".yaml"
         /\ filename part = stem ++ str ".json".
Proof.
  intros w. eexists. eexists.
  split; [reflexivity|]. split; [reflexivity|].
  apply (main_renames_yaml_to_json w (str "docs/openapi.yaml") _ _ eq_refl
           (or_introl eq_refl) eq_refl
           (or_introl eq_refl) (or_introl eq_refl)).
Defined.

(** ** The octets of the payload *)

Section PayloadFacts.
Local Open Scope N_scope.

Ltac n_arith := zify; Z.to_euclidean_division_equations; lia.

Ltac bounds :=
  repeat match goal with
  | H : _ && _ = true |- _ => apply andb_true_iff in H; destruct H
  | H : _ && _ = false |- _ => apply andb_false_iff in H; destruct H
  | H : (_ <=? _) = true |- _ => apply N.leb_le in H
  | H : (_ <=? _) = false |- _ => apply N.leb_gt in H
  | H : (_ <? _) = true |- _ => apply N.ltb_lt in H
  | H : (_ <? _) = false |- _ => apply N.ltb_ge in H
  | H : (_ =? _) = true |- _ => apply N.eqb_eq in H
  | H : (_ =? _) = false |- _ => apply N.eqb_neq in H
  end.

Lemma is_cont_intro (b : N) : 128 <= b <= 191 -> Utf8.is_cont b = true.
Proof.
  intros H. unfold Utf8.is_cont.
  apply andb_true_iff. split; apply N.leb_le; lia.
Qed.

Lemma second_ok_intro (b0 b1 : N) :
  128 <= b1 <= 191 ->
  (b0 = 224 -> 160 <= b1) -> (b0 = 237 -> b1 <= 159) ->
  (b0 = 240 -> 144 <= b1) -> (b0 = 244 -> b1 <= 143) ->
  Utf8.second_ok b0 b1 = true.
Proof.
  intros H H1 H2 H3 H4. unfold Utf8.second_ok.
  destruct (N.eqb_spec b0 224);
    [apply andb_true_iff; split; apply N.leb_le; auto; lia|].
  destruct (N.eqb_spec b0 237);
    [apply andb_true_iff; split; apply N.leb_le; auto; lia|].
  destruct (N.eqb_spec b0 240);
    [apply andb_true_iff; split; apply N.leb_le; auto; lia|].
  destruct (N.eqb_spec b0 244);
    [apply andb_true_iff; split; apply N.leb_le; auto; lia|].
  apply is_cont_intro, H.
Qed.

Lemma well_formed_1 (b0 : N) (tail : Bytes) :
  b0 < 128 -> Utf8.well_formed (b0 :: tail) = Utf8.well_formed tail.
Proof.
  intros H. cbn [Utf8.well_formed].
  destruct (N.ltb_spec b0 128); [reflexivity | lia].
Qed.

Lemma well_formed_2 (b0 b1 : N) (tail : Bytes) :
  194 <= b0 <= 223 -> 128 <= b1 <= 191 ->
  Utf8.well_formed (b0 :: b1 :: tail) = Utf8.well_formed tail.
Proof.
  intros H0 H1. cbn [Utf8.well_formed].
  destruct (N.ltb_spec b0 128); [lia|].
  replace ((194 <=? b0) && (b0 <=? 223)) with true
    by (symmetry; apply andb_true_iff; split; apply N.leb_le; lia).
  rewrite is_cont_intro by exact H1. reflexivity.
Qed.

Lemma well_formed_3 (b0 b1 b2 : N) (tail : Bytes) :
  224 <= b0 <= 239 -> 128 <= b1 <= 191 -> 128 <= b2 <= 191 ->
  (b0 = 224 -> 160 <= b1) -> (b0 = 237 -> b1 <= 159) ->
  Utf8.well_formed (b0 :: b1 :: b2 :: tail) = Utf8.well_formed tail.
Proof.
  intros H0 H1 H2 Hlow Hhigh. cbn [Utf8.well_formed].
  destruct (N.ltb_spec b0 128); [lia|].
  replace ((194 <=? b0) && (b0 <=? 223)) with false
    by (symmetry; apply andb_false_iff; right; apply N.leb_gt; lia).
  replace ((224 <=? b0) && (b0 <=? 239)) with true
    by (symmetry; apply andb_true_iff; split; apply N.leb_le; lia).
  rewrite second_ok_intro, is_cont_intro by (auto; lia). reflexivity.
Qed.

Lemma well_formed_4 (b0 b1 b2 b3 : N) (tail : Bytes) :
  240 <= b0 <= 244 -> 128 <= b1 <= 191 -> 128 <= b2 <= 191 ->
  128 <= b3 <= 191 -> (b0 = 240 -> 144 <= b1) -> (b0 = 244 -> b1 <= 143) ->
  Utf8.well_formed (b0 :: b1 :: b2 :: b3 :: tail) = Utf8.well_formed tail.
Proof.
  intros H0 H1 H2 H3 Hlow Hhigh. cbn [Utf8.well_formed].
  destruct (N.ltb_spec b0 128); [lia|].
  replace ((194 <=? b0) && (b0 <=? 223)) with false
    by (symmetry; apply andb_false_iff; right; apply N.leb_gt; lia).
  replace ((224 <=? b0) && (b0 <=? 239)) with false
    by (symmetry; apply andb_false_iff; right; apply N.leb_gt; lia).
  replace ((240 <=? b0) && (b0 <=? 244)) with true
    by (symmetry; apply andb_true_iff; split; apply N.leb_le; lia).
  rewrite second_ok_intro, !is_cont_intro by (auto; lia). reflexivity.
Qed.

(** The octets of a scalar value are a well-formed sequence. *)
Lemma well_formed_of_code_point (cp : N) (tail : Bytes) :
  cp < 55296 \/ (57343 < cp /\ cp < 1114112) ->
  Utf8.well_formed (Utf8.of_code_point cp ++ tail) = Utf8.well_formed tail.
Proof.
  intros H. unfold Utf8.of_code_point.
  destruct (N.ltb_spec cp 128); [apply well_formed_1; lia|].
  destruct (N.ltb_spec cp 2048); [apply well_formed_2; n_arith|].
  destruct (N.ltb_spec cp 65536).
  - apply well_formed_3; n_arith.
  - apply well_formed_4; n_arith.
Qed.

Lemma well_formed_replacement (tail : Bytes) :
  Utf8.well_formed (Utf8.replacement_bytes ++ tail) = Utf8.well_formed tail.
Proof. reflexivity. Qed.

(** [Buffer.from(s, 'utf8')] is well-formed UTF-8, whatever the string. *)
Lemma encode_well_formed_bounded (n : nat) (s : JsString) :
  (List.length s <= n)%nat ->
  code_units s = true ->
  Utf8.well_formed (Utf8.encode s) = true.
Proof.
  revert s. induction n as [|n IH]; intros s Hlen Hcu.
  - destruct s; [reflexivity | simpl in Hlen; lia].
  - destruct s as [|c rest]; [reflexivity|].
    unfold code_units in Hcu. cbn [forallb] in Hcu.
    apply andb_true_iff in Hcu. destruct Hcu as [Hc Hrest].
    apply N.ltb_lt in Hc.
    assert (IHrest : Utf8.well_formed (Utf8.encode rest) = true)
      by (apply IH; [simpl in Hlen; lia | exact Hrest]).
    cbn [Utf8.encode].
    destruct (is_high_surrogate c) eqn:Hhi.
    + destruct rest as [|d rest']; [reflexivity|].
      destruct (is_low_surrogate d) eqn:Hlo.
      * cbn [forallb] in Hrest. apply andb_true_iff in Hrest.
        destruct Hrest as [_ Hrest'].
        unfold is_high_surrogate, is_low_surrogate in Hhi, Hlo. bounds.
        rewrite well_formed_of_code_point
          by (unfold pair_code_point; right; lia).
        apply IH; [simpl in Hlen; lia | exact Hrest'].
      * rewrite well_formed_replacement. exact IHrest.
    + destruct (is_low_surrogate c) eqn:Hlo.
      * rewrite well_formed_replacement. exact IHrest.
      * rewrite well_formed_of_code_point; [exact IHrest|].
        unfold is_high_surrogate, is_low_surrogate in Hhi, Hlo.
        bounds; lia.
Qed.

Lemma encode_well_formed (s : JsString) :
  code_units s = true -> Utf8.well_formed (Utf8.encode s) = true.
Proof.
  apply (encode_well_formed_bounded (List.length s)). apply Nat.le_refl.
Qed.

(** What [readFileSync] decodes is made of code units, whatever the
    octets of the file. *)
Lemma decode_code_units_bounded (n : nat) (bs : Bytes) :
  (List.length bs <= n)%nat -> code_units (Utf8.decode bs) = true.
Proof.
  unfold code_units.
  revert bs. induction n as [|n IH]; intros bs Hlen.
  - destruct bs; [reflexivity | simpl in Hlen; lia].
  - destruct bs as [|b0 r0]; [reflexivity|].
    assert (IH0 : forallb (fun c => c <? 65536) (Utf8.decode r0) = true)
      by (apply IH; cbn [List.length] in *; lia).
    cbn [Utf8.decode].
    destruct (b0 <? 128) eqn:H1.
    { cbn [forallb]. rewrite IH0, andb_true_r. bounds.
      apply N.ltb_lt. lia. }
    destruct ((194 <=? b0) && (b0 <=? 223)) eqn:H2.
    { destruct r0 as [|b1 r1]; [reflexivity|].
      destruct (Utf8.is_cont b1) eqn:Hc1; [|cbn [forallb]; rewrite IH0;
                                            reflexivity].
      cbn [forallb]. rewrite IH by (cbn [List.length] in *; lia).
      rewrite andb_true_r. unfold Utf8.is_cont in Hc1. bounds.
      apply N.ltb_lt. lia. }
    destruct ((224 <=? b0) && (b0 <=? 239)) eqn:H3.
    { destruct r0 as [|b1 r1]; [reflexivity|].
      destruct (Utf8.second_ok b0 b1) eqn:Hc1;
        [|cbn [forallb]; rewrite IH0; reflexivity].
      destruct r1 as [|b2 r2]; [reflexivity|].
      destruct (Utf8.is_cont b2) eqn:Hc2;
        [|cbn [forallb]; rewrite IH by (cbn [List.length] in *; lia); reflexivity].
      cbn [forallb]. rewrite IH by (cbn [List.length] in *; lia).
      rewrite andb_true_r.
      pose proof (second_ok_cont _ _ Hc1).
      unfold Utf8.is_cont in Hc2. clear H2. bounds.
      apply N.ltb_lt. lia. }
    destruct ((240 <=? b0) && (b0 <=? 244)) eqn:H4;
      [|cbn [forallb]; rewrite IH0; reflexivity].
    destruct r0 as [|b1 r1]; [reflexivity|].
    destruct (Utf8.second_ok b0 b1) eqn:Hc1;
      [|cbn [forallb]; rewrite IH0; reflexivity].
    destruct r1 as [|b2 r2]; [reflexivity|].
    destruct (Utf8.is_cont b2) eqn:Hc2;
      [|cbn [forallb]; rewrite IH by (cbn [List.length] in *; lia); reflexivity].
    destruct r2 as [|b3 r3]; [reflexivity|].
    destruct (Utf8.is_cont b3) eqn:Hc3;
      [|cbn [forallb]; rewrite IH by (cbn [List.length] in *; lia); reflexivity].
    rewrite forallb_app, IH by (cbn [List.length] in *; lia).
    rewrite andb_true_r.
    pose proof (second_ok_cont _ _ Hc1).
    unfold Utf8.is_cont in Hc2, Hc3. clear H2 H3. bounds.
    unfold Utf8.to_code_units.
    match goal with
    | |- context [?cp <? 65536] => destruct (N.ltb_spec cp 65536) as [Hlt|Hge]
    end; cbn [forallb]; rewrite ?andb_true_r.
    + apply N.ltb_lt. exact Hlt.
    + apply andb_true_iff. split; apply N.ltb_lt; n_arith.
Qed.

Lemma decode_code_units (bs : Bytes) : code_units (Utf8.decode bs) = true.
Proof.
  apply (decode_code_units_bounded (List.length bs)). apply Nat.le_refl.
Qed.

End PayloadFacts.

(** X16. Whatever octets a [.json] file holds, what a run uploads for it
    is well-formed UTF-8: the part carries the file as readFileSync
    decoded it, encoded again, with every ill-formed sequence of the
    file replaced by U+FFFD. *)
Theorem main_uploads_well_formed_json
    {E : Engine} (w : World) (filePath : JsString) (bytes : Bytes)
    (r : Request) (part : FormPart) :
  getInput w (str "oas_file_path") = filePath ->
  fs w filePath = Some (RegularFile bytes) ->
  toLowerCase (Path.extname filePath) = str ".json" ->
  In r (requests (main w)) ->
  In part (body r) ->
  value part = Utf8.encode (Utf8.decode bytes)
  /\ Utf8.well_formed (value part) = true.
Proof.
  intros Hpath Hfs Hext Hr Hpart.
  destruct (requests_main_cases w)
    as [Hnone | (_ & fd & pf & text & url & enc & Hread & Hproc & Htext & _
                 & _ & _ & Hreq)].
  - rewrite Hnone in Hr. contradiction.
  - rewrite Hreq in Hr. destruct Hr as [<- | []].
    cbn [body uploadForm] in Hpart. destruct Hpart as [<- | []].
    cbn [value].
    rewrite Hpath, (readOASFile_file w _ _ Hfs) in Hread.
    inversion Hread; subst fd.
    rewrite processOASFile_json in Hproc by exact Hext.
    cbn [snd content] in Hproc.
    destruct (JSON_parse (Utf8.decode bytes)); [|discriminate].
    inversion Hproc; subst pf. cbn [processedContent] in Htext.
    inversion Htext; subst text.
    split; [reflexivity|]. apply encode_well_formed, decode_code_units.
Qed.

Lemma main_uploads_well_formed_json_witness :
  let w := with_file (Example.run (str "docs/latin1.json") Example.created)
             (str "docs/latin1.json")
             (RegularFile ([123; 34; 233; 34; 58; 49; 125]%N)) in
  exists r part,
    requests (main w) = [r] /\ body r = [part]
    /\ value part = [123; 34; 239; 191; 189; 34; 58; 49; 125]%N
    /\ Utf8.well_formed (value part) = true.
Proof.
  intros w. eexists. eexists.
  split; [reflexivity|]. split; [reflexivity|].
  apply (main_uploads_well_formed_json w (str "docs/latin1.json")
           [123; 34; 233; 34; 58; 49; 125]%N _ _
           eq_refl eq_refl eq_refl (or_introl eq_refl) (or_introl eq_refl)).
Defined.
